(** * FileHashCalculator: the streaming hash engine, embedded and verified

    Shallow embedding of [js/hash-calculator.js], [js/utils.js],
    [js/file-handler.js] (the grouping of [compareMultipleFiles]) and of the
    UI controller's [compareHash].

    Conventions of the embedding.
    - A JavaScript Number that holds an integer is a [Z].  Every Number the
      modelled code computes is an integer (or is immediately truncated to one
      by a bit operator), and the model is exact as long as absolute values
      stay below 2^53, where IEEE doubles represent integers exactly.
    - [Uint8Array] is [list Z] with elements in [0, 256); [Uint32Array] stores
      wrap modulo 2^32 ([ToUint32]).
    - Bit operators first convert their operands with [ToInt32]/[ToUint32], as
      the language defines them.
    - Objects mutated in place are threaded explicitly: a function that mutates
      its argument returns the mutated object next to its result.
    - Strings are sequences of bytes (UTF-8), so [TextEncoder.encode] keeps
      them as they are; case mapping acts on the ASCII letters.
    - Promises are modelled by their outcome ([Resolved], [Rejected] or, for a
      promise that never settles, [Pending]); wall-clock fields ([duration])
      and the floating-point [percentage] of a progress event are left out.
    - The Web Crypto primitives and the settings are parameters. *)

From Stdlib Require Import ZArith List String Ascii Bool Lia Arith Sorted Permutation.
Import ListNotations.

Local Open Scope Z_scope.
Local Open Scope list_scope.

Local Abbreviation length := List.length.
Local Abbreviation concat := List.concat.

(** ** JavaScript integer operators *)

Module JS.

Definition ToInt32 (z : Z) : Z := (z + 2 ^ 31) mod 2 ^ 32 - 2 ^ 31.
Definition ToUint32 (z : Z) : Z := z mod 2 ^ 32.
Definition ToUint8 (z : Z) : Z := z mod 2 ^ 8.

(** [a & b], [a | b], [a ^ b], [~a] *)
Definition and (a b : Z) : Z := Z.land (ToInt32 a) (ToInt32 b).
Definition or (a b : Z) : Z := Z.lor (ToInt32 a) (ToInt32 b).
Definition xor (a b : Z) : Z := Z.lxor (ToInt32 a) (ToInt32 b).
Definition not (a : Z) : Z := Z.lnot (ToInt32 a).

(** [a << s], [a >> s], [a >>> s]: the shift count is taken modulo 32 *)
Definition shl (a s : Z) : Z := ToInt32 (Z.shiftl (ToInt32 a) (ToUint32 s mod 32)).
Definition sar (a s : Z) : Z := Z.shiftr (ToInt32 a) (ToUint32 s mod 32).
Definition shr (a s : Z) : Z := Z.shiftr (ToUint32 a) (ToUint32 s mod 32).

End JS.

(** ** Typed arrays *)

Definition Uint8Array := list Z.

(** [a[i]] read inside a bit operator: an index past the end reads
    [undefined], which the bit operator turns into 0. *)
Definition get (a : list Z) (i : nat) : Z := nth i a 0.

(** [a.subarray(from, to)] and [a.subarray(from)] *)
Definition subarray (a : Uint8Array) (from to : nat) : Uint8Array :=
  firstn (to - from) (skipn from a).
Definition subarray_from (a : Uint8Array) (from : nat) : Uint8Array :=
  skipn from a.

(** [target.set(src, at)], for a source that fits ([at + src.length <=
    target.length]; the only use the program makes of it). *)
Definition set (target src : Uint8Array) (at_ : nat) : Uint8Array :=
  firstn at_ target ++ src ++ skipn (at_ + length src) target.

(** [a[i] = v] on a [Uint8Array], [i] in range *)
Definition store8 (a : Uint8Array) (i : nat) (v : Z) : Uint8Array :=
  firstn i a ++ JS.ToUint8 v :: skipn (S i) a.

(** [while (i < to) a[i++] = 0] *)
Definition zero_fill (a : Uint8Array) (i to : nat) : Uint8Array :=
  firstn i a ++ repeat 0 (to - i) ++ skipn (Nat.max i to) a.

(** [new DataView(buf).setUint32(at, v, true)]: little-endian store *)
Definition setUint32_le (a : Uint8Array) (at_ : nat) (v : Z) : Uint8Array :=
  let w := JS.ToUint32 v in
  set a [w mod 256; (w / 2 ^ 8) mod 256; (w / 2 ^ 16) mod 256; (w / 2 ^ 24) mod 256] at_.

(** ** The MD5 engine *)

Module HashCalculator.

(** The four words of the [Uint32Array] state. *)
Definition words := (Z * Z * Z * Z)%type.

Record md5state := mk_md5state {
  state : words;
  count : Z;
  buffer : Uint8Array
}.

Definition md5Init : md5state :=
  {| state := (0x67452301, 0xEFCDAB89, 0x98BADCFE, 0x10325476);
     count := 0;
     buffer := repeat 0 64%nat |}.

Definition md5FF (a b c d x s t : Z) : Z :=
  let a := a + (JS.or (JS.and b c) (JS.and (JS.not b) d) + x + t) in
  JS.or (JS.shl a s) (JS.shr a (32 - s)) + b.

Definition md5GG (a b c d x s t : Z) : Z :=
  let a := a + (JS.or (JS.and b d) (JS.and c (JS.not d)) + x + t) in
  JS.or (JS.shl a s) (JS.shr a (32 - s)) + b.

Definition md5HH (a b c d x s t : Z) : Z :=
  let a := a + (JS.xor (JS.xor b c) d + x + t) in
  JS.or (JS.shl a s) (JS.shr a (32 - s)) + b.

Definition md5II (a b c d x s t : Z) : Z :=
  let a := a + (JS.xor c (JS.or b (JS.not d)) + x + t) in
  JS.or (JS.shl a s) (JS.shr a (32 - s)) + b.

(** [x[i]]: the little-endian word [i] of the block, as stored in the
    [Uint32Array] *)
Definition word_of_block (block : Uint8Array) (i : nat) : Z :=
  JS.ToUint32
    (JS.or (JS.or (JS.or (JS.and (get block (i * 4)) 0xFF)
                         (JS.shl (JS.and (get block (i * 4 + 1)) 0xFF) 8))
                  (JS.shl (JS.and (get block (i * 4 + 2)) 0xFF) 16))
           (JS.shl (JS.and (get block (i * 4 + 3)) 0xFF) 24)).

Definition md5Transform (st : words) (block : Uint8Array) : words :=
  let x := word_of_block block in
  let '(s0, s1, s2, s3) := st in
  let a := s0 in let b := s1 in let c := s2 in let d := s3 in
  let a := md5FF a b c d (x 0%nat) 7 0xD76AA478 in
  let d := md5FF d a b c (x 1%nat) 12 0xE8C7B756 in
  let c := md5FF c d a b (x 2%nat) 17 0x242070DB in
  let b := md5FF b c d a (x 3%nat) 22 0xC1BDCEEE in
  let a := md5FF a b c d (x 4%nat) 7 0xF57C0FAF in
  let d := md5FF d a b c (x 5%nat) 12 0x4787C62A in
  let c := md5FF c d a b (x 6%nat) 17 0xA8304613 in
  let b := md5FF b c d a (x 7%nat) 22 0xFD469501 in
  let a := md5FF a b c d (x 8%nat) 7 0x698098D8 in
  let d := md5FF d a b c (x 9%nat) 12 0x8B44F7AF in
  let c := md5FF c d a b (x 10%nat) 17 0xFFFF5BB1 in
  let b := md5FF b c d a (x 11%nat) 22 0x895CD7BE in
  let a := md5FF a b c d (x 12%nat) 7 0x6B901122 in
  let d := md5FF d a b c (x 13%nat) 12 0xFD987193 in
  let c := md5FF c d a b (x 14%nat) 17 0xA679438E in
  let b := md5FF b c d a (x 15%nat) 22 0x49B40821 in
  let a := md5GG a b c d (x 1%nat) 5 0xF61E2562 in
  let d := md5GG d a b c (x 6%nat) 9 0xC040B340 in
  let c := md5GG c d a b (x 11%nat) 14 0x265E5A51 in
  let b := md5GG b c d a (x 0%nat) 20 0xE9B6C7AA in
  let a := md5GG a b c d (x 5%nat) 5 0xD62F105D in
  let d := md5GG d a b c (x 10%nat) 9 0x02441453 in
  let c := md5GG c d a b (x 15%nat) 14 0xD8A1E681 in
  let b := md5GG b c d a (x 4%nat) 20 0xE7D3FBC8 in
  let a := md5GG a b c d (x 9%nat) 5 0x21E1CDE6 in
  let d := md5GG d a b c (x 14%nat) 9 0xC33707D6 in
  let c := md5GG c d a b (x 3%nat) 14 0xF4D50D87 in
  let b := md5GG b c d a (x 8%nat) 20 0x455A14ED in
  let a := md5GG a b c d (x 13%nat) 5 0xA9E3E905 in
  let d := md5GG d a b c (x 2%nat) 9 0xFCEFA3F8 in
  let c := md5GG c d a b (x 7%nat) 14 0x676F02D9 in
  let b := md5GG b c d a (x 12%nat) 20 0x8D2A4C8A in
  let a := md5HH a b c d (x 5%nat) 4 0xFFFA3942 in
  let d := md5HH d a b c (x 8%nat) 11 0x8771F681 in
  let c := md5HH c d a b (x 11%nat) 16 0x6D9D6122 in
  let b := md5HH b c d a (x 14%nat) 23 0xFDE5380C in
  let a := md5HH a b c d (x 1%nat) 4 0xA4BEEA44 in
  let d := md5HH d a b c (x 4%nat) 11 0x4BDECFA9 in
  let c := md5HH c d a b (x 7%nat) 16 0xF6BB4B60 in
  let b := md5HH b c d a (x 10%nat) 23 0xBEBFBC70 in
  let a := md5HH a b c d (x 13%nat) 4 0x289B7EC6 in
  let d := md5HH d a b c (x 0%nat) 11 0xEAA127FA in
  let c := md5HH c d a b (x 3%nat) 16 0xD4EF3085 in
  let b := md5HH b c d a (x 6%nat) 23 0x04881D05 in
  let a := md5HH a b c d (x 9%nat) 4 0xD9D4D039 in
  let d := md5HH d a b c (x 12%nat) 11 0xE6DB99E5 in
  let c := md5HH c d a b (x 15%nat) 16 0x1FA27CF8 in
  let b := md5HH b c d a (x 2%nat) 23 0xC4AC5665 in
  let a := md5II a b c d (x 0%nat) 6 0xF4292244 in
  let d := md5II d a b c (x 7%nat) 10 0x432AFF97 in
  let c := md5II c d a b (x 14%nat) 15 0xAB9423A7 in
  let b := md5II b c d a (x 5%nat) 21 0xFC93A039 in
  let a := md5II a b c d (x 12%nat) 6 0x655B59C3 in
  let d := md5II d a b c (x 3%nat) 10 0x8F0CCC92 in
  let c := md5II c d a b (x 10%nat) 15 0xFFEFF47D in
  let b := md5II b c d a (x 1%nat) 21 0x85845DD1 in
  let a := md5II a b c d (x 8%nat) 6 0x6FA87E4F in
  let d := md5II d a b c (x 15%nat) 10 0xFE2CE6E0 in
  let c := md5II c d a b (x 6%nat) 15 0xA3014314 in
  let b := md5II b c d a (x 13%nat) 21 0x4E0811A1 in
  let a := md5II a b c d (x 4%nat) 6 0xF7537E82 in
  let d := md5II d a b c (x 11%nat) 10 0xBD3AF235 in
  let c := md5II c d a b (x 2%nat) 15 0x2AD7D2BB in
  let b := md5II b c d a (x 9%nat) 21 0xEB86D391 in
  (JS.ToUint32 (s0 + a), JS.ToUint32 (s1 + b),
   JS.ToUint32 (s2 + c), JS.ToUint32 (s3 + d)).

(** [(count >> 3) & 0x3F] *)
Definition bufferIndex_of (count : Z) : nat :=
  Z.to_nat (JS.and (JS.sar count 3) 0x3F).

(** The [while (bitsProcessed + 64 <= data.length)] loop of [md5Update].
    Every iteration consumes 64 bytes of [data], so [length data] iterations
    always suffice. *)
Fixpoint md5Update_loop (fuel : nat) (hash : words) (data : Uint8Array)
    (bitsProcessed : nat) : words * nat :=
  match fuel with
  | O => (hash, bitsProcessed)
  | S fuel' =>
      if (bitsProcessed + 64 <=? length data)%nat then
        md5Update_loop fuel'
          (md5Transform hash (subarray data bitsProcessed (bitsProcessed + 64)))
          data (bitsProcessed + 64)
      else (hash, bitsProcessed)
  end.

Definition md5Update (st : md5state) (data : Uint8Array) : md5state :=
  let hash := state st in
  let buffer := buffer st in
  let bufferIndex := bufferIndex_of (count st) in
  let count' := count st + JS.shl (Z.of_nat (length data)) 3 in
  let '(hash, buffer, bitsProcessed) :=
    if (0 <? bufferIndex)%nat then
      let needed := Nat.min (length data) (64 - bufferIndex) in
      let buffer := set buffer (subarray data 0 needed) bufferIndex in
      if (bufferIndex + needed =? 64)%nat
      then (md5Transform hash buffer, buffer, needed)
      else (hash, buffer, needed)
    else (hash, buffer, 0%nat) in
  let '(hash, bitsProcessed) :=
    md5Update_loop (length data) hash data bitsProcessed in
  let buffer :=
    if (bitsProcessed <? length data)%nat
    then set buffer (subarray_from data bitsProcessed) 0
    else buffer in
  {| state := hash; count := count'; buffer := buffer |}.

(** The eight [lengthBytes] of [md5Final].  [count / 0x100000000] is a
    fraction in general; the [&] truncates it towards zero before wrapping. *)
Definition lengthBytes_of (count : Z) : Uint8Array :=
  let lengthBytes := repeat 0 8%nat in
  let lengthBytes := setUint32_le lengthBytes 0 (JS.and count 0xFFFFFFFF) in
  setUint32_le lengthBytes 4 (JS.and (Z.quot count 0x100000000) 0xFFFFFFFF).

(** The padding of [md5Final]: the chaining value and the last block handed to
    [md5Transform]. *)
Definition md5Final_pad (st : md5state) : words * Uint8Array :=
  let hash := state st in
  let count := count st in
  let bufferIndex := bufferIndex_of count in
  let buffer := store8 (buffer st) bufferIndex 0x80 in
  let bufferIndex := S bufferIndex in
  let '(hash, buffer, bufferIndex) :=
    if (56 <? bufferIndex)%nat then
      let buffer := zero_fill buffer bufferIndex 64 in
      (md5Transform hash buffer, buffer, 0%nat)
    else (hash, buffer, bufferIndex) in
  let buffer := zero_fill buffer bufferIndex 56 in
  (hash, set buffer (lengthBytes_of count) 56).

Definition word_bytes (h : Z) : list Z :=
  [JS.and h 0xFF; JS.and (JS.sar h 8) 0xFF;
   JS.and (JS.sar h 16) 0xFF; JS.and (JS.sar h 24) 0xFF].

(** [md5Final] mutates the state words and the buffer of its argument: the
    mutated accumulator is returned next to the sixteen digest bytes. *)
Definition md5Final (st : md5state) : Uint8Array * md5state :=
  let '(hash, buffer) := md5Final_pad st in
  let '(h0, h1, h2, h3) := md5Transform hash buffer in
  (word_bytes h0 ++ word_bytes h1 ++ word_bytes h2 ++ word_bytes h3,
   {| state := (h0, h1, h2, h3); count := count st; buffer := buffer |}).

(** [bytes[i].toString(16).padStart(2, '0')] *)
Definition hex_digit (n : Z) : ascii :=
  nth (Z.to_nat n)
      ["0"; "1"; "2"; "3"; "4"; "5"; "6"; "7"; "8"; "9";
       "a"; "b"; "c"; "d"; "e"; "f"]%char "0"%char.

Definition hex_byte (b : Z) : string :=
  String (hex_digit (b / 16)) (String (hex_digit (b mod 16)) EmptyString).

Definition upper_char (c : ascii) : ascii :=
  let n := nat_of_ascii c in
  if ((97 <=? n) && (n <=? 122))%nat then ascii_of_nat (n - 32) else c.

Definition lower_char (c : ascii) : ascii :=
  let n := nat_of_ascii c in
  if ((65 <=? n) && (n <=? 90))%nat then ascii_of_nat (n + 32) else c.

Fixpoint map_string (f : ascii -> ascii) (s : string) : string :=
  match s with
  | EmptyString => EmptyString
  | String c s' => String (f c) (map_string f s')
  end.

(** [toUpperCase] / [toLowerCase], on the ASCII letters (digest strings hold
    nothing else that has a case). *)
Definition toUpperCase := map_string upper_char.
Definition toLowerCase := map_string lower_char.

Definition bufferToHex (bytes : Uint8Array) (format : string) : string :=
  let hex := fold_left (fun hex b => hex ++ hex_byte b)%string bytes EmptyString in
  if String.eqb format "uppercase" then toUpperCase hex else hex.

End HashCalculator.

Import HashCalculator.

Definition ascii_bytes (s : string) : Uint8Array :=
  map (fun c => Z.of_nat (nat_of_ascii c)) (list_ascii_of_string s).

(** ** What [md5Update] computes: the block structure of the stream *)

Local Open Scope nat_scope.

(** The chaining value after the full 64-byte blocks of [D]. *)
Fixpoint absorb_n (k : nat) (h : words) (D : Uint8Array) : words :=
  match k with
  | O => h
  | S k' => absorb_n k' (md5Transform h (firstn 64 D)) (skipn 64 D)
  end.

Definition absorb (h : words) (D : Uint8Array) : words :=
  absorb_n (length D / 64) h D.

(** The bytes of [D] after its last full block. *)
Definition tail64 (D : Uint8Array) : Uint8Array :=
  skipn (64 * (length D / 64)) D.

(** Every byte fed so far, [D], determines the accumulator as far as
    [md5Final] reads it. *)
Definition md5_inv (st : md5state) (D : Uint8Array) : Prop :=
  state st = absorb (state md5Init) D
  /\ length (buffer st) = 64
  /\ firstn (length D mod 64) (buffer st) = tail64 D
  /\ (count st mod 512 = (8 * Z.of_nat (length D)) mod 512)%Z.

(** Chunks shorter than 2^28 bytes: [data.length << 3] does not wrap. *)
Definition small_chunk (X : Uint8Array) : Prop :=
  (Z.of_nat (length X) < 2 ^ 28)%Z.

(** The digest of a stream of chunks fed to a fresh accumulator, as
    [calculateHash] produces it for the MD5 algorithm. *)
Definition md5_digest (chunks : list Uint8Array) : Uint8Array :=
  fst (md5Final (fold_left md5Update chunks md5Init)).

(** ** The streaming hasher and the orchestrator *)

Local Open Scope string_scope.
Local Open Scope nat_scope.

(** How a promise ends: it resolves, it rejects with an [Error] (kept by its
    [message]), or it never settles.  An error thrown before the first
    [await] is the rejection of the same promise. *)
Inductive outcome (A : Type) : Type :=
| Resolved (a : A)
| Rejected (message : string)
| Pending.
Arguments Resolved {A} a.
Arguments Rejected {A} message.
Arguments Pending {A}.

(** The Web Crypto primitives the program calls.  They are not code of the
    program: the embedding takes them as a parameter.
    - [isCryptoSupported]: [window.crypto.subtle] is defined;
    - [subtle_digest name buffer]: [crypto.subtle.digest], on the buffer the
      accumulator holds ([None] is the initial [null]);
    - [subtle_importKey hash key]: [crypto.subtle.importKey('raw', key,
      {name: 'HMAC', hash}, false, ['sign'])], [None] when the key is
      imported and [Some message] when the call rejects;
    - [subtle_sign hash key data]: [crypto.subtle.sign('HMAC', keyObj, data)]. *)
Record Platform := {
  isCryptoSupported : bool;
  subtle_digest : string -> option Uint8Array -> string + Uint8Array;
  subtle_importKey : string -> Uint8Array -> option string;
  subtle_sign : string -> Uint8Array -> Uint8Array -> string + Uint8Array
}.

(** [SettingsManager.get('chunkSize')], a number of bytes, and
    [SettingsManager.get('resultFormat')] *)
Record Settings := {
  chunkSize : nat;
  resultFormat : string
}.

(** A [File]: its name and its bytes; [file.size] is the number of bytes.
    Reads of the file succeed ([reader.onerror] is not modelled). *)
Record File := {
  name : string;
  bytes : Uint8Array
}.

Definition size (file : File) : nat := length (bytes file).

(** [file.slice(from, to)] *)
Definition slice (file : File) (from to : nat) : Uint8Array :=
  firstn (to - from) (skipn from (bytes file)).

(** The [options] argument: [chunkSize] ([None]: take it from the settings),
    whether an [onProgress] callback is given, and [hmacKey]. *)
Record Options := {
  opt_chunkSize : option nat;
  opt_onProgress : bool;
  opt_hmacKey : option string
}.

(** What the run of a computation does to its surroundings, in order:
    [EvRead offset len] is a [reader.readAsArrayBuffer] over the [len] bytes
    at [offset]; [EvUpdate algorithm len] is an [updateHash] that feeds [len]
    bytes to the accumulator of [algorithm]; [EvProgress processed total] is a
    call of the progress callback. *)
Inductive event : Type :=
| EvRead (offset len : nat)
| EvUpdate (algorithm : string) (len : nat)
| EvProgress (processed total : nat).

(** The accumulator objects of [createHashInstance]: [{algorithm, type:
    'crypto', buffer}] and [{algorithm, type: 'js', state}]. *)
Inductive HashObj : Type :=
| CryptoHash (algorithm : string) (buffer : option Uint8Array)
| JsHash (algorithm : string) (state : md5state).

Record HashResult := {
  hr_algorithm : string;
  hash : string
}.

(** A JavaScript object used as a map from strings, in insertion order.  The
    model is the language's for the keys [plain_key] accepts below; algorithm
    names, digests and failure markers are such keys. *)
Definition obj (V : Type) := list (string * V).

Fixpoint obj_get {V} (o : obj V) (k : string) : option V :=
  match o with
  | [] => None
  | (k', v) :: o' => if String.eqb k' k then Some v else obj_get o' k
  end.

Fixpoint obj_set {V} (o : obj V) (k : string) (v : V) : obj V :=
  match o with
  | [] => [(k, v)]
  | (k', v') :: o' =>
      if String.eqb k' k then (k', v) :: o' else (k', v') :: obj_set o' k v
  end.

Definition obj_keys {V} (o : obj V) : list string := map fst o.

(** The property names on which a JavaScript object does not behave as the
    insertion-ordered map above: array indices (canonical decimal numerals
    below 2^32 - 1, which [Object.keys] lists first) and the names every
    object inherits from [Object.prototype]. *)
Definition is_digit (c : ascii) : bool :=
  (48 <=? nat_of_ascii c)%nat && (nat_of_ascii c <=? 57)%nat.

Fixpoint digits_value (k : string) (acc : N) : option N :=
  match k with
  | EmptyString => Some acc
  | String c k' =>
      if is_digit c
      then digits_value k' (10 * acc + N.of_nat (nat_of_ascii c - 48))%N
      else None
  end.

Definition is_array_index (k : string) : bool :=
  match k with
  | EmptyString => false
  | String c rest =>
      match digits_value k 0%N with
      | Some n =>
          (n <? 2 ^ 32 - 1)%N
          && (negb (Ascii.eqb c "0"%char) || String.eqb rest EmptyString)
      | None => false
      end
  end.

Definition Object_prototype_keys : list string :=
  ["__proto__"; "constructor"; "hasOwnProperty"; "isPrototypeOf";
   "propertyIsEnumerable"; "toLocaleString"; "toString"; "valueOf";
   "__defineGetter__"; "__defineSetter__"; "__lookupGetter__";
   "__lookupSetter__"].

Definition plain_key (k : string) : bool :=
  negb (is_array_index k) && negb (existsb (String.eqb k) Object_prototype_keys).

Record Report := {
  filename : string;
  rp_size : nat;
  hashValues : obj string
}.

Definition substring_from (n : nat) (s : string) : string :=
  substring n (String.length s - n) s.

Section Hasher.

Variable P : Platform.
Variable settings : Settings.

Definition isAlgorithmSupported (algorithm : string) : bool :=
  existsb (String.eqb algorithm)
    ["md5"; "sha1"; "sha256"; "sha512"; "hmac-md5"; "hmac-sha1"; "hmac-sha256"].

Definition createJsHashInstance (algorithm : string) : string + HashObj :=
  if String.eqb algorithm "md5" then inr (JsHash "MD5" md5Init)
  else inl ("不支持的算法: " ++ algorithm).

Definition createHashInstance (algorithm : string) : string + HashObj :=
  if negb (isCryptoSupported P) then createJsHashInstance algorithm
  else
    match obj_get [("sha1", "SHA-1"); ("sha256", "SHA-256"); ("sha512", "SHA-512")]
                  algorithm with
    | Some cryptoAlgo => inr (CryptoHash cryptoAlgo None)
    | None => createJsHashInstance algorithm
    end.

Definition updateHash (hashObj : HashObj) (data : Uint8Array) : HashObj :=
  match hashObj with
  | CryptoHash algorithm None => CryptoHash algorithm (Some data)
  | CryptoHash algorithm (Some buffer) => CryptoHash algorithm (Some (buffer ++ data)%list)
  | JsHash algorithm state =>
      if String.eqb algorithm "MD5" then JsHash algorithm (md5Update state data)
      else hashObj
  end.

(** [finalizeHash] returns the digest bytes or throws; the accumulator it
    leaves behind is returned too ([md5Final] mutates it). *)
Definition finalizeHash (hashObj : HashObj) : (string + Uint8Array) * HashObj :=
  match hashObj with
  | CryptoHash algorithm buffer => (subtle_digest P algorithm buffer, hashObj)
  | JsHash algorithm state =>
      if String.eqb algorithm "MD5" then
        let '(hashBytes, state') := md5Final state in
        (inr hashBytes, JsHash algorithm state')
      else (inl "未知的哈希对象类型", hashObj)
  end.

Definition progress (onProgress : bool) (processed total : nat) : list event :=
  if onProgress then [EvProgress processed total] else [].

(** The [readNextChunk] loop of [readFileAsArrayBuffer].  [fuel] bounds the
    number of chunks; a loop that outlives it stands for a promise that never
    settles (see [readNextChunk_settles]). *)
Fixpoint readNextChunk (fuel : nat) (file : File) (chunkSize : nat)
    (onProgress : bool) (chunks : list Uint8Array) (offset : nat)
  : list event * outcome Uint8Array :=
  match fuel with
  | O => ([], Pending)
  | S fuel' =>
      let chunk := slice file offset (offset + chunkSize) in
      let chunks := (chunks ++ [chunk])%list in
      let offset' := offset + length chunk in
      let evs := EvRead offset (length chunk) :: progress onProgress offset' (size file) in
      if offset' <? size file then
        let '(evs', out) := readNextChunk fuel' file chunkSize onProgress chunks offset' in
        ((evs ++ evs')%list, out)
      else (evs, Resolved (concat chunks))
  end.

Definition readFileAsArrayBuffer (file : File) (chunkSize : nat) (onProgress : bool)
  : list event * outcome Uint8Array :=
  if size file <=? chunkSize then
    (EvRead 0 (size file) :: progress onProgress (size file) (size file),
     Resolved (bytes file))
  else readNextChunk (size file) file chunkSize onProgress [] 0.

Definition calculateHMAC (file : File) (algorithm : string) (key : option string)
    (chunkSize : nat) (onProgress : bool) : list event * outcome HashResult :=
  let hmacKey := match key with Some k => k | None => "" end in
  let keyBuffer := ascii_bytes hmacKey in
  match obj_get [("md5", "MD5"); ("sha1", "SHA-1"); ("sha256", "SHA-256")] algorithm with
  | None => ([], Rejected ("不支持的HMAC算法: " ++ algorithm))
  | Some cryptoAlgo =>
      match subtle_importKey P cryptoAlgo keyBuffer with
      | Some message => ([], Rejected message)
      | None =>
          match readFileAsArrayBuffer file chunkSize onProgress with
          | (evs, Resolved fileBuffer) =>
              match subtle_sign P cryptoAlgo keyBuffer fileBuffer with
              | inl message => (evs, Rejected message)
              | inr hmacBuffer =>
                  (evs, Resolved {| hr_algorithm := "hmac-" ++ algorithm;
                                    hash := bufferToHex hmacBuffer (resultFormat settings) |})
              end
          | (evs, Rejected message) => (evs, Rejected message)
          | (evs, Pending) => (evs, Pending)
          end
      end
  end.

(** The [processChunk] loop of [calculateHash]; [fuel] as in [readNextChunk]. *)
Fixpoint processChunk (fuel : nat) (file : File) (algorithm : string)
    (chunkSize : nat) (onProgress : bool) (hashBuffer : HashObj)
    (processedBytes offset : nat) : list event * outcome HashResult :=
  match fuel with
  | O => ([], Pending)
  | S fuel' =>
      let chunk := slice file offset (offset + chunkSize) in
      let hashBuffer := updateHash hashBuffer chunk in
      let processedBytes' := processedBytes + length chunk in
      let offset' := offset + length chunk in
      let evs := (EvRead offset (length chunk) :: EvUpdate algorithm (length chunk)
                  :: progress onProgress processedBytes' (size file)) in
      if offset' <? size file then
        let '(evs', out) :=
          processChunk fuel' file algorithm chunkSize onProgress hashBuffer
                       processedBytes' offset' in
        ((evs ++ evs')%list, out)
      else
        match fst (finalizeHash hashBuffer) with
        | inr hash =>
            (evs, Resolved {| hr_algorithm := algorithm;
                              hash := bufferToHex hash (resultFormat settings) |})
        | inl message => (evs, Rejected message)
        end
  end.

(** [const { chunkSize = SettingsManager.get('chunkSize'), ... } = options] *)
Definition option_chunkSize (options : Options) : nat :=
  match opt_chunkSize options with
  | Some c => c
  | None => chunkSize settings
  end.

Definition calculateHash (file : File) (algorithm : string) (options : Options)
  : list event * outcome HashResult :=
  let chunkSize := option_chunkSize options in
  let onProgress := opt_onProgress options in
  if negb (isAlgorithmSupported algorithm) then
    ([], Rejected ("不支持的算法: " ++ algorithm))
  else if prefix "hmac-" algorithm then
    calculateHMAC file (substring_from 5 algorithm) (opt_hmacKey options)
                  chunkSize onProgress
  else
    match createHashInstance algorithm with
    | inl message => ([], Rejected message)
    | inr hashBuffer =>
        if size file <=? chunkSize then
          let hashBuffer := updateHash hashBuffer (bytes file) in
          let evs := [EvRead 0 (size file); EvUpdate algorithm (size file)] in
          match fst (finalizeHash hashBuffer) with
          | inr hash =>
              ((evs ++ progress onProgress (size file) (size file))%list,
               Resolved {| hr_algorithm := algorithm;
                           hash := bufferToHex hash (resultFormat settings) |})
          | inl message => (evs, Rejected message)
          end
        else processChunk (size file) file algorithm chunkSize onProgress hashBuffer 0 0
    end.

(** The wrapper [calculateMultipleHashes] hands to [calculateHash] as
    [onProgress]: it forwards an event only for the first algorithm of the
    list and only when the caller gave a callback. *)
Definition forward_progress (algorithm : string) (algorithms : list string)
    (options : Options) (evs : list event) : list event :=
  let forwards :=
    match algorithms with
    | first :: _ => String.eqb algorithm first && opt_onProgress options
    | [] => false
    end in
  filter (fun e => match e with EvProgress _ _ => forwards | _ => true end) evs.

(** [{...options, onProgress: ...}], the options [calculateMultipleHashes]
    hands to [calculateHash] *)
Definition inner_options (options : Options) : Options :=
  {| opt_chunkSize := opt_chunkSize options;
     opt_onProgress := true;
     opt_hmacKey := opt_hmacKey options |}.

(** The [for (const algorithm of algorithms)] loop. *)
Fixpoint calculateMultipleHashes_loop (file : File) (algorithms todo : list string)
    (options : Options) (results : obj string) : list event * outcome (obj string) :=
  match todo with
  | [] => ([], Resolved results)
  | algorithm :: todo' =>
      let '(evs, out) :=
        calculateHash file algorithm (inner_options options) in
      let evs := forward_progress algorithm algorithms options evs in
      match out with
      | Pending => (evs, Pending)
      | Resolved result =>
          let '(evs', out') :=
            calculateMultipleHashes_loop file algorithms todo' options
              (obj_set results algorithm (hash result)) in
          ((evs ++ evs')%list, out')
      | Rejected message =>
          let '(evs', out') :=
            calculateMultipleHashes_loop file algorithms todo' options
              (obj_set results algorithm ("计算失败: " ++ message)) in
          ((evs ++ evs')%list, out')
      end
  end.

Definition calculateMultipleHashes (file : File) (algorithms : list string)
    (options : Options) : list event * outcome Report :=
  match calculateMultipleHashes_loop file algorithms algorithms options [] with
  | (evs, Resolved results) =>
      (evs, Resolved {| filename := name file; rp_size := size file;
                        hashValues := results |})
  | (evs, Rejected message) => (evs, Rejected message)
  | (evs, Pending) => (evs, Pending)
  end.

End Hasher.

(** ** Comparison of digests *)

Module Utils.

(** [compareHashes]: [!hash] holds of the empty string. *)
Definition compareHashes (hash1 hash2 : string) : bool :=
  if String.eqb hash1 "" || String.eqb hash2 "" then false
  else String.eqb (toLowerCase hash1) (toLowerCase hash2).

(** The opening tag [highlightDifferences] puts before the part that
    differs; the class attribute is written between double quotes. *)
Definition span_open : string :=
  "<span class=" ++ String (ascii_of_nat 34)
    ("bg-red-100 dark:bg-red-900/30 text-red-600 dark:text-red-400 px-0.5 rounded"
     ++ String (ascii_of_nat 34) ">").

Definition span_close : string := "</span>".

(** The [while] loop of [highlightDifferences]; it runs at most
    [str1.length] times, which is the fuel it is given. *)
Fixpoint highlightDifferences_loop (fuel : nat) (str1 str2 result1 result2 : string)
    (i : nat) : string * string * nat :=
  match fuel with
  | O => (result1, result2, i)
  | S fuel' =>
      if (i <? String.length str1)%nat && (i <? String.length str2)%nat
         && match String.get i str1, String.get i str2 with
            | Some c1, Some c2 => Ascii.eqb c1 c2
            | _, _ => false
            end
      then
        match String.get i str1, String.get i str2 with
        | Some c1, Some c2 =>
            highlightDifferences_loop fuel' str1 str2
              (result1 ++ String c1 "") (result2 ++ String c2 "") (S i)
        | _, _ => (result1, result2, i)
        end
      else (result1, result2, i)
  end.

(** [highlightDifferences]: [!str] holds of the empty string. *)
Definition highlightDifferences (str1 str2 : string) : string * string :=
  if String.eqb str1 "" || String.eqb str2 "" then (str1, str2)
  else
    let str1 := toLowerCase str1 in
    let str2 := toLowerCase str2 in
    let '(result1, result2, i) :=
      highlightDifferences_loop (String.length str1) str1 str2 "" "" 0 in
    let result1 :=
      if (i <? String.length str1)%nat
      then result1 ++ span_open ++ substring_from i str1 ++ span_close
      else result1 in
    let result2 :=
      if (i <? String.length str2)%nat
      then result2 ++ span_open ++ substring_from i str2 ++ span_close
      else result2 in
    (result1, result2).

End Utils.

Module FileHandler.

(** [result.hashValues[algorithm]] used as a property key: a report without
    the algorithm yields the key [undefined]. *)
Definition digest_key (algorithm : string) (result : Report) : string :=
  match obj_get (hashValues result) algorithm with
  | Some hash => hash
  | None => "undefined"
  end.

(** The [hashGroups] object [compareMultipleFiles] builds for one algorithm. *)
Definition hashGroups (algorithm : string) (calculationResults : list Report)
  : obj (list string) :=
  fold_left
    (fun hashGroups result =>
       let hash := digest_key algorithm result in
       match obj_get hashGroups hash with
       | None => obj_set hashGroups hash [filename result]
       | Some files => obj_set hashGroups hash (files ++ [filename result])%list
       end)
    calculationResults [].

(** [Object.keys(hashGroups).length === 1] *)
Definition allSame (algorithm : string) (calculationResults : list Report) : bool :=
  length (obj_keys (hashGroups algorithm calculationResults)) =? 1.

(** The [Set] of the algorithms of all reports, in first-insertion order. *)
Definition algorithms_of (calculationResults : list Report) : list string :=
  fold_left
    (fun algorithms algo =>
       if existsb (String.eqb algo) algorithms then algorithms
       else (algorithms ++ [algo])%list)
    (flat_map (fun result => obj_keys (hashValues result)) calculationResults) [].

(** What [compareMultipleFiles] renders for an algorithm. *)
Inductive comparison : Type :=
| AllSame
| Groups (groups : obj (list string)).

Definition compareMultipleFiles (calculationResults : list Report)
  : list (string * comparison) :=
  if length calculationResults <? 2 then []
  else
    map (fun algorithm =>
           (algorithm,
            if allSame algorithm calculationResults then AllSame
            else Groups (hashGroups algorithm calculationResults)))
        (algorithms_of calculationResults).

End FileHandler.

Module UI.

Record match_ := {
  m_filename : string;
  m_algorithm : string;
  m_hash : string
}.

(** The two nested [forEach] loops of [compareHash]. *)
Definition matches (inputHash : string) (calculationResults : list Report)
  : list match_ :=
  flat_map
    (fun result =>
       flat_map
         (fun '(algorithm, hash) =>
            if Utils.compareHashes inputHash hash
            then [{| m_filename := filename result; m_algorithm := algorithm;
                     m_hash := hash |}]
            else [])
         (hashValues result))
    calculationResults.

(** What [compareHash] shows. *)
Inductive shown : Type :=
| WarnNoInput
| WarnNoResults
| Found (ms : list match_)
| NotFound.

(** [compareHash], from the trimmed content of the input field on. *)
Definition compareHash (inputHash : string) (calculationResults : list Report)
  : shown :=
  if String.eqb inputHash "" then WarnNoInput
  else if length calculationResults =? 0 then WarnNoResults
  else
    match matches inputHash calculationResults with
    | [] => NotFound
    | ms => Found ms
    end.

End UI.

(** ** Observations on runs *)

(** The [processed] values handed to the progress callback, in order. *)
Definition processed_values (evs : list event) : list nat :=
  flat_map (fun e => match e with EvProgress processed _ => [processed] | _ => [] end)
           evs.


(** A traversal of the input starts with a read at offset 0. *)
Definition starts_traversal (e : event) : bool :=
  match e with
  | EvRead O _ => true
  | _ => false
  end.

Definition traversals (evs : list event) : nat :=
  length (filter starts_traversal evs).

(** Whether [calculateHash] gets as far as reading the input for an
    algorithm: the name is supported and the accumulator, or the HMAC key, is
    set up. *)
Definition starts_reading (P : Platform) (options : Options) (algorithm : string)
  : bool :=
  isAlgorithmSupported algorithm
  && (if prefix "hmac-" algorithm then
        match obj_get [("md5", "MD5"); ("sha1", "SHA-1"); ("sha256", "SHA-256")]
                      (substring_from 5 algorithm) with
        | Some cryptoAlgo =>
            match subtle_importKey P cryptoAlgo
                    (ascii_bytes match opt_hmacKey options with
                                 | Some k => k
                                 | None => ""
                                 end) with
            | None => true
            | Some _ => false
            end
        | None => false
        end
      else
        match createHashInstance P algorithm with
        | inr _ => true
        | inl _ => false
        end).

(** What [calculateMultipleHashes] stores in the slot of an algorithm whose
    [calculateHash] promise settled: the digest, or the failure marker. *)
Definition slot_of (out : outcome HashResult) : option string :=
  match out with
  | Resolved result => Some (hash result)
  | Rejected message => Some ("计算失败: " ++ message)
  | Pending => None
  end.

Definition store_slot (results : obj string) (algorithm : string)
    (out : outcome HashResult) : obj string :=
  match slot_of out with
  | Some slot => obj_set results algorithm slot
  | None => results
  end.

(** The names of the reports whose digest for the algorithm is exactly
    [hash], in the order of the reports *)
Definition members (algorithm hash : string) (calculationResults : list Report)
  : list string :=
  map filename
      (filter (fun result =>
                 String.eqb (FileHandler.digest_key algorithm result) hash)
              calculationResults).

(** The distinct elements of a list, in the order of their first occurrence *)
Definition first_seen (l : list string) : list string :=
  fold_left
    (fun seen x => if existsb (String.eqb x) seen then seen else (seen ++ [x])%list)
    l [].

(** ** Further observations *)

(** The characters of a digest string *)
Definition is_lower_hex (c : ascii) : bool :=
  existsb (Ascii.eqb c)
    ["0"; "1"; "2"; "3"; "4"; "5"; "6"; "7"; "8"; "9";
     "a"; "b"; "c"; "d"; "e"; "f"]%char.

Definition is_upper_hex (c : ascii) : bool :=
  existsb (Ascii.eqb c)
    ["0"; "1"; "2"; "3"; "4"; "5"; "6"; "7"; "8"; "9";
     "A"; "B"; "C"; "D"; "E"; "F"]%char.

Fixpoint string_forall (p : ascii -> bool) (s : string) : bool :=
  match s with
  | EmptyString => true
  | String c s' => p c && string_forall p s'
  end.

(** Strings of ASCII characters: on these a byte is a UTF-16 code unit and
    the case mappings of the language are the ones of the embedding. *)
Definition is_ascii_string (s : string) : bool :=
  string_forall (fun c => (nat_of_ascii c <? 128)%nat) s.

(** The bytes of a [Uint8Array] are below 256. *)
Definition is_bytes (a : Uint8Array) : Prop :=
  Forall (fun b => (0 <= b < 256)%Z) a.

(** The byte ranges a run reads, in order *)
Definition read_ranges (evs : list event) : list (nat * nat) :=
  flat_map (fun e => match e with EvRead offset len => [(offset, len)] | _ => [] end)
           evs.

(** Ranges that follow one another without gap or overlap from [from] to
    [to], each of at most [c] bytes and each but the last of exactly [c]. *)
Fixpoint chunked (c from to : nat) (ranges : list (nat * nat)) : Prop :=
  match ranges with
  | [] => from = to
  | (offset, len) :: ranges' =>
      offset = from /\ len <= c
      /\ match ranges' with [] => True | _ :: _ => len = c end
      /\ chunked c (from + len) to ranges'
  end.

(** The bytes a delegated accumulator holds ([null] holds none) *)
Definition held_bytes (buffer : option Uint8Array) : Uint8Array :=
  match buffer with
  | Some b => b
  | None => []
  end.




(** Every (file name, algorithm, digest) entry of a batch, report by report
    and, within a report, slot by slot *)
Definition entries (calculationResults : list Report) : list UI.match_ :=
  flat_map
    (fun result =>
       map (fun '(algorithm, hash) =>
              {| UI.m_filename := filename result; UI.m_algorithm := algorithm;
                 UI.m_hash := hash |})
           (hashValues result))
    calculationResults.

(** Two non-empty strings that are equal once both are put in lower case *)
Definition equal_ignoring_case (s1 s2 : string) : bool :=
  negb (String.eqb s1 "") && negb (String.eqb s2 "")
  && String.eqb (toLowerCase s1) (toLowerCase s2).

(** A batch whose slot names are plain property keys and whose digests are
    ASCII strings *)
Definition ascii_results (calculationResults : list Report) : Prop :=
  Forall
    (fun result =>
       Forall (fun slot => plain_key (fst slot) = true
                           /\ is_ascii_string (snd slot) = true)
              (hashValues result))
    calculationResults.

(** The [k] low bytes of [v], least significant first *)
Fixpoint le_bytes (k : nat) (v : Z) : list Z :=
  match k with
  | O => []
  | S k' => (v mod 256)%Z :: le_bytes k' (v / 256)%Z
  end.

(** The padding RFC 1321 appends to a message of [n] bytes: the byte 0x80,
    zero bytes up to 56 modulo 64, and the bit length of the message as eight
    little-endian bytes. *)
Definition rfc_padding (n : nat) : Uint8Array :=
  ((128%Z :: repeat 0%Z ((119 - n mod 64) mod 64))
   ++ le_bytes 8 (8 * Z.of_nat n))%list.

(** The four words of a chaining value as sixteen bytes, each word
    little-endian *)
Definition rfc_output (h : words) : Uint8Array :=
  let '(a, b, c, d) := h in
  (le_bytes 4 (a mod 2 ^ 32) ++ le_bytes 4 (b mod 2 ^ 32)
   ++ le_bytes 4 (c mod 2 ^ 32) ++ le_bytes 4 (d mod 2 ^ 32))%list%Z.

(** The markup [highlightDifferences] puts around a differing part; an empty
    part gets none. *)
Definition highlighted (rest : string) : string :=
  match rest with
  | EmptyString => EmptyString
  | _ => Utils.span_open ++ rest ++ Utils.span_close
  end.

(** Two remainders that differ from their first character on, or of which
    one is empty *)
Definition differ_at_once (rest1 rest2 : string) : Prop :=
  match rest1, rest2 with
  | String c1 _, String c2 _ => c1 <> c2
  | _, _ => True
  end.

(** ** The batch driver *)

(** The [options] object [startCalculation] hands to
    [calculateMultipleHashes]: a progress callback and nothing else. *)
Definition start_options : Options :=
  {| opt_chunkSize := None; opt_onProgress := true; opt_hmacKey := None |}.

(** The notification [startCalculation] shows before it returns *)
Inductive notice : Type :=
| SelectAlgorithm
| SelectFile
| Completed (files : nat)
| Failed (message : string).

(** The [for] loop of [startCalculation] over the selected files: the events,
    the reports pushed to [calculationResults] so far, and how the loop
    ends. *)
Fixpoint startCalculation_loop (P : Platform) (settings : Settings)
    (selectedAlgorithms : list string) (files : list File)
    (calculationResults : list Report)
  : list event * list Report * outcome unit :=
  match files with
  | [] => ([], calculationResults, Resolved tt)
  | file :: files' =>
      match calculateMultipleHashes P settings file selectedAlgorithms
                                    start_options with
      | (evs, Resolved result) =>
          let '(evs', results, out) :=
            startCalculation_loop P settings selectedAlgorithms files'
                                  (calculationResults ++ [result])%list in
          ((evs ++ evs')%list, results, out)
      | (evs, Rejected message) => (evs, calculationResults, Rejected message)
      | (evs, Pending) => (evs, calculationResults, Pending)
      end
  end.

(** What a call of [startCalculation] leaves behind: the events of its runs,
    the [calculationResults] of the handler, the notification shown ([None]:
    the call has not returned) and the comparison rendered. *)
Record started := {
  st_events : list event;
  st_calculationResults : list Report;
  st_notice : option notice;
  st_comparison : list (string * FileHandler.comparison)
}.

(** [startCalculation], from the selected algorithms, the selected files and
    the results of the previous call; the progress bar, the result cards and
    the button states are left out. *)
Definition startCalculation (P : Platform) (settings : Settings)
    (selectedAlgorithms : list string) (selectedFiles : list File)
    (calculationResults : list Report) : started :=
  if length selectedAlgorithms =? 0 then
    {| st_events := []; st_calculationResults := calculationResults;
       st_notice := Some SelectAlgorithm; st_comparison := [] |}
  else if length selectedFiles =? 0 then
    {| st_events := []; st_calculationResults := calculationResults;
       st_notice := Some SelectFile; st_comparison := [] |}
  else
    match startCalculation_loop P settings selectedAlgorithms selectedFiles [] with
    | (evs, results, Resolved _) =>
        {| st_events := evs; st_calculationResults := results;
           st_notice := Some (Completed (length selectedFiles));
           st_comparison :=
             if 1 <? length selectedFiles
             then FileHandler.compareMultipleFiles results
             else [] |}
    | (evs, results, Rejected message) =>
        {| st_events := evs; st_calculationResults := results;
           st_notice := Some (Failed message); st_comparison := [] |}
    | (evs, results, Pending) =>
        {| st_events := evs; st_calculationResults := results;
           st_notice := None; st_comparison := [] |}
    end.

(** The report [calculateMultipleHashes] builds from the outcomes of the
    computations of a file *)
Definition report_of (P : Platform) (settings : Settings)
    (algorithms : list string) (options : Options) (file : File) : Report :=
  {| filename := name file;
     rp_size := size file;
     hashValues :=
       fold_left
         (fun results algorithm =>
            store_slot results algorithm
              (snd (calculateHash P settings file algorithm (inner_options options))))
         algorithms [] |}.

(** ** Concrete inputs used by the examples *)

(** [DEFAULT_SETTINGS] of the settings manager *)
Definition DEFAULT_SETTINGS : Settings :=
  {| chunkSize := 512 * 1024; resultFormat := "lowercase" |}.

(** A platform whose Web Crypto primitives reject every request. *)
Definition broken_crypto : Platform :=
  {| isCryptoSupported := true;
     subtle_digest := fun _ _ => inl "OperationError";
     subtle_importKey := fun _ _ => Some "NotSupportedError";
     subtle_sign := fun _ _ _ => inl "OperationError" |}.

(** Little-endian value of a byte sequence *)
Fixpoint le_value (bs : list Z) : Z :=
  match bs with
  | [] => 0%Z
  | b :: bs' => (b + 256 * le_value bs')%Z
  end.

(** A ten-byte input read in chunks of four bytes *)
Definition ten_bytes : File :=
  {| name := "ten.bin"; bytes := [1; 2; 3; 4; 5; 6; 7; 8; 9; 10]%Z |}.

Definition chunk4_options : Options :=
  {| opt_chunkSize := Some 4; opt_onProgress := true; opt_hmacKey := None |}.

(** Two empty inputs, reported once in each letter case *)
Definition uppercase_settings : Settings :=
  {| chunkSize := 512 * 1024; resultFormat := "uppercase" |}.

Definition empty_a : File := {| name := "a.txt"; bytes := [] |}.
Definition empty_b : File := {| name := "b.txt"; bytes := [] |}.

Definition no_options : Options :=
  {| opt_chunkSize := None; opt_onProgress := false; opt_hmacKey := None |}.

Definition report_lower : Report :=
  {| filename := "a.txt"; rp_size := 0;
     hashValues := [("md5", "d41d8cd98f00b204e9800998ecf8427e")] |}.

Definition report_upper : Report :=
  {| filename := "b.txt"; rp_size := 0;
     hashValues := [("md5", "D41D8CD98F00B204E9800998ECF8427E")] |}.

(** [n] zero bytes *)
Definition zeros (n : Z) : Uint8Array := repeat 0%Z (Z.to_nat n).

(** The message and the key of the HMAC known vector *)
Definition fox_file : File :=
  {| name := "fox.txt";
     bytes := ascii_bytes "The quick brown fox jumps over the lazy dog" |}.

Definition key_options : Options :=
  {| opt_chunkSize := None; opt_onProgress := false; opt_hmacKey := Some "key" |}.

(** The keyed construction [H((K' xor opad) || H((K' xor ipad) || message))]
    of the design, taken over the MD5 engine above with its 64-byte block:
    the value an HMAC primitive that accepted MD5 would return. *)
Definition md5_bytes (data : Uint8Array) : Uint8Array :=
  fst (md5Final (md5Update md5Init data)).

Definition hmac_md5 (key message : Uint8Array) : Uint8Array :=
  let key' := if (64 <? length key)%nat then md5_bytes key else key in
  let key' := (key' ++ repeat 0%Z (64 - length key'))%list in
  let ipad := map (fun k => Z.lxor k 0x36) key' in
  let opad := map (fun k => Z.lxor k 0x5c) key' in
  md5_bytes (opad ++ md5_bytes (ipad ++ message))%list.

(** * Properties *)

(** ** The MD5 stream *)

Section Md5Stream.

Local Open Scope nat_scope.
Local Open Scope list_scope.

Lemma absorb_short h D : length D < 64 -> absorb h D = h.
Proof.
  intros H. unfold absorb. rewrite Nat.div_small by exact H. reflexivity.
Qed.

Lemma div64_step n : 64 <= n -> n / 64 = S ((n - 64) / 64).
Proof.
  intros H. replace n with ((n - 64) + 1 * 64) at 1 by lia.
  rewrite Nat.div_add by lia. lia.
Qed.

Lemma absorb_step h D :
  64 <= length D ->
  absorb h D = absorb (md5Transform h (firstn 64 D)) (skipn 64 D).
Proof.
  intros H. unfold absorb. rewrite length_skipn.
  rewrite (div64_step (length D)) by exact H. reflexivity.
Qed.

Lemma tail64_short D : length D < 64 -> tail64 D = D.
Proof.
  intros H. unfold tail64. rewrite Nat.div_small by exact H. reflexivity.
Qed.

Lemma tail64_step D : 64 <= length D -> tail64 D = tail64 (skipn 64 D).
Proof.
  intros H. unfold tail64. rewrite length_skipn.
  rewrite (div64_step (length D)) by exact H.
  rewrite skipn_skipn. f_equal. lia.
Qed.

Lemma length_tail64 D : length (tail64 D) = length D mod 64.
Proof.
  unfold tail64. rewrite length_skipn.
  pose proof (Nat.div_mod_eq (length D) 64). lia.
Qed.

Lemma absorb_tail64_app A : forall h B,
  absorb h (A ++ B) = absorb (absorb h A) (tail64 A ++ B)
  /\ tail64 (A ++ B) = tail64 (tail64 A ++ B).
Proof.
  remember (length A) as n eqn:Hn. revert A Hn.
  induction n as [n IH] using lt_wf_ind. intros A Hn h B.
  destruct (Nat.lt_ge_cases (length A) 64) as [Hlt | Hge].
  - rewrite (absorb_short h A), (tail64_short A) by exact Hlt. split; reflexivity.
  - assert (HAB : 64 <= length (A ++ B)) by (rewrite length_app; lia).
    rewrite (absorb_step h (A ++ B)) by exact HAB.
    rewrite (tail64_step (A ++ B)) by exact HAB.
    rewrite (absorb_step h A), (tail64_step A) by exact Hge.
    rewrite firstn_app, skipn_app.
    replace (64 - length A) with 0 by lia. simpl firstn. simpl skipn.
    rewrite app_nil_r.
    apply (IH (length (skipn 64 A))); [rewrite length_skipn; lia | reflexivity].
Qed.

Lemma loop_spec : forall fuel h D p,
  p <= length D -> (length D - p) / 64 <= fuel ->
  md5Update_loop fuel h D p
  = (absorb h (skipn p D), p + 64 * ((length D - p) / 64)).
Proof.
  induction fuel as [| fuel IH]; intros h D p Hp Hfuel.
  - assert (Hz : (length D - p) / 64 = 0) by lia.
    cbn [md5Update_loop]. rewrite Hz. unfold absorb.
    rewrite length_skipn, Hz. cbn [absorb_n]. f_equal. lia.
  - cbn [md5Update_loop]. destruct (Nat.leb_spec (p + 64) (length D)) as [Hle | Hgt].
    + assert (Hge : 64 <= length D - p) by lia.
      assert (Hd := div64_step (length D - p) Hge).
      replace (length D - p - 64) with (length D - (p + 64)) in Hd by lia.
      rewrite IH by lia.
      rewrite (absorb_step h (skipn p D)) by (rewrite length_skipn; lia).
      unfold subarray. rewrite skipn_skipn.
      replace (p + 64 - p) with 64 by lia.
      replace (64 + p) with (p + 64) by lia.
      f_equal. lia.
    + rewrite absorb_short by (rewrite length_skipn; lia).
      rewrite Nat.div_small by lia. f_equal. lia.
Qed.


Lemma div64_le n : n / 64 <= n.
Proof. apply Nat.Div0.div_le_upper_bound; lia. Qed.

Lemma bufferIndex_of_spec c :
  Z.of_nat (bufferIndex_of c) = ((c / 8) mod 64)%Z.
Proof.
  unfold bufferIndex_of, JS.and, JS.sar.
  change (JS.ToUint32 3 mod 32)%Z with 3%Z.
  change (JS.ToInt32 63) with (Z.ones 6).
  rewrite Z.land_ones by lia. rewrite Z.shiftr_div_pow2 by lia.
  rewrite Z2Nat.id by (apply Z.mod_pos_bound; lia).
  unfold JS.ToInt32. change (2 ^ 6)%Z with 64%Z. change (2 ^ 3)%Z with 8%Z.
  change (2 ^ 31)%Z with 2147483648%Z. change (2 ^ 32)%Z with 4294967296%Z.
  Z.to_euclidean_division_equations. lia.
Qed.

Lemma bufferIndex_of_lt c : bufferIndex_of c < 64.
Proof.
  pose proof (bufferIndex_of_spec c) as H.
  pose proof (Z.mod_pos_bound (c / 8) 64 ltac:(lia)). lia.
Qed.

Lemma shl3_spec n :
  (JS.shl n 3 mod 2 ^ 32 = (8 * n) mod 2 ^ 32)%Z.
Proof.
  unfold JS.shl. change (JS.ToUint32 3 mod 32)%Z with 3%Z.
  rewrite Z.shiftl_mul_pow2 by lia. unfold JS.ToInt32.
  change (2 ^ 3)%Z with 8%Z.
  change (2 ^ 31)%Z with 2147483648%Z. change (2 ^ 32)%Z with 4294967296%Z.
  Z.to_euclidean_division_equations. lia.
Qed.

Lemma shl3_small n :
  (0 <= n < 2 ^ 28)%Z -> JS.shl n 3 = (8 * n)%Z.
Proof.
  intros H. unfold JS.shl. change (JS.ToUint32 3 mod 32)%Z with 3%Z.
  rewrite Z.shiftl_mul_pow2 by lia. unfold JS.ToInt32.
  change (2 ^ 3)%Z with 8%Z. change (2 ^ 28)%Z with 268435456%Z in H.
  change (2 ^ 31)%Z with 2147483648%Z. change (2 ^ 32)%Z with 4294967296%Z.
  Z.to_euclidean_division_equations. lia.
Qed.

(** The last step of [md5Update]: the bytes after the last full block are
    copied to the front of the buffer. *)
Lemma leftover_spec (B X : Uint8Array) p :
  length B = 64 -> p <= length X -> length X - p < 64 ->
  let B' := if p <? length X then set B (subarray_from X p) 0 else B in
  length B' = 64 /\ firstn (length X - p) B' = skipn p X.
Proof.
  intros HB Hp Hlt. cbv zeta.
  destruct (Nat.ltb_spec p (length X)) as [H | H].
  - unfold set, subarray_from. cbn [firstn app Nat.add].
    split.
    + rewrite length_app, !length_skipn. lia.
    + rewrite firstn_app, length_skipn.
      replace (length X - p - (length X - p)) with 0 by lia.
      cbn [firstn]. rewrite app_nil_r.
      apply firstn_all2. rewrite length_skipn. lia.
  - split; [exact HB |].
    replace (length X - p) with 0 by lia.
    rewrite skipn_all2 by lia. reflexivity.
Qed.

Lemma md5Update_spec st X :
  length (buffer st) = 64 ->
  let P := firstn (bufferIndex_of (count st)) (buffer st) in
  state (md5Update st X) = absorb (state st) (P ++ X)
  /\ length (buffer (md5Update st X)) = 64
  /\ firstn (length (tail64 (P ++ X))) (buffer (md5Update st X)) = tail64 (P ++ X)
  /\ count (md5Update st X) = (count st + JS.shl (Z.of_nat (length X)) 3)%Z.
Proof.
  intros HB P.
  pose proof (bufferIndex_of_lt (count st)) as Hr.
  assert (HP : length P = bufferIndex_of (count st))
    by (unfold P; rewrite length_firstn; lia).
  unfold md5Update.
  set (r := bufferIndex_of (count st)) in *.
  destruct (Nat.ltb_spec 0 r) as [Hpos | Hzero].
  - set (needed := Nat.min (length X) (64 - r)).
    assert (Hsub : subarray X 0 needed = firstn needed X)
      by (unfold subarray; cbn [skipn]; f_equal; lia).
    rewrite Hsub.
    destruct (Nat.eqb_spec (r + needed) 64) as [Hfull | Hpart].
    + assert (Hn : needed = 64 - r) by lia.
      assert (HX : 64 - r <= length X) by lia.
      assert (Hb1 : set (buffer st) (firstn needed X) r = P ++ firstn needed X).
      { unfold set. fold P. rewrite length_firstn.
        rewrite (skipn_all2 (buffer st)) by lia. rewrite app_nil_r. reflexivity. }
      rewrite Hb1.
      rewrite loop_spec by (pose proof (div64_le (length X - needed)); lia).
      set (p' := needed + 64 * ((length X - needed) / 64)).
      assert (Hlen1 : length (P ++ firstn needed X) = 64)
        by (rewrite length_app, length_firstn; lia).
      assert (Hp' : p' <= length X /\ length X - p' < 64).
      { unfold p'. pose proof (Nat.div_mod_eq (length X - needed) 64).
        pose proof (Nat.mod_upper_bound (length X - needed) 64). lia. }
      destruct (leftover_spec (P ++ firstn needed X) X p' Hlen1
                  (proj1 Hp') (proj2 Hp')) as [HL1 HL2].
      assert (Hsplit : P ++ X = (P ++ firstn needed X) ++ skipn needed X)
        by (rewrite <- app_assoc, firstn_skipn; reflexivity).
      assert (Htail : tail64 (P ++ X) = skipn p' X).
      { rewrite Hsplit, tail64_step by (rewrite length_app; lia).
        rewrite skipn_app, Hlen1, Nat.sub_diag.
        rewrite (skipn_all2 (P ++ firstn needed X)) by lia.
        cbn [skipn app]. unfold tail64.
        rewrite length_skipn, skipn_skipn. f_equal. unfold p'. lia. }
      cbn [state buffer count].
      repeat split.
      * rewrite Hsplit, (absorb_step _ (_ ++ _)) by (rewrite length_app; lia).
        rewrite firstn_app, skipn_app, Hlen1, Nat.sub_diag.
        rewrite (skipn_all2 (P ++ firstn needed X)) by lia.
        rewrite (firstn_all2 (n := 64)) by lia.
        cbn [firstn skipn app]. rewrite app_nil_r. reflexivity.
      * exact HL1.
      * rewrite Htail, length_skipn. exact HL2.
    + assert (Hn : needed = length X) by lia.
      assert (HX : length X < 64 - r) by lia.
      rewrite Hn, firstn_all.
      rewrite loop_spec by (rewrite ?Nat.sub_diag; cbn; lia).
      rewrite Nat.sub_diag. change (0 / 64) with 0. rewrite Nat.mul_0_r, Nat.add_0_r.
      rewrite Nat.ltb_irrefl. rewrite skipn_all.
      cbn [state buffer count].
      assert (Hshort : length (P ++ X) < 64) by (rewrite length_app; lia).
      rewrite (tail64_short (P ++ X)) by exact Hshort.
      repeat split.
      * rewrite !absorb_short by (cbn; lia || exact Hshort). reflexivity.
      * unfold set. rewrite !length_app, length_firstn, length_skipn. lia.
      * unfold set. fold P. rewrite app_assoc.
        rewrite firstn_app, Nat.sub_diag. cbn [firstn].
        rewrite app_nil_r. apply firstn_all.
  - assert (Hr0 : r = 0) by lia.
    assert (HP0 : P = []) by (destruct P; [reflexivity | cbn in HP; lia]).
    rewrite HP0. cbn [app].
    rewrite loop_spec by (pose proof (div64_le (length X - 0)); lia).
    cbn [skipn Nat.add]. rewrite Nat.sub_0_r.
    set (p' := 64 * (length X / 64)).
    assert (Hp' : p' <= length X /\ length X - p' < 64).
    { unfold p'. pose proof (Nat.div_mod_eq (length X) 64).
      pose proof (Nat.mod_upper_bound (length X) 64). lia. }
    destruct (leftover_spec (buffer st) X p' HB (proj1 Hp') (proj2 Hp'))
      as [HL1 HL2].
    cbn [state buffer count].
    repeat split.
    + exact HL1.
    + unfold tail64 at 1. fold p'. rewrite length_skipn. exact HL2.
Qed.


Lemma length_lengthBytes_of c : length (lengthBytes_of c) = 8.
Proof. reflexivity. Qed.

Lemma firstn_app_exact {A} (l1 l2 : list A) n :
  length l1 = n -> firstn n (l1 ++ l2) = l1.
Proof.
  intros <-. rewrite firstn_app, Nat.sub_diag, firstn_all. cbn [firstn].
  apply app_nil_r.
Qed.

Lemma skipn_app_exact {A} (l1 l2 : list A) n :
  length l1 = n -> skipn n (l1 ++ l2) = l2.
Proof.
  intros <-. rewrite skipn_app, Nat.sub_diag, skipn_all. reflexivity.
Qed.

(** Closed form of the padding: it reads the accumulator's words, its counter
    and the pending bytes of its buffer, nothing else. *)
Lemma md5Final_pad_spec st :
  length (buffer st) = 64 ->
  let r := bufferIndex_of (count st) in
  let P := firstn r (buffer st) in
  md5Final_pad st =
  if r <? 56
  then (state st, (P ++ 128%Z :: repeat 0%Z (55 - r)) ++ lengthBytes_of (count st))
  else (md5Transform (state st) (P ++ 128%Z :: repeat 0%Z (63 - r)),
        repeat 0%Z 56 ++ lengthBytes_of (count st)).
Proof.
  intros HB r P.
  pose proof (bufferIndex_of_lt (count st)) as Hr. fold r in Hr.
  assert (HP : length P = r) by (unfold P; rewrite length_firstn; lia).
  unfold md5Final_pad. fold r.
  assert (Hst : store8 (buffer st) r 128 = (P ++ [128%Z]) ++ skipn (S r) (buffer st)).
  { unfold store8. fold P. rewrite <- app_assoc. reflexivity. }
  rewrite Hst.
  assert (HPv : length (P ++ [128%Z]) = S r) by (rewrite length_app; cbn; lia).
  set (S1 := skipn (S r) (buffer st)).
  assert (HS1 : length S1 = 63 - r) by (unfold S1; rewrite length_skipn; lia).
  destruct (Nat.ltb_spec r 56) as [Hlt | Hge].
  - replace (56 <? S r) with false by (symmetry; apply Nat.ltb_ge; lia).
    unfold zero_fill. rewrite (firstn_app_exact _ _ (S r) HPv).
    replace (Nat.max (S r) 56) with ((55 - r) + S r) by lia.
    rewrite <- skipn_skipn, (skipn_app_exact _ _ (S r) HPv).
    replace (56 - S r) with (55 - r) by lia.
    unfold set. rewrite length_lengthBytes_of.
    rewrite (app_assoc (P ++ [128%Z]) (repeat 0%Z (55 - r))).
    assert (H56 : length ((P ++ [128%Z]) ++ repeat 0%Z (55 - r)) = 56)
      by (rewrite length_app, repeat_length; lia).
    rewrite (firstn_app_exact _ _ 56 H56).
    rewrite skipn_all2
      by (rewrite length_app, length_skipn; lia).
    rewrite app_nil_r. f_equal. f_equal. rewrite <- app_assoc. reflexivity.
  - replace (56 <? S r) with true by (symmetry; apply Nat.ltb_lt; lia).
    assert (HB2 : zero_fill ((P ++ [128%Z]) ++ S1) (S r) 64
                  = P ++ 128%Z :: repeat 0%Z (63 - r)).
    { unfold zero_fill. rewrite (firstn_app_exact _ _ (S r) HPv).
      replace (Nat.max (S r) 64) with 64 by lia.
      rewrite (skipn_all2 (n := 64)) by (rewrite length_app; lia).
      rewrite app_nil_r. replace (64 - S r) with (63 - r) by lia.
      rewrite <- app_assoc. reflexivity. }
    rewrite HB2.
    set (B2 := P ++ 128%Z :: repeat 0%Z (63 - r)).
    assert (HlB2 : length B2 = 64)
      by (unfold B2; rewrite length_app; cbn [length]; rewrite repeat_length; lia).
    unfold zero_fill. cbn [firstn app Nat.sub Nat.max].
    unfold set. rewrite length_lengthBytes_of.
    rewrite (firstn_app_exact _ _ 56) by apply repeat_length.
    rewrite skipn_all2
      by (rewrite length_app, repeat_length, length_skipn; lia).
    rewrite app_nil_r. reflexivity.
Qed.

Lemma md5_inv_index st D :
  md5_inv st D -> bufferIndex_of (count st) = length D mod 64.
Proof.
  intros (_ & _ & _ & Hc).
  apply Nat2Z.inj. rewrite bufferIndex_of_spec.
  rewrite Nat2Z.inj_mod. cbn [Z.of_nat Pos.of_succ_nat Pos.succ] in *.
  change (Z.of_nat 64) with 64%Z.
  Z.to_euclidean_division_equations. lia.
Qed.

Lemma md5_inv_init : md5_inv md5Init [].
Proof. repeat split. Qed.

Lemma md5_inv_update st D X :
  md5_inv st D -> md5_inv (md5Update st X) (D ++ X).
Proof.
  intros Hinv. pose proof (md5_inv_index st D Hinv) as Hidx.
  destruct Hinv as (Hs & HB & Ht & Hc).
  destruct (md5Update_spec st X HB) as (Us & UB & Ut & Uc).
  rewrite Hidx, Ht in Us, Ut.
  destruct (absorb_tail64_app D (state md5Init) X) as [Ha Htl].
  repeat split.
  - rewrite Us, Hs. symmetry. exact Ha.
  - exact UB.
  - rewrite <- length_tail64, Htl. exact Ut.
  - rewrite Uc, length_app, Nat2Z.inj_add.
    pose proof (shl3_spec (Z.of_nat (length X))) as Hshl.
    change (2 ^ 32)%Z with 4294967296%Z in Hshl.
    Z.to_euclidean_division_equations. lia.
Qed.

Lemma md5_inv_fold chunks : forall st D,
  md5_inv st D -> md5_inv (fold_left md5Update chunks st) (D ++ concat chunks).
Proof.
  induction chunks as [| X chunks IH]; intros st D Hinv; cbn [fold_left concat].
  - rewrite app_nil_r. exact Hinv.
  - rewrite app_assoc. apply IH, md5_inv_update, Hinv.
Qed.


Lemma md5Update_count st X :
  count (md5Update st X) = (count st + JS.shl (Z.of_nat (length X)) 3)%Z.
Proof.
  unfold md5Update.
  destruct (if 0 <? bufferIndex_of (count st) then _ else _) as [[h b] p].
  destruct (md5Update_loop (length X) h X p) as [h' p']. reflexivity.
Qed.

Lemma md5_count_fold chunks : forall st,
  Forall small_chunk chunks ->
  count (fold_left md5Update chunks st)
  = (count st + 8 * Z.of_nat (length (concat chunks)))%Z.
Proof.
  induction chunks as [| X chunks IH]; intros st HF; cbn [fold_left concat].
  - cbn [length Z.of_nat]. lia.
  - inversion HF as [| ? ? HX HF']; subst.
    rewrite IH by exact HF'. rewrite md5Update_count.
    rewrite shl3_small by (unfold small_chunk in HX; lia).
    rewrite length_app, Nat2Z.inj_add. lia.
Qed.

Lemma md5Final_determined st1 st2 D :
  md5_inv st1 D -> md5_inv st2 D -> count st1 = count st2 ->
  fst (md5Final st1) = fst (md5Final st2).
Proof.
  intros H1 H2 Hc.
  pose proof (md5_inv_index _ _ H1) as I1.
  pose proof (md5_inv_index _ _ H2) as I2.
  destruct H1 as (S1 & B1 & T1 & _), H2 as (S2 & B2 & T2 & _).
  unfold md5Final.
  rewrite (md5Final_pad_spec st1 B1), (md5Final_pad_spec st2 B2).
  rewrite I1, I2, T1, T2, S1, S2, Hc. reflexivity.
Qed.


(** Chunk boundaries do not matter as long as no single chunk reaches 2^28
    bytes. *)
Lemma md5_chunk_invariance (chunks1 chunks2 : list Uint8Array) :
  concat chunks1 = concat chunks2 ->
  Forall small_chunk chunks1 -> Forall small_chunk chunks2 ->
  md5_digest chunks1 = md5_digest chunks2.
Proof.
  intros Hcat H1 H2. unfold md5_digest.
  apply (md5Final_determined _ _ (concat chunks1)).
  - apply (md5_inv_fold chunks1 md5Init []), md5_inv_init.
  - rewrite Hcat. apply (md5_inv_fold chunks2 md5Init []), md5_inv_init.
  - rewrite !md5_count_fold by assumption. rewrite Hcat. reflexivity.
Qed.

Lemma md5_chunk_invariance_witness :
  md5_digest [[1; 2]; [3]]%Z = md5_digest [[1]; [2; 3]]%Z.
Proof.
  apply md5_chunk_invariance;
    [reflexivity | repeat constructor | repeat constructor].
Defined.

End Md5Stream.

(** ** Known vectors *)

(** C1. With the lowercase result format, a fresh MD5 accumulator fed the
    empty byte sequence finalizes to d41d8cd98f00b204e9800998ecf8427e, and
    fed the three bytes of "abc" to 900150983cd24fb0d6963f7d28e17f72. *)
Theorem md5_known_vectors :
  bufferToHex (fst (md5Final (md5Update md5Init []))) "lowercase"
  = "d41d8cd98f00b204e9800998ecf8427e"
  /\ bufferToHex (fst (md5Final (md5Update md5Init (ascii_bytes "abc")))) "lowercase"
     = "900150983cd24fb0d6963f7d28e17f72".
Proof. split; vm_compute; reflexivity. Qed.

(** ** The bit counter *)

Section Md5Counter.

Local Open Scope list_scope.

Lemma length_zeros n : (0 <= n)%Z -> Z.of_nat (length (zeros n)) = n.
Proof. intros H. unfold zeros. rewrite repeat_length. apply Z2Nat.id, H. Qed.

Lemma concat_repeat_zeros (k : nat) (c : Z) :
  (0 <= c)%Z ->
  concat (repeat (zeros c) k) = zeros (Z.of_nat k * c).
Proof.
  intros Hc. induction k as [| k IH].
  - reflexivity.
  - cbn [repeat concat]. rewrite IH. unfold zeros.
    rewrite <- repeat_app. f_equal.
    rewrite <- Z2Nat.inj_add by lia. f_equal. lia.
Qed.

(** [md5Final] writes the counter it holds, little-endian, into the last eight
    bytes of the final block. *)
Lemma lengthBytes_of_le c :
  (0 <= c < 2 ^ 64)%Z -> le_value (lengthBytes_of c) = c.
Proof.
  intros Hc. unfold lengthBytes_of, setUint32_le, set. cbn [repeat firstn skipn app length Nat.add].
  unfold JS.and. change (JS.ToInt32 4294967295) with (-1)%Z.
  rewrite !Z.land_m1_r. rewrite Z.quot_div_nonneg by lia.
  unfold JS.ToUint32, JS.ToInt32. cbn [le_value].
  change (2 ^ 64)%Z with 18446744073709551616%Z in Hc.
  change (2 ^ 31)%Z with 2147483648%Z. change (2 ^ 32)%Z with 4294967296%Z.
  change (2 ^ 8)%Z with 256%Z. change (2 ^ 16)%Z with 65536%Z.
  change (2 ^ 24)%Z with 16777216%Z.
  Z.to_euclidean_division_equations. lia.
Qed.

Lemma md5Final_pad_length_bytes st :
  length (buffer st) = 64 ->
  skipn 56 (snd (md5Final_pad st)) = lengthBytes_of (count st).
Proof.
  intros HB. rewrite md5Final_pad_spec by exact HB.
  pose proof (bufferIndex_of_lt (count st)) as Hr.
  set (r := bufferIndex_of (count st)) in *.
  destruct (Nat.ltb_spec r 56) as [Hlt | Hge]; cbn [snd].
  - apply skipn_app_exact.
    rewrite length_app, length_firstn. cbn [length]. rewrite repeat_length. lia.
  - apply skipn_app_exact, repeat_length.
Qed.

(** When every chunk is shorter than 2^28 bytes the counter is eight times
    the number of bytes fed, and [md5Final] encodes it in the padding. *)
Lemma md5_count_exact chunks :
  Forall small_chunk chunks ->
  let st := fold_left md5Update chunks md5Init in
  let n := Z.of_nat (length (concat chunks)) in
  count st = (8 * n)%Z
  /\ ((8 * n < 2 ^ 64)%Z ->
      le_value (skipn 56 (snd (md5Final_pad st))) = (8 * n)%Z).
Proof.
  intros HF st n.
  assert (Hc : count st = (8 * n)%Z)
    by (unfold st; rewrite md5_count_fold by exact HF; reflexivity).
  split; [exact Hc |]. intros Hn.
  pose proof (md5_inv_fold chunks md5Init [] md5_inv_init) as (_ & HB & _).
  fold st in HB.
  rewrite md5Final_pad_length_bytes by exact HB.
  rewrite Hc. apply lengthBytes_of_le. unfold n. lia.
Qed.

Lemma shl3_256MiB : JS.shl 268435456 3 = (-2147483648)%Z.
Proof. vm_compute. reflexivity. Qed.

Lemma shl3_512MiB : JS.shl 536870912 3 = 0%Z.
Proof. vm_compute. reflexivity. Qed.

End Md5Counter.

(** C9. A single [md5Update] call with 2^28 bytes (256 MiB) on a fresh
    accumulator leaves the bit counter at -2^31, not at 8 * 2^28 = 2^31:
    [data.length << 3] is evaluated in 32-bit signed arithmetic. *)
Theorem md5Update_count_wraps :
  let data := zeros 268435456 in
  Z.of_nat (length data) = 268435456%Z
  /\ count (md5Update md5Init data) = (-2147483648)%Z.
Proof.
  intros data.
  assert (Hlen : Z.of_nat (length data) = 268435456%Z)
    by (apply length_zeros; discriminate).
  split; [exact Hlen |].
  rewrite md5Update_count, Hlen, shl3_256MiB. reflexivity.
Qed.

(** ** Chunk boundaries *)

Section Md5Chunks.

Local Open Scope list_scope.

(** An accumulator whose pending buffer is empty pads with the marker byte,
    55 zero bytes and the eight bytes of its counter. *)
Lemma md5Final_pad_aligned st D :
  md5_inv st D -> bufferIndex_of (count st) = 0 ->
  md5Final_pad st
  = (absorb (state md5Init) D,
     (128%Z :: repeat 0%Z 55) ++ lengthBytes_of (count st)).
Proof.
  intros (HS & HB & _ & _) Hi.
  rewrite md5Final_pad_spec by exact HB. rewrite Hi, HS. reflexivity.
Qed.

Lemma small_chunk_zeros c : (0 <= c < 2 ^ 28)%Z -> small_chunk (zeros c).
Proof. intros H. unfold small_chunk. rewrite length_zeros; lia. Qed.

Lemma md5_inv_one_shot X : md5_inv (md5Update md5Init X) X.
Proof. exact (md5_inv_update md5Init [] X md5_inv_init). Qed.

Lemma md5_inv_chunks chunks :
  md5_inv (fold_left md5Update chunks md5Init) (concat chunks).
Proof. exact (md5_inv_fold chunks md5Init [] md5_inv_init). Qed.

(** One call with 2^29 bytes against the same bytes in small chunks. *)
Lemma one_shot_vs_chunks (data : Uint8Array) (chunks : list Uint8Array) :
  concat chunks = data -> Forall small_chunk chunks ->
  Z.of_nat (length data) = 536870912%Z ->
  let one := md5Update md5Init data in
  let many := fold_left md5Update chunks md5Init in
  fst (md5Final_pad one) = fst (md5Final_pad many)
  /\ snd (md5Final_pad one)
     = ((128 :: repeat 0 55) ++ [0; 0; 0; 0; 0; 0; 0; 0])%Z
  /\ snd (md5Final_pad many)
     = ((128 :: repeat 0 55) ++ [0; 0; 0; 0; 1; 0; 0; 0])%Z.
Proof.
  intros Hcat Hsmall Hlen one many.
  pose proof (md5_inv_one_shot data) as Hone. fold one in Hone.
  pose proof (md5_inv_chunks chunks) as Hmany. fold many in Hmany.
  rewrite Hcat in Hmany.
  assert (Cone : count one = 0%Z).
  { unfold one. rewrite md5Update_count, Hlen, shl3_512MiB. reflexivity. }
  assert (Cmany : count many = 4294967296%Z).
  { unfold many. rewrite md5_count_fold by exact Hsmall.
    rewrite Hcat, Hlen. reflexivity. }
  rewrite (md5Final_pad_aligned one data Hone) by (rewrite Cone; reflexivity).
  rewrite (md5Final_pad_aligned many data Hmany) by (rewrite Cmany; reflexivity).
  rewrite Cone, Cmany. repeat split.
Qed.

End Md5Chunks.

(** C2. 2^29 zero bytes (512 MiB) fed to a fresh accumulator by one
    [md5Update] call, and the same bytes fed in 8192 chunks of 65536 bytes:
    both accumulators reach the same chaining value, but the one-call
    accumulator holds the counter 0 and pads its final block with the bit
    length 0, while the chunked one pads with the bit length 2^32.  The two
    digests are [md5Transform] of one chaining value over two different final
    blocks. *)
Theorem md5Update_one_shot_512MiB :
  let data := zeros 536870912 in
  let chunks := repeat (zeros 65536) (Z.to_nat 8192) in
  let one := md5Update md5Init data in
  let many := fold_left md5Update chunks md5Init in
  concat chunks = data
  /\ Forall (fun chunk => Z.of_nat (length chunk) = 65536%Z) chunks
  /\ fst (md5Final_pad one) = fst (md5Final_pad many)
  /\ snd (md5Final_pad one)
     = ((128 :: repeat 0 55) ++ [0; 0; 0; 0; 0; 0; 0; 0])%list%Z
  /\ snd (md5Final_pad many)
     = ((128 :: repeat 0 55) ++ [0; 0; 0; 0; 1; 0; 0; 0])%list%Z.
Proof.
  assert (Hcat : concat (repeat (zeros 65536) (Z.to_nat 8192)) = zeros 536870912).
  { rewrite concat_repeat_zeros by discriminate.
    rewrite Z2Nat.id by discriminate. reflexivity. }
  assert (Hsmall : Forall small_chunk (repeat (zeros 65536) (Z.to_nat 8192))).
  { apply Forall_forall. intros x Hx. apply repeat_spec in Hx. subst x.
    apply small_chunk_zeros. split; [discriminate | reflexivity]. }
  split; [exact Hcat |]. split.
  - apply Forall_forall. intros x Hx. apply repeat_spec in Hx. subst x.
    apply length_zeros. discriminate.
  - apply (one_shot_vs_chunks _ _ Hcat Hsmall).
    apply length_zeros. discriminate.
Qed.

(** ** HMAC *)

(** C6. [calculateHash] hands the hash name MD5 to the platform's
    [importKey]; on a platform whose Web Crypto does not know MD5 (the reason
    [createHashInstance] gives for its own JavaScript MD5) the hmac-md5
    computation over the known vector's message rejects before the input is
    read, and yields no digest. *)
Theorem calculateHash_hmac_md5_rejected (P : Platform) (settings : Settings)
    (message : string) :
  subtle_importKey P "MD5" (ascii_bytes "key") = Some message ->
  calculateHash P settings fox_file "hmac-md5" key_options
  = ([], Rejected message).
Proof.
  intros H. unfold calculateHash.
  change (isAlgorithmSupported "hmac-md5") with true.
  change (prefix "hmac-" "hmac-md5") with true.
  change (substring_from 5 "hmac-md5") with "md5".
  cbn [negb]. unfold calculateHMAC.
  change (obj_get _ "md5") with (Some "MD5").
  cbn [opt_hmacKey key_options]. rewrite H. reflexivity.
Qed.

Lemma calculateHash_hmac_md5_rejected_witness :
  calculateHash broken_crypto DEFAULT_SETTINGS fox_file "hmac-md5" key_options
  = ([], Rejected "NotSupportedError").
Proof.
  apply (calculateHash_hmac_md5_rejected broken_crypto DEFAULT_SETTINGS).
  reflexivity.
Defined.

(** The digest the known vector names is the keyed construction over the MD5
    engine of the program. *)
Lemma hmac_md5_known_vector :
  bufferToHex (hmac_md5 (ascii_bytes "key") (bytes fox_file)) "lowercase"
  = "80070713463e7749b90c2dc24911e275".
Proof. vm_compute. reflexivity. Qed.

(** ** Finalizing twice *)

(** C4 as stated fails: after a first [finalizeHash] on the MD5 accumulator
    of the empty input, a second [finalizeHash] on the same accumulator throws
    nothing and returns sixteen bytes again. *)
Lemma finalizeHash_twice_returns_digest :
  let acc := updateHash (JsHash "MD5" md5Init) [] in
  let first := finalizeHash broken_crypto acc in
  let second := finalizeHash broken_crypto (snd first) in
  (exists d1, fst first = inr d1
              /\ bufferToHex d1 "lowercase" = "d41d8cd98f00b204e9800998ecf8427e")
  /\ (exists d2, fst second = inr d2 /\ length d2 = 16)
  /\ ~ (exists message, fst second = inl message).
Proof.
  vm_compute. repeat split.
  - eexists. split; reflexivity.
  - eexists. split; reflexivity.
  - intros [message H]. discriminate H.
Qed.

(** C4, amended. [finalizeHash] keeps no record of having run: whenever a
    call returns a digest, a second call on the accumulator it leaves behind
    returns a digest too; for a delegated accumulator it is the same digest. *)
Theorem finalizeHash_twice (P : Platform) (hashObj hashObj1 : HashObj)
    (d1 : Uint8Array) :
  finalizeHash P hashObj = (inr d1, hashObj1) ->
  exists d2 hashObj2,
    finalizeHash P hashObj1 = (inr d2, hashObj2)
    /\ (forall algorithm buffer, hashObj = CryptoHash algorithm buffer -> d2 = d1).
Proof.
  intros H. destruct hashObj as [algorithm buffer | algorithm st]; cbn in H.
  - inversion H as [[Hd Hobj]]. subst hashObj1. cbn.
    exists d1, (CryptoHash algorithm buffer). rewrite Hd. split; [reflexivity |].
    intros; reflexivity.
  - destruct (String.eqb algorithm "MD5") eqn:Halg.
    + destruct (md5Final st) as [hashBytes st'] eqn:Hfin.
      inversion H; subst. cbn. rewrite Halg.
      destruct (md5Final st') as [hashBytes' st''].
      exists hashBytes', (JsHash algorithm st''). split; [reflexivity |].
      intros ? ? Heq. discriminate Heq.
    + inversion H.
Qed.

Lemma finalizeHash_twice_witness :
  exists d2 hashObj2,
    finalizeHash broken_crypto
      (snd (finalizeHash broken_crypto (JsHash "MD5" md5Init)))
    = (inr d2, hashObj2).
Proof.
  eassert (E : finalizeHash broken_crypto (JsHash "MD5" md5Init) = (inr _, _))
    by (vm_compute; reflexivity).
  destruct (finalizeHash_twice _ _ _ _ E) as (d2 & hashObj2 & H & _).
  exists d2, hashObj2. rewrite E. exact H.
Defined.

(** ** Matching a candidate digest *)

(** C10. [compareHashes] is false as soon as one argument is the empty
    string, two empty strings included; so an empty candidate matches no
    stored digest, and [compareHash] never shows a match for it. *)
Theorem compareHashes_empty :
  (forall hash, Utils.compareHashes "" hash = false
                /\ Utils.compareHashes hash "" = false)
  /\ Utils.compareHashes "" "" = false
  /\ (forall calculationResults, UI.matches "" calculationResults = [])
  /\ (forall calculationResults,
        UI.compareHash "" calculationResults = UI.WarnNoInput).
Proof.
  assert (H : forall hash, Utils.compareHashes "" hash = false
                           /\ Utils.compareHashes hash "" = false).
  { intros hash. unfold Utils.compareHashes. split.
    - reflexivity.
    - rewrite orb_true_r. reflexivity. }
  split; [exact H |]. split; [reflexivity |]. split; [| reflexivity].
  intros results. unfold UI.matches.
  induction results as [| r results IH]; [reflexivity |].
  cbn [flat_map]. rewrite IH, app_nil_r.
  induction (hashValues r) as [| [algorithm hash] o IHo]; [reflexivity |].
  cbn [flat_map]. rewrite IHo. reflexivity.
Qed.

(** ** Progress *)

Section Progress.

Local Open Scope list_scope.

Variable P : Platform.
Variable settings : Settings.

Lemma length_slice file offset c :
  length (slice file offset (offset + c)) = Nat.min c (size file - offset).
Proof.
  unfold slice, size. rewrite length_firstn, length_skipn. f_equal. lia.
Qed.

Lemma processed_values_app evs1 evs2 :
  processed_values (evs1 ++ evs2) = processed_values evs1 ++ processed_values evs2.
Proof. apply flat_map_app. Qed.














End Progress.

(** ** The MD5 digest of [calculateHash] does not depend on the chunk size *)

Section Md5ChunkSize.

Local Open Scope list_scope.

Variable P : Platform.
Variable settings : Settings.

Lemma firstn_skipn_length {A} c (L : list A) :
  firstn c L ++ skipn (length (firstn c L)) L = L.
Proof.
  rewrite length_firstn. destruct (Nat.le_gt_cases c (length L)) as [Hle | Hgt].
  - rewrite Nat.min_l by exact Hle. apply firstn_skipn.
  - rewrite Nat.min_r by lia. rewrite skipn_all, app_nil_r.
    apply firstn_all2. lia.
Qed.

Lemma slice_skipn file offset c :
  skipn offset (bytes file)
  = slice file offset (offset + c)
    ++ skipn (offset + length (slice file offset (offset + c))) (bytes file).
Proof.
  unfold slice. replace (offset + c - offset) with c by lia.
  rewrite Nat.add_comm, <- skipn_skipn. symmetry. apply firstn_skipn_length.
Qed.

(** The chunk loop on the MD5 accumulator: it resolves with the digest of the
    accumulator fed the rest of the input in chunks of at most [c] bytes. *)
Lemma processChunk_md5 file c onProgress : forall fuel st processed offset,
  0 < c -> (Z.of_nat c < 2 ^ 28)%Z ->
  offset < size file -> size file - offset <= fuel ->
  exists chunks,
    concat chunks = skipn offset (bytes file)
    /\ Forall small_chunk chunks
    /\ snd (processChunk P settings fuel file "md5" c onProgress
               (JsHash "MD5" st) processed offset)
       = Resolved {| hr_algorithm := "md5";
                     hash := bufferToHex
                               (fst (md5Final (fold_left md5Update chunks st)))
                               (resultFormat settings) |}.
Proof.
  induction fuel as [| fuel IH]; intros st processed offset Hc Hsmall Hlt Hfuel;
    [lia |].
  cbn [processChunk].
  pose proof (length_slice file offset c) as Hlen.
  pose proof (slice_skipn file offset c) as Hsplit.
  set (chunk := slice file offset (offset + c)) in *.
  assert (Hchunk : small_chunk chunk) by (unfold small_chunk; lia).
  change (updateHash (JsHash "MD5" st) chunk)
    with (JsHash "MD5" (md5Update st chunk)).
  destruct (Nat.ltb_spec (offset + length chunk) (size file)) as [Hmore | Hdone].
  - destruct (IH (md5Update st chunk) (processed + length chunk)
                (offset + length chunk) Hc Hsmall Hmore ltac:(lia))
      as (chunks & Hcat & Hall & Hrun).
    destruct (processChunk P settings fuel file "md5" c onProgress
                (JsHash "MD5" (md5Update st chunk)) (processed + length chunk)
                (offset + length chunk)) as [evs' out'].
    cbn [snd] in *. exists (chunk :: chunks). cbn [concat fold_left].
    rewrite Hcat, <- Hsplit. repeat split; [constructor; assumption | exact Hrun].
  - exists [chunk]. cbn [concat fold_left]. rewrite app_nil_r.
    assert (Hrest : skipn (offset + length chunk) (bytes file) = [])
      by (apply skipn_all2; unfold size in *; lia).
    rewrite Hrest, app_nil_r in Hsplit.
    repeat split; [symmetry; exact Hsplit | constructor; [exact Hchunk | constructor] |].
    unfold finalizeHash. change (String.eqb "MD5" "MD5") with true. cbv iota.
    destruct (md5Final (md5Update st chunk)) as [hashBytes st']. reflexivity.
Qed.

Lemma calculateHash_md5 file options :
  0 < option_chunkSize settings options ->
  (Z.of_nat (option_chunkSize settings options) < 2 ^ 28)%Z ->
  exists chunks,
    concat chunks = bytes file
    /\ Forall small_chunk chunks
    /\ snd (calculateHash P settings file "md5" options)
       = Resolved {| hr_algorithm := "md5";
                     hash := bufferToHex (md5_digest chunks) (resultFormat settings) |}.
Proof.
  intros Hc Hsmall. unfold calculateHash.
  set (c := option_chunkSize settings options) in *.
  change (isAlgorithmSupported "md5") with true.
  change (prefix "hmac-" "md5") with false. cbn [negb].
  assert (Hinst : createHashInstance P "md5" = inr (JsHash "MD5" md5Init))
    by (unfold createHashInstance; destruct (isCryptoSupported P); reflexivity).
  rewrite Hinst.
  destruct (Nat.leb_spec (size file) c) as [Hle | Hgt].
  - exists [bytes file]. cbn [concat]. rewrite app_nil_r.
    repeat split; [constructor; [unfold small_chunk, size in *; lia | constructor] |].
    change (updateHash (JsHash "MD5" md5Init) (bytes file))
      with (JsHash "MD5" (md5Update md5Init (bytes file))).
    unfold finalizeHash. change (String.eqb "MD5" "MD5") with true. cbv iota.
    unfold md5_digest. cbn [fold_left].
    destruct (md5Final (md5Update md5Init (bytes file))) as [hashBytes st'].
    reflexivity.
  - destruct (processChunk_md5 file c (opt_onProgress options) (size file)
                md5Init 0 0 Hc Hsmall ltac:(lia) ltac:(lia))
      as (chunks & Hcat & Hall & Hrun).
    exists chunks. repeat split; assumption.
Qed.

(** Two chunk sizes below 2^28 bytes give the same MD5 digest string. *)
Lemma calculateHash_md5_chunk_size file (c1 c2 : nat) onProgress1 onProgress2 key1 key2 :
  0 < c1 -> 0 < c2 -> (Z.of_nat c1 < 2 ^ 28)%Z -> (Z.of_nat c2 < 2 ^ 28)%Z ->
  snd (calculateHash P settings file "md5"
         {| opt_chunkSize := Some c1; opt_onProgress := onProgress1;
            opt_hmacKey := key1 |})
  = snd (calculateHash P settings file "md5"
           {| opt_chunkSize := Some c2; opt_onProgress := onProgress2;
              opt_hmacKey := key2 |}).
Proof.
  intros H1 H2 S1 S2.
  destruct (calculateHash_md5 file
              {| opt_chunkSize := Some c1; opt_onProgress := onProgress1;
                 opt_hmacKey := key1 |} H1 S1) as (chunks1 & C1 & F1 & R1).
  destruct (calculateHash_md5 file
              {| opt_chunkSize := Some c2; opt_onProgress := onProgress2;
                 opt_hmacKey := key2 |} H2 S2) as (chunks2 & C2 & F2 & R2).
  rewrite R1, R2.
  rewrite (md5_chunk_invariance chunks1 chunks2) by (congruence || assumption).
  reflexivity.
Qed.

End Md5ChunkSize.

(** ** One traversal per algorithm *)

Section Orchestrator.

Local Open Scope list_scope.

Variable P : Platform.
Variable settings : Settings.

Lemma traversals_app evs1 evs2 :
  traversals (evs1 ++ evs2) = traversals evs1 + traversals evs2.
Proof. unfold traversals. rewrite filter_app, length_app. reflexivity. Qed.

Lemma traversals_progress onProgress processed total :
  traversals (progress onProgress processed total) = 0.
Proof. destruct onProgress; reflexivity. Qed.

Lemma traversals_forward_progress algorithm algorithms options evs :
  traversals (forward_progress algorithm algorithms options evs) = traversals evs.
Proof.
  unfold forward_progress, traversals.
  set (forwards := match algorithms with
                   | first :: _ => (algorithm =? first)%string && opt_onProgress options
                   | [] => false
                   end).
  induction evs as [| e evs IH]; [reflexivity |].
  cbn [filter]. destruct e as [[| offset] len | alg len | processed total];
    cbn [starts_traversal filter length]; try (rewrite IH; reflexivity).
  destruct forwards; cbn [filter starts_traversal]; exact IH.
Qed.

(** Past offset 0 the chunk loops start no traversal; neither loop outlives
    its fuel when the chunk size is positive. *)
Lemma processChunk_rest file algorithm c onProgress : forall fuel hashBuffer processed offset,
  0 < offset ->
  traversals (fst (processChunk P settings fuel file algorithm c onProgress
                     hashBuffer processed offset)) = 0.
Proof.
  induction fuel as [| fuel IH]; intros hashBuffer processed offset Hpos;
    [reflexivity |].
  cbn [processChunk].
  set (chunk := slice file offset (offset + c)).
  destruct (offset + length chunk <? size file).
  - destruct (processChunk P settings fuel file algorithm c onProgress
                (updateHash hashBuffer chunk) (processed + length chunk)
                (offset + length chunk)) as [evs' out'] eqn:Hrec.
    pose proof (IH (updateHash hashBuffer chunk) (processed + length chunk)
                  (offset + length chunk) ltac:(lia)) as H.
    rewrite Hrec in H. cbn [fst] in *.
    change (EvRead offset (length chunk) :: EvUpdate algorithm (length chunk)
            :: progress onProgress (processed + length chunk) (size file))
      with ([EvRead offset (length chunk); EvUpdate algorithm (length chunk)]
            ++ progress onProgress (processed + length chunk) (size file)).
    rewrite !traversals_app, traversals_progress, H.
    destruct offset; [lia | reflexivity].
  - change (EvRead offset (length chunk) :: EvUpdate algorithm (length chunk)
            :: progress onProgress (processed + length chunk) (size file))
      with ([EvRead offset (length chunk); EvUpdate algorithm (length chunk)]
            ++ progress onProgress (processed + length chunk) (size file)).
    destruct (fst (finalizeHash P (updateHash hashBuffer chunk)));
      cbn [fst]; rewrite traversals_app, traversals_progress;
      destruct offset; (lia || reflexivity).
Qed.

Lemma processChunk_settles file algorithm c onProgress : forall fuel hashBuffer processed offset,
  0 < c -> offset < size file -> size file - offset <= fuel ->
  snd (processChunk P settings fuel file algorithm c onProgress
         hashBuffer processed offset) <> Pending.
Proof.
  induction fuel as [| fuel IH]; intros hashBuffer processed offset Hc Hlt Hfuel;
    [lia |].
  cbn [processChunk].
  pose proof (length_slice file offset c) as Hlen.
  set (chunk := slice file offset (offset + c)) in *.
  destruct (Nat.ltb_spec (offset + length chunk) (size file)) as [Hmore | Hdone].
  - pose proof (IH (updateHash hashBuffer chunk) (processed + length chunk)
                  (offset + length chunk) Hc Hmore ltac:(lia)) as H.
    destruct (processChunk P settings fuel file algorithm c onProgress
                (updateHash hashBuffer chunk) (processed + length chunk)
                (offset + length chunk)) as [evs' out']. exact H.
  - destruct (fst (finalizeHash P (updateHash hashBuffer chunk))); discriminate.
Qed.

Lemma readNextChunk_rest file c onProgress : forall fuel chunks offset,
  0 < offset ->
  traversals (fst (readNextChunk fuel file c onProgress chunks offset)) = 0.
Proof.
  induction fuel as [| fuel IH]; intros chunks offset Hpos; [reflexivity |].
  cbn [readNextChunk].
  set (chunk := slice file offset (offset + c)).
  change (EvRead offset (length chunk)
          :: progress onProgress (offset + length chunk) (size file))
    with ([EvRead offset (length chunk)]
          ++ progress onProgress (offset + length chunk) (size file)).
  destruct (offset + length chunk <? size file).
  - pose proof (IH (chunks ++ [chunk]) (offset + length chunk) ltac:(lia)) as H.
    destruct (readNextChunk fuel file c onProgress (chunks ++ [chunk])
                (offset + length chunk)) as [evs' out'].
    cbn [fst] in *. rewrite !traversals_app, traversals_progress, H.
    destruct offset; [lia | reflexivity].
  - cbn [fst]. rewrite traversals_app, traversals_progress.
    destruct offset; [lia | reflexivity].
Qed.

Lemma readNextChunk_settles file c onProgress : forall fuel chunks offset,
  0 < c -> offset < size file -> size file - offset <= fuel ->
  snd (readNextChunk fuel file c onProgress chunks offset) <> Pending.
Proof.
  induction fuel as [| fuel IH]; intros chunks offset Hc Hlt Hfuel; [lia |].
  cbn [readNextChunk].
  pose proof (length_slice file offset c) as Hlen.
  set (chunk := slice file offset (offset + c)) in *.
  destruct (Nat.ltb_spec (offset + length chunk) (size file)) as [Hmore | Hdone].
  - pose proof (IH (chunks ++ [chunk]) (offset + length chunk) Hc Hmore
                  ltac:(lia)) as H.
    destruct (readNextChunk fuel file c onProgress (chunks ++ [chunk])
                (offset + length chunk)) as [evs' out']. exact H.
  - discriminate.
Qed.

Lemma readNextChunk_first file c onProgress fuel chunks :
  0 < fuel -> 0 < c -> 0 < size file ->
  traversals (fst (readNextChunk fuel file c onProgress chunks 0)) = 1.
Proof.
  intros Hfuel Hc Hsize. destruct fuel as [| n]; [lia |].
  cbn [readNextChunk].
  pose proof (length_slice file 0 c) as Hlen.
  set (chunk := slice file 0 (0 + c)) in *.
  change (EvRead 0 (length chunk)
          :: progress onProgress (0 + length chunk) (size file))
    with ([EvRead 0 (length chunk)]
          ++ progress onProgress (0 + length chunk) (size file)).
  destruct (0 + length chunk <? size file).
  - pose proof (readNextChunk_rest file c onProgress n (chunks ++ [chunk])
                  (0 + length chunk) ltac:(lia)) as H.
    destruct (readNextChunk n file c onProgress (chunks ++ [chunk])
                (0 + length chunk)) as [evs' out'].
    cbn [fst] in *. rewrite !traversals_app, traversals_progress, H. reflexivity.
  - cbn [fst]. rewrite traversals_app, traversals_progress. reflexivity.
Qed.

Lemma processChunk_first file algorithm c onProgress fuel hashBuffer processed :
  0 < fuel -> 0 < c -> 0 < size file ->
  traversals (fst (processChunk P settings fuel file algorithm c onProgress
                     hashBuffer processed 0)) = 1.
Proof.
  intros Hfuel Hc Hsize. destruct fuel as [| n]; [lia |].
  cbn [processChunk].
  pose proof (length_slice file 0 c) as Hlen.
  set (chunk := slice file 0 (0 + c)) in *.
  change (EvRead 0 (length chunk) :: EvUpdate algorithm (length chunk)
          :: progress onProgress (processed + length chunk) (size file))
    with ([EvRead 0 (length chunk); EvUpdate algorithm (length chunk)]
          ++ progress onProgress (processed + length chunk) (size file)).
  destruct (0 + length chunk <? size file).
  - pose proof (processChunk_rest file algorithm c onProgress n
                  (updateHash hashBuffer chunk) (processed + length chunk)
                  (0 + length chunk) ltac:(lia)) as H.
    destruct (processChunk P settings n file algorithm c onProgress
                (updateHash hashBuffer chunk) (processed + length chunk)
                (0 + length chunk)) as [evs' out'].
    cbn [fst] in *. rewrite !traversals_app, traversals_progress, H. reflexivity.
  - destruct (fst (finalizeHash P (updateHash hashBuffer chunk)));
      cbn [fst]; rewrite traversals_app, traversals_progress; reflexivity.
Qed.

(** A traversal reads the input from offset 0 exactly once. *)
Lemma readFileAsArrayBuffer_run file c onProgress :
  0 < c ->
  traversals (fst (readFileAsArrayBuffer file c onProgress)) = 1
  /\ snd (readFileAsArrayBuffer file c onProgress) <> Pending.
Proof.
  intros Hc. unfold readFileAsArrayBuffer.
  destruct (Nat.leb_spec (size file) c) as [Hsmall | Hlarge].
  - cbn [fst snd]. split; [| discriminate].
    change (EvRead 0 (size file) :: progress onProgress (size file) (size file))
      with ([EvRead 0 (size file)] ++ progress onProgress (size file) (size file)).
    rewrite traversals_app, traversals_progress. reflexivity.
  - split; [apply readNextChunk_first | apply readNextChunk_settles]; lia.
Qed.

Lemma calculateHash_run file algorithm options :
  0 < option_chunkSize settings options ->
  traversals (fst (calculateHash P settings file algorithm options))
  = (if starts_reading P options algorithm then 1 else 0)
  /\ snd (calculateHash P settings file algorithm options) <> Pending.
Proof.
  intros Hc. unfold calculateHash, starts_reading.
  set (c := option_chunkSize settings options) in *.
  destruct (isAlgorithmSupported algorithm); cbn [negb andb].
  2: { split; [reflexivity | discriminate]. }
  destruct (prefix "hmac-" algorithm).
  - unfold calculateHMAC.
    destruct (obj_get _ (substring_from 5 algorithm)) as [cryptoAlgo |].
    2: { split; [reflexivity | discriminate]. }
    destruct (subtle_importKey P cryptoAlgo _) as [message |].
    { split; [reflexivity | discriminate]. }
    destruct (readFileAsArrayBuffer_run file c (opt_onProgress options) Hc)
      as [Ht Hs].
    destruct (readFileAsArrayBuffer file c (opt_onProgress options))
      as [evs0 [fileBuffer | message |]]; cbn [fst snd] in *.
    + destruct (subtle_sign P cryptoAlgo _ fileBuffer); cbn [fst snd];
        (split; [exact Ht | discriminate]).
    + split; [exact Ht | discriminate].
    + contradiction.
  - destruct (createHashInstance P algorithm) as [message | hashBuffer].
    { split; [reflexivity | discriminate]. }
    destruct (Nat.leb_spec (size file) c) as [Hsmall | Hlarge].
    + destruct (fst (finalizeHash P (updateHash hashBuffer (bytes file))));
        cbn [fst snd]; (split; [| discriminate]).
      * reflexivity.
      * rewrite traversals_app, traversals_progress. reflexivity.
    + split; [apply processChunk_first | apply processChunk_settles]; lia.
Qed.


Lemma In_progress_update onProgress processed total a len :
  ~ In (EvUpdate a len) (progress onProgress processed total).
Proof. destruct onProgress; cbn; intuition discriminate. Qed.

(** Every chunk a run feeds goes to the accumulator of its own algorithm. *)
Lemma processChunk_updates file algorithm c onProgress a len :
  forall fuel hashBuffer processed offset,
  In (EvUpdate a len)
     (fst (processChunk P settings fuel file algorithm c onProgress
             hashBuffer processed offset)) ->
  a = algorithm.
Proof.
  induction fuel as [| fuel IH]; intros hashBuffer processed offset Hin;
    [destruct Hin |].
  cbn [processChunk] in Hin.
  set (chunk := slice file offset (offset + c)) in *.
  assert (Hhead : forall rest,
             In (EvUpdate a len)
                (EvRead offset (length chunk) :: EvUpdate algorithm (length chunk)
                 :: progress onProgress (processed + length chunk) (size file)
                 ++ rest) ->
             a = algorithm \/ In (EvUpdate a len) rest).
  { intros rest [H | [H | H]]; [discriminate H | inversion H; left; reflexivity |].
    apply in_app_iff in H. destruct H as [H | H]; [| right; exact H].
    destruct (In_progress_update _ _ _ _ _ H). }
  destruct (offset + length chunk <? size file).
  - destruct (processChunk P settings fuel file algorithm c onProgress
                (updateHash hashBuffer chunk) (processed + length chunk)
                (offset + length chunk)) as [evs' out'] eqn:Hrec.
    cbn [fst] in Hin. destruct (Hhead evs' Hin) as [H | H]; [exact H |].
    apply (IH (updateHash hashBuffer chunk) (processed + length chunk)
              (offset + length chunk)).
    rewrite Hrec. exact H.
  - assert (Hin' : In (EvUpdate a len)
                      (EvRead offset (length chunk)
                       :: EvUpdate algorithm (length chunk)
                       :: progress onProgress (processed + length chunk) (size file)
                       ++ [])).
    { rewrite app_nil_r.
      destruct (fst (finalizeHash P (updateHash hashBuffer chunk))); exact Hin. }
    destruct (Hhead [] Hin') as [H | []]. exact H.
Qed.

Lemma readNextChunk_updates file c onProgress a len : forall fuel chunks offset,
  ~ In (EvUpdate a len) (fst (readNextChunk fuel file c onProgress chunks offset)).
Proof.
  induction fuel as [| fuel IH]; intros chunks offset Hin; [destruct Hin |].
  cbn [readNextChunk] in Hin.
  set (chunk := slice file offset (offset + c)) in *.
  destruct (offset + length chunk <? size file).
  - pose proof (IH (chunks ++ [chunk]) (offset + length chunk)) as Hrest.
    destruct (readNextChunk fuel file c onProgress (chunks ++ [chunk])
                (offset + length chunk)) as [evs' out'].
    cbn [fst] in *. destruct Hin as [H | H]; [discriminate H |].
    apply in_app_iff in H. destruct H as [H | H]; [| exact (Hrest H)].
    exact (In_progress_update _ _ _ _ _ H).
  - cbn [fst] in Hin. destruct Hin as [H | H]; [discriminate H |].
    exact (In_progress_update _ _ _ _ _ H).
Qed.

Lemma calculateHash_updates file algorithm options a len :
  In (EvUpdate a len) (fst (calculateHash P settings file algorithm options)) ->
  a = algorithm.
Proof.
  unfold calculateHash.
  set (c := option_chunkSize settings options).
  destruct (isAlgorithmSupported algorithm); cbn [negb]; [| intros []].
  destruct (prefix "hmac-" algorithm).
  - unfold calculateHMAC.
    destruct (obj_get _ (substring_from 5 algorithm)) as [cryptoAlgo |];
      [| intros []].
    destruct (subtle_importKey P cryptoAlgo _) as [message |]; [intros [] |].
    assert (Hread : ~ In (EvUpdate a len)
                      (fst (readFileAsArrayBuffer file c (opt_onProgress options)))).
    { unfold readFileAsArrayBuffer. destruct (size file <=? c).
      - cbn [fst]. intros [H | H]; [discriminate H |].
        exact (In_progress_update _ _ _ _ _ H).
      - apply readNextChunk_updates. }
    destruct (readFileAsArrayBuffer file c (opt_onProgress options))
      as [evs0 [fileBuffer | message |]]; cbn [fst] in *.
    + destruct (subtle_sign P cryptoAlgo _ fileBuffer); cbn [fst];
        intros H; destruct (Hread H).
    + intros H; destruct (Hread H).
    + intros H; destruct (Hread H).
  - destruct (createHashInstance P algorithm) as [message | hashBuffer];
      [intros [] |].
    destruct (size file <=? c).
    + destruct (fst (finalizeHash P (updateHash hashBuffer (bytes file))));
        cbn [fst]; intros [H | [H | H]];
        try discriminate H; try (inversion H; reflexivity); try destruct H.
      apply in_app_iff in H. destruct H as [H | H].
      * destruct H.
      * destruct (In_progress_update _ _ _ _ _ H).
    + apply processChunk_updates.
Qed.

Lemma obj_get_set {V} (o : obj V) k v k' :
  obj_get (obj_set o k v) k' = if String.eqb k k' then Some v else obj_get o k'.
Proof.
  induction o as [| [k0 v0] o IH]; cbn [obj_set obj_get].
  - reflexivity.
  - destruct (String.eqb_spec k0 k) as [-> | Hne]; cbn [obj_get].
    + destruct (String.eqb k k'); reflexivity.
    + rewrite IH. destruct (String.eqb_spec k0 k') as [-> | Hne'].
      * destruct (String.eqb_spec k k') as [-> | _]; [contradiction | reflexivity].
      * reflexivity.
Qed.

Section Loop.

Variable file : File.
Variable algorithms : list string.
Variable options : Options.
Hypothesis chunkSize_positive : 0 < option_chunkSize settings options.

Lemma run_settles algorithm :
  snd (calculateHash P settings file algorithm (inner_options options)) <> Pending.
Proof.
  apply (calculateHash_run file algorithm (inner_options options)),
    chunkSize_positive.
Qed.

Lemma loop_run : forall todo results,
  calculateMultipleHashes_loop P settings file algorithms todo options results
  = (flat_map
       (fun algorithm =>
          forward_progress algorithm algorithms options
            (fst (calculateHash P settings file algorithm (inner_options options))))
       todo,
     Resolved
       (fold_left
          (fun results algorithm =>
             store_slot results algorithm
               (snd (calculateHash P settings file algorithm (inner_options options))))
          todo results)).
Proof.
  induction todo as [| algorithm todo IH]; intros results; [reflexivity |].
  cbn [calculateMultipleHashes_loop flat_map fold_left].
  pose proof (run_settles algorithm) as Hs. unfold store_slot at 2.
  destruct (calculateHash P settings file algorithm (inner_options options))
    as [evs [result | message |]]; cbn [fst snd slot_of] in *.
  - rewrite IH. reflexivity.
  - rewrite IH. reflexivity.
  - contradiction.
Qed.

Lemma traversals_runs : forall todo,
  traversals
    (flat_map
       (fun algorithm =>
          forward_progress algorithm algorithms options
            (fst (calculateHash P settings file algorithm (inner_options options))))
       todo)
  = length (filter (starts_reading P options) todo).
Proof.
  induction todo as [| algorithm todo IH]; [reflexivity |].
  cbn [flat_map filter]. rewrite traversals_app, traversals_forward_progress, IH.
  destruct (calculateHash_run file algorithm (inner_options options)
              chunkSize_positive) as [Ht _].
  rewrite Ht.
  change (starts_reading P (inner_options options) algorithm)
    with (starts_reading P options algorithm).
  destruct (starts_reading P options algorithm); reflexivity.
Qed.

Lemma slots_stored : forall todo results algorithm,
  obj_get
    (fold_left
       (fun results algorithm =>
          store_slot results algorithm
            (snd (calculateHash P settings file algorithm (inner_options options))))
       todo results)
    algorithm
  = if existsb (String.eqb algorithm) todo
    then slot_of (snd (calculateHash P settings file algorithm (inner_options options)))
    else obj_get results algorithm.
Proof.
  induction todo as [| a todo IH]; intros results algorithm; [reflexivity |].
  cbn [fold_left existsb]. rewrite IH.
  destruct (existsb (String.eqb algorithm) todo); [rewrite orb_true_r; reflexivity |].
  rewrite orb_false_r. unfold store_slot.
  pose proof (run_settles a) as Hs.
  destruct (String.eqb_spec algorithm a) as [-> | Hne].
  - destruct (snd (calculateHash P settings file a (inner_options options)));
      cbn [slot_of] in *;
      [rewrite obj_get_set, String.eqb_refl; reflexivity ..| contradiction].
  - destruct (slot_of (snd (calculateHash P settings file a (inner_options options))));
      [| reflexivity].
    rewrite obj_get_set.
    destruct (String.eqb_spec a algorithm) as [-> | _]; [contradiction | reflexivity].
Qed.

End Loop.

End Orchestrator.

(** ** Progress of a run *)

Section FinalProgress.

Local Open Scope list_scope.

Variable P : Platform.
Variable settings : Settings.


End FinalProgress.




(** C3 as stated fails: with two requested algorithms the ten-byte input is
    read from offset 0 twice, and the chunks of the first traversal are fed to
    the MD5 accumulator only. *)
Lemma calculateMultipleHashes_reads_twice :
  fst (calculateMultipleHashes broken_crypto DEFAULT_SETTINGS ten_bytes
         ["md5"; "sha256"] chunk4_options)
  = [EvRead 0 4; EvUpdate "md5" 4; EvProgress 4 10;
     EvRead 4 4; EvUpdate "md5" 4; EvProgress 8 10;
     EvRead 8 2; EvUpdate "md5" 2; EvProgress 10 10;
     EvRead 0 4; EvUpdate "sha256" 4;
     EvRead 4 4; EvUpdate "sha256" 4;
     EvRead 8 2; EvUpdate "sha256" 2]
  /\ traversals (fst (calculateMultipleHashes broken_crypto DEFAULT_SETTINGS
                        ten_bytes ["md5"; "sha256"] chunk4_options)) <> 1.
Proof. split; [vm_compute; reflexivity | vm_compute; discriminate]. Qed.

(** C3, amended. [calculateMultipleHashes] computes the requested algorithms
    one after the other, each by a [calculateHash] run of its own: the events
    of the whole run are the events of these runs in the order of the list,
    every chunk a run reads is fed to the accumulator of its own algorithm
    only, and the input is traversed once for every requested algorithm whose
    computation gets as far as reading. *)
Theorem calculateMultipleHashes_traversals (P : Platform) (settings : Settings)
    (file : File) (algorithms : list string) (options : Options) :
  0 < option_chunkSize settings options ->
  fst (calculateMultipleHashes P settings file algorithms options)
  = flat_map
      (fun algorithm =>
         forward_progress algorithm algorithms options
           (fst (calculateHash P settings file algorithm (inner_options options))))
      algorithms
  /\ (forall algorithm a len,
        In (EvUpdate a len)
           (fst (calculateHash P settings file algorithm (inner_options options))) ->
        a = algorithm)
  /\ traversals (fst (calculateMultipleHashes P settings file algorithms options))
     = length (filter (starts_reading P options) algorithms).
Proof.
  intros Hc. unfold calculateMultipleHashes.
  rewrite (loop_run P settings file algorithms options Hc). cbn [fst].
  split; [reflexivity |]. split.
  - intros algorithm a len. apply calculateHash_updates.
  - apply (traversals_runs P settings file algorithms options Hc).
Qed.

Lemma calculateMultipleHashes_traversals_witness :
  traversals (fst (calculateMultipleHashes broken_crypto DEFAULT_SETTINGS ten_bytes
                     ["md5"; "sha256"] chunk4_options)) = 2.
Proof.
  assert (Hc : 0 < option_chunkSize DEFAULT_SETTINGS chunk4_options)
    by (cbn; lia).
  exact (proj2 (proj2 (calculateMultipleHashes_traversals broken_crypto
                         DEFAULT_SETTINGS ten_bytes ["md5"; "sha256"]
                         chunk4_options Hc))).
Defined.

(** ** Isolation of failures *)



(** ** Grouping *)

Section Grouping.

Local Open Scope list_scope.

Lemma existsb_eqb_In x l : existsb (String.eqb x) l = true <-> In x l.
Proof.
  rewrite existsb_exists. split.
  - intros (y & Hy & Heq). apply String.eqb_eq in Heq. subst y. exact Hy.
  - intros H. exists x. split; [exact H | apply String.eqb_refl].
Qed.

Lemma first_seen_snoc l x :
  first_seen (l ++ [x])
  = if existsb (String.eqb x) (first_seen l) then first_seen l
    else first_seen l ++ [x].
Proof. unfold first_seen. rewrite fold_left_app. reflexivity. Qed.

Lemma In_first_seen l : forall x, In x (first_seen l) <-> In x l.
Proof.
  induction l as [| y l IH] using rev_ind; intros x; [reflexivity |].
  rewrite first_seen_snoc, in_app_iff.
  destruct (existsb (String.eqb y) (first_seen l)) eqn:Hy.
  - apply existsb_eqb_In in Hy. rewrite IH. split; [tauto |].
    intros [H | [<- | []]]; [exact H | apply IH, Hy].
  - rewrite in_app_iff, IH. reflexivity.
Qed.

Lemma NoDup_snoc {A} (l : list A) x : NoDup l -> ~ In x l -> NoDup (l ++ [x]).
Proof.
  induction l as [| y l IH]; intros Hnd Hx; cbn [app].
  - constructor; [intros [] | constructor].
  - inversion Hnd as [| ? ? Hy Hl]; subst. constructor.
    + rewrite in_app_iff. intros [H | [<- | []]]; [exact (Hy H) |].
      apply Hx. left. reflexivity.
    + apply IH; [exact Hl |]. intros H. apply Hx. right. exact H.
Qed.

Lemma NoDup_first_seen l : NoDup (first_seen l).
Proof.
  induction l as [| y l IH] using rev_ind; [constructor |].
  rewrite first_seen_snoc.
  destruct (existsb (String.eqb y) (first_seen l)) eqn:Hy; [exact IH |].
  apply NoDup_snoc; [exact IH |]. intros H.
  apply existsb_eqb_In in H. rewrite H in Hy. discriminate Hy.
Qed.

Lemma obj_get_keyed {V} (f : string -> V) ks k :
  obj_get (map (fun h => (h, f h)) ks) k
  = if existsb (String.eqb k) ks then Some (f k) else None.
Proof.
  induction ks as [| h ks IH]; [reflexivity |].
  cbn [map obj_get existsb]. rewrite (String.eqb_sym k h).
  destruct (String.eqb_spec h k) as [-> | _]; [reflexivity | exact IH].
Qed.

Lemma obj_set_fresh {V} (o : obj V) k v :
  existsb (String.eqb k) (obj_keys o) = false -> obj_set o k v = o ++ [(k, v)].
Proof.
  induction o as [| [k0 v0] o IH]; [reflexivity |].
  cbn [obj_keys map fst existsb obj_set app]. rewrite (String.eqb_sym k k0).
  destruct (String.eqb k0 k); [discriminate |].
  cbn [orb]. intros H. rewrite (IH H). reflexivity.
Qed.

Lemma obj_set_keyed {V} (f : string -> V) ks k v :
  NoDup ks -> In k ks ->
  obj_set (map (fun h => (h, f h)) ks) k v
  = map (fun h => (h, if String.eqb h k then v else f h)) ks.
Proof.
  induction ks as [| h ks IH]; intros Hnd Hin; [destruct Hin |].
  inversion Hnd as [| ? ? Hh Hks]; subst.
  cbn [map obj_set]. destruct (String.eqb_spec h k) as [-> | Hne].
  - f_equal. apply map_ext_in. intros h' Hh'.
    destruct (String.eqb_spec h' k) as [-> | _]; [contradiction | reflexivity].
  - f_equal. apply IH; [exact Hks |].
    destruct Hin as [-> | H]; [contradiction | exact H].
Qed.

Lemma members_snoc algorithm hash l r :
  members algorithm hash (l ++ [r])
  = members algorithm hash l
    ++ (if String.eqb (FileHandler.digest_key algorithm r) hash
        then [filename r] else []).
Proof.
  unfold members. rewrite filter_app, map_app. cbn [filter].
  destruct (String.eqb (FileHandler.digest_key algorithm r) hash); reflexivity.
Qed.

Lemma members_none algorithm hash l :
  ~ In hash (map (FileHandler.digest_key algorithm) l) ->
  members algorithm hash l = [].
Proof.
  induction l as [| r l IH]; intros H; [reflexivity |].
  unfold members in *. cbn [filter map] in *.
  destruct (String.eqb_spec (FileHandler.digest_key algorithm r) hash) as [Heq | _].
  - exfalso. apply H. left. exact Heq.
  - apply IH. intros Hin. apply H. right. exact Hin.
Qed.

(** The groups are the distinct digest keys in first-seen order, each with
    the reports whose key is that very string. *)
Lemma hashGroups_spec algorithm l :
  FileHandler.hashGroups algorithm l
  = map (fun hash => (hash, members algorithm hash l))
        (first_seen (map (FileHandler.digest_key algorithm) l)).
Proof.
  induction l as [| r l IH] using rev_ind; [reflexivity |].
  unfold FileHandler.hashGroups in *. rewrite fold_left_app. cbn [fold_left].
  rewrite IH. clear IH.
  rewrite map_app. cbn [map]. rewrite first_seen_snoc.
  set (key := FileHandler.digest_key algorithm) in *.
  set (seen := first_seen (map key l)).
  rewrite obj_get_keyed.
  destruct (existsb (String.eqb (key r)) seen) eqn:Hseen.
  - rewrite obj_set_keyed
      by (apply NoDup_first_seen || (apply existsb_eqb_In; exact Hseen)).
    apply map_ext. intros hash. rewrite members_snoc. fold key.
    rewrite (String.eqb_sym hash (key r)).
    destruct (String.eqb_spec (key r) hash) as [<- | _].
    + reflexivity.
    + rewrite app_nil_r. reflexivity.
  - rewrite obj_set_fresh.
    2: { unfold obj_keys. rewrite map_map. cbn [fst]. rewrite map_id. exact Hseen. }
    rewrite map_app. cbn [map]. f_equal.
    + apply map_ext_in. intros hash Hin. rewrite members_snoc. fold key.
      destruct (String.eqb_spec (key r) hash) as [Heq | _];
        [| rewrite app_nil_r; reflexivity].
      subst hash. apply existsb_eqb_In in Hin. rewrite Hin in Hseen.
      discriminate Hseen.
    + rewrite members_snoc. fold key. rewrite String.eqb_refl.
      rewrite members_none; [reflexivity |].
      intros Hin. apply In_first_seen, existsb_eqb_In in Hin.
      subst seen key. rewrite Hin in Hseen. discriminate Hseen.
Qed.

Lemma plain_key_examples :
  plain_key "d41d8cd98f00b204e9800998ecf8427e" = true
  /\ plain_key "undefined" = true
  /\ plain_key "计算失败: OperationError" = true
  /\ plain_key "42" = false
  /\ plain_key "__proto__" = false.
Proof. repeat split. Qed.

(** The algorithm names the program supports are plain property keys. *)
Lemma supported_plain_key algorithm :
  isAlgorithmSupported algorithm = true -> plain_key algorithm = true.
Proof.
  unfold isAlgorithmSupported. cbn [existsb]. rewrite !orb_true_iff.
  intros H.
  repeat (destruct H as [H | H];
          [apply String.eqb_eq in H; subst algorithm; reflexivity |]).
  discriminate H.
Qed.

Lemma first_seen_single l :
  length (first_seen l) = 1 <-> l <> [] /\ (forall x y, In x l -> In y l -> x = y).
Proof.
  pose proof (NoDup_first_seen l) as Hnd.
  pose proof (In_first_seen l) as Hin.
  destruct (first_seen l) as [| a [| b t]]; cbn [length].
  - split; [discriminate |]. intros [Hne _]. destruct l as [| x l]; [contradiction |].
    destruct (proj2 (Hin x) (or_introl eq_refl)).
  - split; [| reflexivity]. intros _. split.
    + intros ->. destruct (proj1 (Hin a) (or_introl eq_refl)).
    + intros x y Hx Hy. apply Hin in Hx, Hy.
      destruct Hx as [<- | []], Hy as [<- | []]. reflexivity.
  - split; [discriminate |]. intros [_ Hall]. exfalso.
    assert (Hab : a = b).
    { apply Hall; apply Hin; [left | right; left]; reflexivity. }
    subst b. inversion Hnd as [| ? ? Ha _]; subst. apply Ha. left. reflexivity.
Qed.

End Grouping.

(** C7 as stated fails: the digests of two empty inputs, one reported in
    lowercase and one in uppercase, are equal up to letter case, yet the two
    reports land in two groups and the batch is not declared all-identical. *)
Lemma hashGroups_case_sensitive :
  snd (calculateMultipleHashes broken_crypto DEFAULT_SETTINGS empty_a ["md5"]
         no_options) = Resolved report_lower
  /\ snd (calculateMultipleHashes broken_crypto uppercase_settings empty_b ["md5"]
            no_options) = Resolved report_upper
  /\ Utils.compareHashes (FileHandler.digest_key "md5" report_lower)
                         (FileHandler.digest_key "md5" report_upper) = true
  /\ FileHandler.hashGroups "md5" [report_lower; report_upper]
     = [("d41d8cd98f00b204e9800998ecf8427e", ["a.txt"]);
        ("D41D8CD98F00B204E9800998ECF8427E", ["b.txt"])]
  /\ FileHandler.allSame "md5" [report_lower; report_upper] = false.
Proof. repeat split; vm_compute; reflexivity. Qed.

(** C7, amended. For a batch of at least two reports and an algorithm (the
    digests being plain property keys, as every digest and failure marker the
    program produces is), the groups are keyed by the exact digest strings,
    letter case included: the
    distinct digests in first-seen order, each with the names of the reports
    whose digest is that very string, in the order of the reports; the batch
    is declared all-identical exactly when all digests are the same string,
    and that is what [compareMultipleFiles] shows for the algorithm. *)
Theorem hashGroups_exact_partition (algorithm : string)
    (calculationResults : list Report) :
  Forall (fun result => plain_key (FileHandler.digest_key algorithm result) = true)
         calculationResults ->
  2 <= length calculationResults ->
  FileHandler.hashGroups algorithm calculationResults
  = map (fun hash => (hash, members algorithm hash calculationResults))
        (first_seen (map (FileHandler.digest_key algorithm) calculationResults))
  /\ (FileHandler.allSame algorithm calculationResults = true <->
      forall r1 r2, In r1 calculationResults -> In r2 calculationResults ->
                    FileHandler.digest_key algorithm r1
                    = FileHandler.digest_key algorithm r2)
  /\ (forall shown,
        In (algorithm, shown) (FileHandler.compareMultipleFiles calculationResults) ->
        shown = if FileHandler.allSame algorithm calculationResults
                then FileHandler.AllSame
                else FileHandler.Groups
                       (FileHandler.hashGroups algorithm calculationResults)).
Proof.
  intros _ Hlen. split; [apply hashGroups_spec |]. split.
  - unfold FileHandler.allSame. rewrite hashGroups_spec.
    unfold obj_keys. rewrite map_map. cbn [fst]. rewrite map_id.
    rewrite Nat.eqb_eq, first_seen_single. split.
    + intros [_ Hall] r1 r2 H1 H2. apply Hall; apply in_map; assumption.
    + intros Hall. split.
      * destruct calculationResults; [cbn in Hlen; lia | discriminate].
      * intros x y Hx Hy. apply in_map_iff in Hx, Hy.
        destruct Hx as (r1 & <- & H1), Hy as (r2 & <- & H2). apply Hall; assumption.
  - intros shown Hin. unfold FileHandler.compareMultipleFiles in Hin.
    destruct (Nat.ltb_spec (length calculationResults) 2) as [Hlt | _]; [lia |].
    apply in_map_iff in Hin. destruct Hin as (a & Heq & _).
    inversion Heq; subst. reflexivity.
Qed.

Lemma hashGroups_exact_partition_witness :
  FileHandler.hashGroups "md5" [report_lower; report_upper]
  = [("d41d8cd98f00b204e9800998ecf8427e", ["a.txt"]);
     ("D41D8CD98F00B204E9800998ECF8427E", ["b.txt"])].
Proof.
  assert (Hplain : Forall (fun result =>
                             plain_key (FileHandler.digest_key "md5" result) = true)
                          [report_lower; report_upper])
    by (repeat constructor).
  assert (Hlen : 2 <= length [report_lower; report_upper]) by (cbn; lia).
  destruct (hashGroups_exact_partition "md5" [report_lower; report_upper]
              Hplain Hlen) as [H _].
  rewrite H. vm_compute. reflexivity.
Defined.

(** * Further properties of the code *)

(** ** Digest strings *)

Section DigestStrings.

Local Open Scope list_scope.

Lemma length_append_string (s1 s2 : string) :
  String.length (s1 ++ s2)%string = String.length s1 + String.length s2.
Proof. induction s1 as [| c s1 IH]; cbn; [reflexivity | rewrite IH; reflexivity]. Qed.

Lemma length_map_string f s : String.length (map_string f s) = String.length s.
Proof. induction s as [| c s IH]; cbn; [reflexivity | rewrite IH; reflexivity]. Qed.

Lemma string_forall_append p (s1 s2 : string) :
  string_forall p (s1 ++ s2)%string = string_forall p s1 && string_forall p s2.
Proof.
  induction s1 as [| c s1 IH]; cbn; [reflexivity |].
  rewrite IH, andb_assoc. reflexivity.
Qed.

Lemma hex_digit_lower n : is_lower_hex (hex_digit n) = true.
Proof.
  unfold hex_digit. generalize (Z.to_nat n). intros k.
  do 16 (destruct k as [| k]; [reflexivity |]).
  destruct k; reflexivity.
Qed.

Lemma upper_of_lower_hex c :
  is_lower_hex c = true -> is_upper_hex (upper_char c) = true.
Proof.
  unfold is_lower_hex. cbn [existsb]. rewrite !orb_true_iff. intros H.
  repeat (destruct H as [H | H];
          [apply Ascii.eqb_eq in H; subst c; reflexivity |]).
  discriminate H.
Qed.

Lemma string_forall_upper s :
  string_forall is_lower_hex s = true ->
  string_forall is_upper_hex (toUpperCase s) = true.
Proof.
  induction s as [| c s IH]; cbn; [reflexivity |].
  rewrite !andb_true_iff. intros [Hc Hs].
  split; [apply upper_of_lower_hex, Hc | apply IH, Hs].
Qed.

Lemma hex_fold bytes : forall acc,
  let hex := fold_left (fun hex b => (hex ++ hex_byte b)%string) bytes acc in
  String.length hex = String.length acc + 2 * length bytes
  /\ string_forall is_lower_hex hex = string_forall is_lower_hex acc.
Proof.
  induction bytes as [| b bytes IH]; intros acc; cbn [fold_left length].
  - split; [lia | reflexivity].
  - destruct (IH (acc ++ hex_byte b)%string) as [Hl Hc]. cbv zeta in *.
    rewrite Hl, Hc, length_append_string, string_forall_append.
    unfold hex_byte. cbn [String.length string_forall].
    rewrite !hex_digit_lower. split; [lia |].
    rewrite !andb_true_r. reflexivity.
Qed.

Lemma word_bytes_shape h :
  length (word_bytes h) = 4 /\ is_bytes (word_bytes h).
Proof.
  split; [reflexivity |].
  assert (Hb : forall x, (0 <= JS.and x 255 < 256)%Z).
  { intros x. unfold JS.and. change (JS.ToInt32 255) with (Z.ones 8).
    rewrite Z.land_ones by lia. apply Z.mod_pos_bound. reflexivity. }
  unfold word_bytes, is_bytes. repeat constructor; apply Hb.
Qed.

End DigestStrings.

(** X1. [bufferToHex] writes two hexadecimal digits per byte; the letters are
    uppercase when the format is the string uppercase and lowercase for every
    other format. *)
Theorem bufferToHex_shape (bytes : Uint8Array) (format : string) :
  is_bytes bytes ->
  String.length (bufferToHex bytes format) = 2 * length bytes
  /\ string_forall
       (if String.eqb format "uppercase" then is_upper_hex else is_lower_hex)
       (bufferToHex bytes format) = true.
Proof.
  intros _. unfold bufferToHex.
  destruct (hex_fold bytes EmptyString) as [Hl Hc]. cbv zeta in *.
  destruct (String.eqb format "uppercase").
  - unfold toUpperCase at 1. rewrite length_map_string. split; [exact Hl |].
    apply string_forall_upper. exact Hc.
  - split; [exact Hl | exact Hc].
Qed.

Lemma bufferToHex_shape_witness :
  String.length (bufferToHex [0; 171; 255]%Z "uppercase") = 6
  /\ bufferToHex [0; 171; 255]%Z "uppercase" = "00ABFF"
  /\ bufferToHex [0; 171; 255]%Z "hex" = "00abff".
Proof.
  assert (Hb : is_bytes [0; 171; 255]%Z) by (repeat constructor; lia).
  split; [exact (proj1 (bufferToHex_shape [0; 171; 255]%Z "uppercase" Hb)) |].
  split; reflexivity.
Defined.

(** X2. Whatever state an MD5 accumulator is in, [md5Final] returns sixteen
    bytes, and the digest string made of them has 32 hexadecimal digits. *)
Theorem md5Final_digest_shape (st : md5state) (format : string) :
  length (fst (md5Final st)) = 16
  /\ is_bytes (fst (md5Final st))
  /\ String.length (bufferToHex (fst (md5Final st)) format) = 32.
Proof.
  assert (H : length (fst (md5Final st)) = 16 /\ is_bytes (fst (md5Final st))).
  { unfold md5Final. destruct (md5Final_pad st) as [hash buffer].
    destruct (md5Transform hash buffer) as [[[h0 h1] h2] h3]. cbn [fst].
    split; [reflexivity |]. unfold is_bytes.
    repeat (apply Forall_app; split); apply word_bytes_shape. }
  destruct H as [Hlen Hbytes]. repeat split; [exact Hlen | exact Hbytes |].
  destruct (hex_fold (fst (md5Final st)) EmptyString) as [Hl _]. cbv zeta in Hl.
  unfold bufferToHex. destruct (String.eqb format "uppercase").
  - unfold toUpperCase. rewrite length_map_string, Hl, Hlen. reflexivity.
  - rewrite Hl, Hlen. reflexivity.
Qed.

(** ** Matching and comparing digests *)

Section Matching.

Local Open Scope list_scope.

Lemma lower_upper_char c : lower_char (upper_char c) = lower_char c.
Proof. destruct c as [[] [] [] [] [] [] [] []]; reflexivity. Qed.

Lemma toLowerCase_toUpperCase s : toLowerCase (toUpperCase s) = toLowerCase s.
Proof.
  unfold toLowerCase, toUpperCase.
  induction s as [| c s IH]; cbn [map_string]; [reflexivity |].
  rewrite lower_upper_char, IH. reflexivity.
Qed.

Lemma toUpperCase_empty s :
  String.eqb (toUpperCase s) "" = String.eqb s "".
Proof. destruct s; reflexivity. Qed.

Lemma matches_app input results1 results2 :
  UI.matches input (results1 ++ results2)
  = UI.matches input results1 ++ UI.matches input results2.
Proof. apply flat_map_app. Qed.

Lemma compareHashes_equal_ignoring_case s1 s2 :
  Utils.compareHashes s1 s2 = equal_ignoring_case s1 s2.
Proof.
  unfold Utils.compareHashes, equal_ignoring_case.
  destruct (String.eqb s1 ""), (String.eqb s2 ""); reflexivity.
Qed.

Lemma matches_filter input results :
  UI.matches input results
  = filter (fun m => equal_ignoring_case input (UI.m_hash m)) (entries results).
Proof.
  unfold UI.matches, entries.
  induction results as [| result results IH]; [reflexivity |].
  cbn [flat_map]. rewrite filter_app, <- IH. f_equal.
  induction (hashValues result) as [| [algorithm hash] slots IHs]; [reflexivity |].
  cbn [flat_map map filter UI.m_hash].
  rewrite compareHashes_equal_ignoring_case, IHs.
  destruct (equal_ignoring_case input hash); reflexivity.
Qed.

End Matching.

(** X3. [compareHashes] ignores letter case and the order of its arguments:
    putting either digest in uppercase does not change the verdict, and
    neither does swapping the two. *)
Theorem compareHashes_ignores_case (hash1 hash2 : string) :
  is_ascii_string hash1 = true -> is_ascii_string hash2 = true ->
  Utils.compareHashes (toUpperCase hash1) hash2 = Utils.compareHashes hash1 hash2
  /\ Utils.compareHashes hash1 (toUpperCase hash2) = Utils.compareHashes hash1 hash2
  /\ Utils.compareHashes hash2 hash1 = Utils.compareHashes hash1 hash2.
Proof.
  intros _ _. unfold Utils.compareHashes.
  rewrite !toUpperCase_empty, !toLowerCase_toUpperCase.
  repeat split.
  rewrite (orb_comm (String.eqb hash2 "")),
    (String.eqb_sym (toLowerCase hash2)). reflexivity.
Qed.

Lemma compareHashes_ignores_case_witness :
  Utils.compareHashes "D41D8CD98F00B204E9800998ECF8427E"
                      "d41d8cd98f00b204e9800998ecf8427e" = true.
Proof.
  exact (eq_trans (proj1 (compareHashes_ignores_case
                            "d41d8cd98f00b204e9800998ecf8427e"
                            "d41d8cd98f00b204e9800998ecf8427e" eq_refl eq_refl))
                  eq_refl).
Defined.

(** X4. For an ASCII candidate and a batch of ASCII digests under plain slot
    names, the Match operation returns exactly the (file name, algorithm,
    digest) entries of the batch whose digest is non-empty and equal to the
    non-empty candidate once both are put in lower case: all of them, each as
    often as it occurs, report by report in the order of the batch and slot
    by slot within a report.  For a non-empty candidate and a non-empty batch
    it shows this list when it is not empty and reports a mismatch
    otherwise. *)
Theorem compareHash_matches (inputHash : string) (calculationResults : list Report) :
  is_ascii_string inputHash = true ->
  ascii_results calculationResults ->
  UI.matches inputHash calculationResults
  = filter (fun m => equal_ignoring_case inputHash (UI.m_hash m))
           (entries calculationResults)
  /\ (inputHash <> "" -> calculationResults <> [] ->
      UI.compareHash inputHash calculationResults
      = match filter (fun m => equal_ignoring_case inputHash (UI.m_hash m))
                     (entries calculationResults) with
        | [] => UI.NotFound
        | ms => UI.Found ms
        end).
Proof.
  intros _ _.
  assert (Hmatches : UI.matches inputHash calculationResults
                     = filter (fun m => equal_ignoring_case inputHash (UI.m_hash m))
                              (entries calculationResults))
    by apply matches_filter.
  split; [exact Hmatches |].
  intros Hinput Hresults. unfold UI.compareHash.
  destruct (String.eqb_spec inputHash "") as [-> | _]; [contradiction |].
  rewrite <- Hmatches.
  destruct calculationResults; [contradiction | reflexivity].
Qed.

Lemma compareHash_matches_witness :
  UI.matches "D41D8CD98F00b204e9800998ecf8427e" [report_lower; report_upper]
  = [{| UI.m_filename := "a.txt"; UI.m_algorithm := "md5";
        UI.m_hash := "d41d8cd98f00b204e9800998ecf8427e" |};
     {| UI.m_filename := "b.txt"; UI.m_algorithm := "md5";
        UI.m_hash := "D41D8CD98F00B204E9800998ECF8427E" |}].
Proof.
  assert (Hresults : ascii_results [report_lower; report_upper])
    by (repeat constructor).
  exact (eq_trans
           (proj1 (compareHash_matches "D41D8CD98F00b204e9800998ecf8427e"
                     [report_lower; report_upper] eq_refl Hresults))
           eq_refl).
Defined.

(** ** What a run reads and what it hands to the platform *)

Section Reading.

Local Open Scope list_scope.

Variable P : Platform.
Variable settings : Settings.

Lemma read_ranges_app evs1 evs2 :
  read_ranges (evs1 ++ evs2) = read_ranges evs1 ++ read_ranges evs2.
Proof. apply flat_map_app. Qed.

Lemma read_ranges_progress onProgress processed total :
  read_ranges (progress onProgress processed total) = [].
Proof. destruct onProgress; reflexivity. Qed.

Lemma readNextChunk_resolves file c onProgress : forall fuel chunks offset,
  0 < c -> offset < size file -> size file - offset <= fuel ->
  snd (readNextChunk fuel file c onProgress chunks offset)
  = Resolved (concat chunks ++ skipn offset (bytes file)).
Proof.
  induction fuel as [| fuel IH]; intros chunks offset Hc Hlt Hfuel; [lia |].
  cbn [readNextChunk].
  pose proof (length_slice file offset c) as Hlen.
  pose proof (slice_skipn file offset c) as Hsplit.
  set (chunk := slice file offset (offset + c)) in *.
  assert (Hcat : concat (chunks ++ [chunk]) = concat chunks ++ chunk)
    by (rewrite concat_app; cbn [concat]; rewrite app_nil_r; reflexivity).
  destruct (Nat.ltb_spec (offset + length chunk) (size file)) as [Hmore | Hdone].
  - pose proof (IH (chunks ++ [chunk]) (offset + length chunk) Hc Hmore
                  ltac:(lia)) as H.
    destruct (readNextChunk fuel file c onProgress (chunks ++ [chunk])
                (offset + length chunk)) as [evs' out'].
    cbn [snd] in *. rewrite H, Hcat, Hsplit, app_assoc. reflexivity.
  - cbn [snd]. rewrite Hcat, Hsplit.
    rewrite (skipn_all2 (n := offset + length chunk))
      by (unfold size in *; lia).
    rewrite app_nil_r. reflexivity.
Qed.

Lemma readFileAsArrayBuffer_resolves file c onProgress :
  0 < c -> snd (readFileAsArrayBuffer file c onProgress) = Resolved (bytes file).
Proof.
  intros Hc. unfold readFileAsArrayBuffer.
  destruct (Nat.leb_spec (size file) c) as [Hsmall | Hlarge]; [reflexivity |].
  rewrite readNextChunk_resolves by lia. reflexivity.
Qed.

(** The chunk loop over a delegated accumulator hands the platform the bytes
    the accumulator held followed by the rest of the input. *)
Lemma updateHash_crypto algorithm buffer data :
  updateHash (CryptoHash algorithm buffer) data
  = CryptoHash algorithm (Some (held_bytes buffer ++ data)).
Proof. destruct buffer; reflexivity. Qed.

Lemma processChunk_crypto file algorithm cryptoAlgo c onProgress :
  forall fuel buffer processed offset,
  0 < c -> offset < size file -> size file - offset <= fuel ->
  snd (processChunk P settings fuel file algorithm c onProgress
         (CryptoHash cryptoAlgo buffer) processed offset)
  = match subtle_digest P cryptoAlgo
            (Some (held_bytes buffer ++ skipn offset (bytes file))) with
    | inr hash =>
        Resolved {| hr_algorithm := algorithm;
                    hash := bufferToHex hash (resultFormat settings) |}
    | inl message => Rejected message
    end.
Proof.
  induction fuel as [| fuel IH]; intros buffer processed offset Hc Hlt Hfuel;
    [lia |].
  cbn [processChunk].
  pose proof (length_slice file offset c) as Hlen.
  pose proof (slice_skipn file offset c) as Hsplit.
  set (chunk := slice file offset (offset + c)) in *.
  rewrite updateHash_crypto.
  destruct (Nat.ltb_spec (offset + length chunk) (size file)) as [Hmore | Hdone].
  - pose proof (IH (Some (held_bytes buffer ++ chunk)) (processed + length chunk)
                  (offset + length chunk) Hc Hmore ltac:(lia)) as H.
    destruct (processChunk P settings fuel file algorithm c onProgress
                (CryptoHash cryptoAlgo (Some (held_bytes buffer ++ chunk)))
                (processed + length chunk) (offset + length chunk))
      as [evs' out'].
    cbn [snd held_bytes] in *. rewrite H, Hsplit, app_assoc. reflexivity.
  - rewrite Hsplit.
    rewrite (skipn_all2 (n := offset + length chunk))
      by (unfold size in *; lia).
    rewrite app_nil_r. cbn [finalizeHash fst].
    destruct (subtle_digest P cryptoAlgo (Some (held_bytes buffer ++ chunk)));
      reflexivity.
Qed.

Lemma finalizeHash_md5_platform (P' : Platform) algorithm st :
  finalizeHash P (JsHash algorithm st) = finalizeHash P' (JsHash algorithm st).
Proof. unfold finalizeHash. reflexivity. Qed.

(** The chunk loop over the MD5 accumulator does not look at the platform. *)
Lemma processChunk_md5_platform (P' : Platform) file algorithm c onProgress :
  forall fuel st processed offset,
  processChunk P settings fuel file algorithm c onProgress (JsHash "MD5" st)
               processed offset
  = processChunk P' settings fuel file algorithm c onProgress (JsHash "MD5" st)
                 processed offset.
Proof.
  induction fuel as [| fuel IH]; intros st processed offset; [reflexivity |].
  cbn [processChunk].
  set (chunk := slice file offset (offset + c)).
  change (updateHash (JsHash "MD5" st) chunk)
    with (JsHash "MD5" (md5Update st chunk)).
  rewrite IH, (finalizeHash_md5_platform P'). reflexivity.
Qed.

Lemma processChunk_md5_digest file c onProgress : forall fuel st processed offset,
  0 < c -> offset < size file -> size file - offset <= fuel ->
  exists chunks,
    concat chunks = skipn offset (bytes file)
    /\ Forall (fun chunk => 0 < length chunk <= c) chunks
    /\ snd (processChunk P settings fuel file "md5" c onProgress
              (JsHash "MD5" st) processed offset)
       = Resolved {| hr_algorithm := "md5";
                     hash := bufferToHex
                               (fst (md5Final (fold_left md5Update chunks st)))
                               (resultFormat settings) |}.
Proof.
  induction fuel as [| fuel IH]; intros st processed offset Hc Hlt Hfuel; [lia |].
  cbn [processChunk].
  pose proof (length_slice file offset c) as Hlen.
  pose proof (slice_skipn file offset c) as Hsplit.
  set (chunk := slice file offset (offset + c)) in *.
  assert (Hchunk : 0 < length chunk <= c) by lia.
  change (updateHash (JsHash "MD5" st) chunk)
    with (JsHash "MD5" (md5Update st chunk)).
  destruct (Nat.ltb_spec (offset + length chunk) (size file)) as [Hmore | Hdone].
  - destruct (IH (md5Update st chunk) (processed + length chunk)
                (offset + length chunk) Hc Hmore ltac:(lia))
      as (chunks & Hcat & Hall & Hrun).
    destruct (processChunk P settings fuel file "md5" c onProgress
                (JsHash "MD5" (md5Update st chunk)) (processed + length chunk)
                (offset + length chunk)) as [evs' out'].
    cbn [snd] in *. exists (chunk :: chunks). cbn [concat fold_left].
    rewrite Hcat, <- Hsplit. repeat split; [constructor; assumption | exact Hrun].
  - exists [chunk]. cbn [concat fold_left]. rewrite app_nil_r.
    assert (Hrest : skipn (offset + length chunk) (bytes file) = [])
      by (apply skipn_all2; unfold size in *; lia).
    rewrite Hrest, app_nil_r in Hsplit.
    repeat split; [symmetry; exact Hsplit | constructor; [exact Hchunk | constructor] |].
    unfold finalizeHash. change (String.eqb "MD5" "MD5") with true. cbv iota.
    destruct (md5Final (md5Update st chunk)) as [hashBytes st']. reflexivity.
Qed.

(** The reads of the two chunk loops follow one another from the offset at
    which the loop is entered to the end of the input. *)
Lemma processChunk_reads file algorithm c onProgress :
  forall fuel hashBuffer processed offset,
  0 < c -> offset < size file -> size file - offset <= fuel ->
  chunked c offset (size file)
    (read_ranges (fst (processChunk P settings fuel file algorithm c onProgress
                         hashBuffer processed offset))).
Proof.
  induction fuel as [| fuel IH]; intros hashBuffer processed offset Hc Hlt Hfuel;
    [lia |].
  cbn [processChunk].
  pose proof (length_slice file offset c) as Hlen.
  set (chunk := slice file offset (offset + c)) in *.
  change (EvRead offset (length chunk) :: EvUpdate algorithm (length chunk)
          :: progress onProgress (processed + length chunk) (size file))
    with ([EvRead offset (length chunk); EvUpdate algorithm (length chunk)]
          ++ progress onProgress (processed + length chunk) (size file)).
  destruct (Nat.ltb_spec (offset + length chunk) (size file)) as [Hmore | Hdone].
  - pose proof (IH (updateHash hashBuffer chunk) (processed + length chunk)
                  (offset + length chunk) Hc Hmore ltac:(lia)) as H.
    destruct (processChunk P settings fuel file algorithm c onProgress
                (updateHash hashBuffer chunk) (processed + length chunk)
                (offset + length chunk)) as [evs' out'].
    cbn [fst] in *. rewrite !read_ranges_app, read_ranges_progress.
    cbn [read_ranges flat_map app chunked].
    repeat split; [lia | | exact H].
    destruct (read_ranges evs'); [exact I | lia].
  - assert (Hevs : forall o : outcome HashResult,
               read_ranges (fst (([EvRead offset (length chunk);
                                   EvUpdate algorithm (length chunk)]
                                  ++ progress onProgress (processed + length chunk)
                                       (size file)), o))
               = [(offset, length chunk)]).
    { intros o. cbn [fst]. rewrite read_ranges_app, read_ranges_progress.
      reflexivity. }
    destruct (fst (finalizeHash P (updateHash hashBuffer chunk)));
      rewrite Hevs; cbn [chunked]; repeat split; lia.
Qed.

Lemma readNextChunk_reads file c onProgress : forall fuel chunks offset,
  0 < c -> offset < size file -> size file - offset <= fuel ->
  chunked c offset (size file)
    (read_ranges (fst (readNextChunk fuel file c onProgress chunks offset))).
Proof.
  induction fuel as [| fuel IH]; intros chunks offset Hc Hlt Hfuel; [lia |].
  cbn [readNextChunk].
  pose proof (length_slice file offset c) as Hlen.
  set (chunk := slice file offset (offset + c)) in *.
  change (EvRead offset (length chunk)
          :: progress onProgress (offset + length chunk) (size file))
    with ([EvRead offset (length chunk)]
          ++ progress onProgress (offset + length chunk) (size file)).
  destruct (Nat.ltb_spec (offset + length chunk) (size file)) as [Hmore | Hdone].
  - pose proof (IH (chunks ++ [chunk]) (offset + length chunk) Hc Hmore
                  ltac:(lia)) as H.
    destruct (readNextChunk fuel file c onProgress (chunks ++ [chunk])
                (offset + length chunk)) as [evs' out'].
    cbn [fst] in *. rewrite !read_ranges_app, read_ranges_progress.
    cbn [read_ranges flat_map app chunked].
    repeat split; [lia | | exact H].
    destruct (read_ranges evs'); [exact I | lia].
  - cbn [fst]. rewrite read_ranges_app, read_ranges_progress.
    cbn [read_ranges flat_map app chunked]. repeat split; lia.
Qed.

Lemma readFileAsArrayBuffer_reads file c onProgress :
  0 < c ->
  chunked c 0 (size file)
    (read_ranges (fst (readFileAsArrayBuffer file c onProgress))).
Proof.
  intros Hc. unfold readFileAsArrayBuffer.
  destruct (Nat.leb_spec (size file) c) as [Hsmall | Hlarge].
  - cbn [fst]. change (EvRead 0 (size file) :: progress onProgress (size file) (size file))
      with ([EvRead 0 (size file)] ++ progress onProgress (size file) (size file)).
    rewrite read_ranges_app, read_ranges_progress.
    cbn [read_ranges flat_map app chunked]. repeat split; lia.
  - apply readNextChunk_reads; lia.
Qed.

End Reading.

(** X5. For a positive chunk size [readFileAsArrayBuffer] resolves with
    exactly the bytes of the file, whatever the chunk size, and reads them
    in consecutive ranges from offset 0 to the end, each of the chunk size
    except possibly the last. *)
Theorem readFileAsArrayBuffer_round_trip (file : File) (c : nat) (onProgress : bool) :
  0 < c ->
  snd (readFileAsArrayBuffer file c onProgress) = Resolved (bytes file)
  /\ chunked c 0 (size file)
       (read_ranges (fst (readFileAsArrayBuffer file c onProgress))).
Proof.
  intros Hc. split;
    [apply readFileAsArrayBuffer_resolves | apply readFileAsArrayBuffer_reads];
    exact Hc.
Qed.

Lemma readFileAsArrayBuffer_round_trip_witness :
  snd (readFileAsArrayBuffer ten_bytes 4 false) = Resolved (bytes ten_bytes)
  /\ read_ranges (fst (readFileAsArrayBuffer ten_bytes 4 false))
     = [(0, 4); (4, 4); (8, 2)].
Proof.
  assert (Hc : 0 < 4) by lia.
  split; [exact (proj1 (readFileAsArrayBuffer_round_trip ten_bytes 4 false Hc)) |].
  reflexivity.
Defined.

Section DelegatedRuns.

Local Open Scope list_scope.

Variable P : Platform.
Variable settings : Settings.

Lemma createHashInstance_md5 :
  createHashInstance P "md5" = inr (JsHash "MD5" md5Init).
Proof. unfold createHashInstance. destruct (isCryptoSupported P); reflexivity. Qed.

Lemma calculateHash_digest_of file algorithm cryptoAlgo options :
  0 < option_chunkSize settings options ->
  isAlgorithmSupported algorithm = true ->
  prefix "hmac-" algorithm = false ->
  createHashInstance P algorithm = inr (CryptoHash cryptoAlgo None) ->
  snd (calculateHash P settings file algorithm options)
  = match subtle_digest P cryptoAlgo (Some (bytes file)) with
    | inr hash =>
        Resolved {| hr_algorithm := algorithm;
                    hash := bufferToHex hash (resultFormat settings) |}
    | inl message => Rejected message
    end.
Proof.
  intros Hc Hsup Hpre Hinst. unfold calculateHash.
  rewrite Hsup, Hpre, Hinst. cbn [negb].
  set (c := option_chunkSize settings options) in *.
  destruct (Nat.leb_spec (size file) c) as [Hsmall | Hlarge].
  - cbn [updateHash finalizeHash fst].
    destruct (subtle_digest P cryptoAlgo (Some (bytes file))); reflexivity.
  - rewrite processChunk_crypto by lia. reflexivity.
Qed.

Lemma calculateHash_hmac_of file algorithm base cryptoAlgo options :
  0 < option_chunkSize settings options ->
  isAlgorithmSupported algorithm = true ->
  prefix "hmac-" algorithm = true ->
  substring_from 5 algorithm = base ->
  ("hmac-" ++ base)%string = algorithm ->
  obj_get [("md5", "MD5"); ("sha1", "SHA-1"); ("sha256", "SHA-256")] base
  = Some cryptoAlgo ->
  let key := ascii_bytes match opt_hmacKey options with
                         | Some k => k
                         | None => ""
                         end in
  snd (calculateHash P settings file algorithm options)
  = match subtle_importKey P cryptoAlgo key with
    | Some message => Rejected message
    | None =>
        match subtle_sign P cryptoAlgo key (bytes file) with
        | inl message => Rejected message
        | inr hmacBuffer =>
            Resolved {| hr_algorithm := algorithm;
                        hash := bufferToHex hmacBuffer (resultFormat settings) |}
        end
    end.
Proof.
  intros Hc Hsup Hpre Hbase Hname Hmap key. unfold calculateHash.
  rewrite Hsup, Hpre, Hbase. cbn [negb]. unfold calculateHMAC.
  rewrite Hmap, Hname. fold key.
  destruct (subtle_importKey P cryptoAlgo key); [reflexivity |].
  pose proof (readFileAsArrayBuffer_resolves file
                (option_chunkSize settings options) (opt_onProgress options) Hc)
    as Hread.
  destruct (readFileAsArrayBuffer file (option_chunkSize settings options)
              (opt_onProgress options)) as [evs out].
  cbn [snd] in Hread. subst out.
  destruct (subtle_sign P cryptoAlgo key (bytes file)); reflexivity.
Qed.

End DelegatedRuns.

(** X6. With Web Crypto present and a positive chunk size, the sha1, sha256
    and sha512 computations hand the platform digest (under the names SHA-1,
    SHA-256, SHA-512) the whole content of the file, whatever the chunk size:
    the result is the hexadecimal rendering of what the platform returns, and
    the platform's rejection is the rejection of the computation. *)
Theorem calculateHash_sha_whole_file (P : Platform) (settings : Settings)
    (file : File) (algorithm cryptoAlgo : string) (options : Options) :
  isCryptoSupported P = true ->
  0 < option_chunkSize settings options ->
  In (algorithm, cryptoAlgo)
     [("sha1", "SHA-1"); ("sha256", "SHA-256"); ("sha512", "SHA-512")] ->
  snd (calculateHash P settings file algorithm options)
  = match subtle_digest P cryptoAlgo (Some (bytes file)) with
    | inr hash =>
        Resolved {| hr_algorithm := algorithm;
                    hash := bufferToHex hash (resultFormat settings) |}
    | inl message => Rejected message
    end.
Proof.
  intros Hcrypto Hc Hin.
  apply calculateHash_digest_of; try exact Hc;
    destruct Hin as [H | [H | [H | []]]]; inversion H; subst;
    try reflexivity;
    unfold createHashInstance; rewrite Hcrypto; reflexivity.
Qed.

Lemma calculateHash_sha_whole_file_witness :
  snd (calculateHash broken_crypto DEFAULT_SETTINGS ten_bytes "sha256"
         chunk4_options) = Rejected "OperationError".
Proof.
  assert (Hc : 0 < option_chunkSize DEFAULT_SETTINGS chunk4_options) by (cbn; lia).
  exact (calculateHash_sha_whole_file broken_crypto DEFAULT_SETTINGS ten_bytes
           "sha256" "SHA-256" chunk4_options eq_refl Hc
           (or_intror (or_introl eq_refl))).
Defined.

(** X7. For a positive chunk size the hmac-md5, hmac-sha1 and hmac-sha256
    computations import the bytes of the key string (the empty string when no
    key is given) for the hash MD5, SHA-1 or SHA-256 and sign the whole content
    of the file: the result is reported under the requested name, and a
    rejection of either platform call is the rejection of the computation. *)
Theorem calculateHash_hmac_whole_file (P : Platform) (settings : Settings)
    (file : File) (algorithm cryptoAlgo : string) (options : Options) :
  0 < option_chunkSize settings options ->
  In (algorithm, cryptoAlgo)
     [("hmac-md5", "MD5"); ("hmac-sha1", "SHA-1"); ("hmac-sha256", "SHA-256")] ->
  snd (calculateHash P settings file algorithm options)
  = match subtle_importKey P cryptoAlgo
            (ascii_bytes match opt_hmacKey options with
                         | Some k => k
                         | None => ""
                         end) with
    | Some message => Rejected message
    | None =>
        match subtle_sign P cryptoAlgo
                (ascii_bytes match opt_hmacKey options with
                             | Some k => k
                             | None => ""
                             end) (bytes file) with
        | inl message => Rejected message
        | inr hmacBuffer =>
            Resolved {| hr_algorithm := algorithm;
                        hash := bufferToHex hmacBuffer (resultFormat settings) |}
        end
    end.
Proof.
  intros Hc Hin.
  destruct Hin as [H | [H | [H | []]]]; inversion H; subst.
  - apply (calculateHash_hmac_of P settings file "hmac-md5" "md5" "MD5" options Hc);
      reflexivity.
  - apply (calculateHash_hmac_of P settings file "hmac-sha1" "sha1" "SHA-1" options Hc);
      reflexivity.
  - apply (calculateHash_hmac_of P settings file "hmac-sha256" "sha256" "SHA-256"
             options Hc); reflexivity.
Qed.

Lemma calculateHash_hmac_whole_file_witness :
  snd (calculateHash broken_crypto DEFAULT_SETTINGS ten_bytes "hmac-sha256"
         chunk4_options) = Rejected "NotSupportedError".
Proof.
  assert (Hc : 0 < option_chunkSize DEFAULT_SETTINGS chunk4_options) by (cbn; lia).
  exact (calculateHash_hmac_whole_file broken_crypto DEFAULT_SETTINGS ten_bytes
           "hmac-sha256" "SHA-256" chunk4_options Hc
           (or_intror (or_intror (or_introl eq_refl)))).
Defined.

(** X8. An algorithm name outside the supported list, and without Web Crypto
    also sha1, sha256 and sha512, is rejected as unsupported before anything
    is read from the file. *)
Theorem calculateHash_unsupported_reads_nothing (P : Platform) (settings : Settings)
    (file : File) (algorithm : string) (options : Options) :
  isAlgorithmSupported algorithm = false
  \/ (isCryptoSupported P = false /\ In algorithm ["sha1"; "sha256"; "sha512"]) ->
  calculateHash P settings file algorithm options
  = ([], Rejected ("不支持的算法: " ++ algorithm)).
Proof.
  intros [Hsup | [Hcrypto Hin]]; unfold calculateHash.
  - rewrite Hsup. reflexivity.
  - destruct Hin as [<- | [<- | [<- | []]]];
      unfold createHashInstance; rewrite Hcrypto; reflexivity.
Qed.

Lemma calculateHash_unsupported_reads_nothing_witness :
  calculateHash broken_crypto DEFAULT_SETTINGS ten_bytes "sha3" chunk4_options
  = ([], Rejected "不支持的算法: sha3").
Proof.
  exact (calculateHash_unsupported_reads_nothing broken_crypto DEFAULT_SETTINGS
           ten_bytes "sha3" chunk4_options (or_introl eq_refl)).
Defined.

(** X9. The md5 computation never depends on the platform: for a positive
    chunk size it runs the same on every platform, with or without Web Crypto,
    and resolves with the digest of an MD5 accumulator fed the bytes of the
    file in non-empty chunks of at most the chunk size. *)
Theorem calculateHash_md5_any_platform (P P' : Platform) (settings : Settings)
    (file : File) (options : Options) :
  0 < option_chunkSize settings options ->
  calculateHash P settings file "md5" options
  = calculateHash P' settings file "md5" options
  /\ exists chunks,
       concat chunks = bytes file
       /\ Forall (fun chunk => length chunk <= option_chunkSize settings options)
                 chunks
       /\ snd (calculateHash P settings file "md5" options)
          = Resolved {| hr_algorithm := "md5";
                        hash := bufferToHex (md5_digest chunks)
                                            (resultFormat settings) |}.
Proof.
  intros Hc. unfold calculateHash.
  set (c := option_chunkSize settings options) in *.
  change (isAlgorithmSupported "md5") with true.
  change (prefix "hmac-" "md5") with false. cbn [negb].
  rewrite !createHashInstance_md5.
  change (updateHash (JsHash "MD5" md5Init) (bytes file))
    with (JsHash "MD5" (md5Update md5Init (bytes file))).
  destruct (Nat.leb_spec (size file) c) as [Hsmall | Hlarge].
  - rewrite (finalizeHash_md5_platform P P'). split; [reflexivity |].
    exists [bytes file]. cbn [concat]. rewrite app_nil_r.
    repeat split; [constructor; [exact Hsmall | constructor] |].
    unfold finalizeHash. change (String.eqb "MD5" "MD5") with true. cbv iota.
    unfold md5_digest. cbn [fold_left].
    destruct (md5Final (md5Update md5Init (bytes file))) as [hashBytes st'].
    reflexivity.
  - split; [apply processChunk_md5_platform |].
    destruct (processChunk_md5_digest P settings file c (opt_onProgress options)
                (size file) md5Init 0 0 Hc ltac:(lia) ltac:(lia))
      as (chunks & Hcat & Hall & Hrun).
    exists chunks. repeat split; [exact Hcat | | exact Hrun].
    apply Forall_impl with (2 := Hall). intros chunk H. lia.
Qed.

Lemma calculateHash_md5_any_platform_witness :
  calculateHash broken_crypto DEFAULT_SETTINGS ten_bytes "md5" chunk4_options
  = calculateHash
      {| isCryptoSupported := false;
         subtle_digest := fun _ _ => inl "TypeError";
         subtle_importKey := fun _ _ => Some "TypeError";
         subtle_sign := fun _ _ _ => inl "TypeError" |}
      DEFAULT_SETTINGS ten_bytes "md5" chunk4_options.
Proof.
  assert (Hc : 0 < option_chunkSize DEFAULT_SETTINGS chunk4_options) by (cbn; lia).
  exact (proj1 (calculateHash_md5_any_platform broken_crypto _ DEFAULT_SETTINGS
                  ten_bytes chunk4_options Hc)).
Defined.

(** X10. For a positive chunk size a computation either stops before reading
    (unsupported name, no accumulator, key import rejected) and then produces
    no event at all, or it reads the file exactly once from offset 0 to its
    end in consecutive ranges without gap or overlap, each of the chunk size
    except possibly the last. *)
Theorem calculateHash_reads_whole_file_in_order (P : Platform) (settings : Settings)
    (file : File) (algorithm : string) (options : Options) :
  0 < option_chunkSize settings options ->
  if starts_reading P options algorithm
  then chunked (option_chunkSize settings options) 0 (size file)
         (read_ranges (fst (calculateHash P settings file algorithm options)))
  else fst (calculateHash P settings file algorithm options) = [].
Proof.
  intros Hc. unfold calculateHash, starts_reading.
  set (c := option_chunkSize settings options) in *.
  destruct (isAlgorithmSupported algorithm); cbn [negb andb]; [| reflexivity].
  destruct (prefix "hmac-" algorithm).
  - unfold calculateHMAC.
    destruct (obj_get _ (substring_from 5 algorithm)) as [cryptoAlgo |];
      [| reflexivity].
    destruct (subtle_importKey P cryptoAlgo _) as [message |]; [reflexivity |].
    pose proof (readFileAsArrayBuffer_reads file c (opt_onProgress options) Hc)
      as Hr.
    destruct (readFileAsArrayBuffer file c (opt_onProgress options))
      as [evs0 [fileBuffer | message |]]; cbn [fst] in *; try exact Hr.
    destruct (subtle_sign P cryptoAlgo _ fileBuffer); exact Hr.
  - destruct (createHashInstance P algorithm) as [message | hashBuffer];
      [reflexivity |].
    destruct (Nat.leb_spec (size file) c) as [Hsmall | Hlarge].
    + assert (Hone : chunked c 0 (size file) [(0, size file)])
        by (cbn [chunked]; repeat split; lia).
      destruct (fst (finalizeHash P (updateHash hashBuffer (bytes file))));
        cbn [fst]; [exact Hone |].
      rewrite read_ranges_app, read_ranges_progress. exact Hone.
    + apply processChunk_reads; lia.
Qed.

Lemma calculateHash_reads_whole_file_in_order_witness :
  chunked 4 0 10
    (read_ranges (fst (calculateHash broken_crypto DEFAULT_SETTINGS ten_bytes "md5"
                         chunk4_options))).
Proof.
  assert (Hc : 0 < option_chunkSize DEFAULT_SETTINGS chunk4_options) by (cbn; lia).
  exact (calculateHash_reads_whole_file_in_order broken_crypto DEFAULT_SETTINGS
           ten_bytes "md5" chunk4_options Hc).
Defined.

(** X11. For a file and a chunk size both below 2^28 bytes the md5 computation
    resolves with the digest that a single [md5Update] call over the whole
    content gives: reading in chunks does not change the digest. *)
Theorem calculateHash_md5_streaming (P : Platform) (settings : Settings)
    (file : File) (options : Options) :
  0 < option_chunkSize settings options ->
  (Z.of_nat (option_chunkSize settings options) < 2 ^ 28)%Z ->
  (Z.of_nat (size file) < 2 ^ 28)%Z ->
  snd (calculateHash P settings file "md5" options)
  = Resolved {| hr_algorithm := "md5";
                hash := bufferToHex (md5_bytes (bytes file))
                                    (resultFormat settings) |}.
Proof.
  intros Hc Hsmall Hfile.
  destruct (calculateHash_md5 P settings file options Hc Hsmall)
    as (chunks & Hcat & Hall & Hrun).
  rewrite Hrun.
  rewrite (md5_chunk_invariance chunks [bytes file]).
  - reflexivity.
  - cbn [concat]. rewrite app_nil_r. exact Hcat.
  - exact Hall.
  - constructor; [exact Hfile | constructor].
Qed.

Lemma calculateHash_md5_streaming_witness :
  snd (calculateHash broken_crypto DEFAULT_SETTINGS ten_bytes "md5" chunk4_options)
  = Resolved {| hr_algorithm := "md5";
                hash := bufferToHex (md5_bytes (bytes ten_bytes)) "lowercase" |}.
Proof.
  assert (Hc : 0 < option_chunkSize DEFAULT_SETTINGS chunk4_options) by (cbn; lia).
  assert (Hs : (Z.of_nat (option_chunkSize DEFAULT_SETTINGS chunk4_options) < 2 ^ 28)%Z)
    by (cbn; lia).
  assert (Hf : (Z.of_nat (size ten_bytes) < 2 ^ 28)%Z) by (cbn; lia).
  exact (calculateHash_md5_streaming broken_crypto DEFAULT_SETTINGS ten_bytes
           chunk4_options Hc Hs Hf).
Defined.

(** X12. Feeding an MD5 accumulator a sequence of chunks, each shorter than
    2^28 bytes and together fewer than 2^53 bytes (where the counter, a
    number of the language, is still exact), leaves the bit counter at eight
    times the number of bytes fed and the buffer index at that number modulo
    64, and [md5Final] writes that bit count little-endian into the last
    eight bytes of its padding. *)
Theorem md5Update_counts_bits (chunks : list Uint8Array) :
  Forall small_chunk chunks ->
  (Z.of_nat (length (concat chunks)) < 2 ^ 53)%Z ->
  count (fold_left md5Update chunks md5Init)
  = (8 * Z.of_nat (length (concat chunks)))%Z
  /\ bufferIndex_of (count (fold_left md5Update chunks md5Init))
     = length (concat chunks) mod 64
  /\ le_value (skipn 56 (snd (md5Final_pad (fold_left md5Update chunks md5Init))))
     = (8 * Z.of_nat (length (concat chunks)))%Z.
Proof.
  intros HF Htotal.
  destruct (md5_count_exact chunks HF) as [Hc Hle].
  split; [exact Hc |]. split; [| apply Hle; lia].
  apply md5_inv_index, (md5_inv_fold chunks md5Init []), md5_inv_init.
Qed.

Lemma md5Update_counts_bits_witness :
  count (fold_left md5Update [[1; 2]; [3]]%Z md5Init) = 24%Z
  /\ le_value (skipn 56 (snd (md5Final_pad
                                (fold_left md5Update [[1; 2]; [3]]%Z md5Init))))
     = 24%Z.
Proof.
  assert (HF : Forall small_chunk [[1; 2]; [3]]%Z) by (repeat constructor).
  assert (Htotal : (Z.of_nat (length (concat [[1; 2]; [3]]%Z)) < 2 ^ 53)%Z)
    by (cbn; lia).
  destruct (md5Update_counts_bits [[1; 2]; [3]]%Z HF Htotal) as (Hc & _ & Hle).
  split; [exact Hc | exact Hle].
Defined.

(** ** The report of [calculateMultipleHashes] *)

Section Reports.

Local Open Scope list_scope.

Variable P : Platform.
Variable settings : Settings.

Lemma obj_keys_set {V} (o : obj V) k v :
  obj_keys (obj_set o k v)
  = if existsb (String.eqb k) (obj_keys o) then obj_keys o else obj_keys o ++ [k].
Proof.
  induction o as [| [k0 v0] o IH]; [reflexivity |].
  cbn [obj_set obj_keys map fst existsb]. rewrite (String.eqb_sym k k0).
  destruct (String.eqb k0 k); cbn [orb map fst]; [reflexivity |].
  fold (obj_keys (obj_set o k v)). fold (obj_keys o). rewrite IH.
  destruct (existsb (String.eqb k) (obj_keys o)); reflexivity.
Qed.

Lemma keys_stored (out : string -> outcome HashResult) :
  (forall algorithm, out algorithm <> Pending) ->
  forall todo results,
    obj_keys (fold_left (fun results algorithm =>
                           store_slot results algorithm (out algorithm))
                        todo results)
    = fold_left (fun seen x =>
                   if existsb (String.eqb x) seen then seen else seen ++ [x])
                todo (obj_keys results).
Proof.
  intros Hs. induction todo as [| a todo IH]; intros results; [reflexivity |].
  cbn [fold_left]. rewrite IH. f_equal. unfold store_slot.
  specialize (Hs a).
  destruct (out a); cbn [slot_of]; [apply obj_keys_set .. | contradiction].
Qed.

Lemma processed_values_forward algorithm algorithms options evs :
  processed_values (forward_progress algorithm algorithms options evs)
  = if match algorithms with
       | first :: _ => String.eqb algorithm first && opt_onProgress options
       | [] => false
       end
    then processed_values evs else [].
Proof.
  unfold forward_progress.
  set (forwards := match algorithms with
                   | first :: _ => String.eqb algorithm first && opt_onProgress options
                   | [] => false
                   end).
  clearbody forwards.
  induction evs as [| e evs IH]; [destruct forwards; reflexivity |].
  destruct e as [offset len | a len | processed total]; cbn [filter].
  - exact IH.
  - exact IH.
  - destruct forwards; [| exact IH].
    change (processed :: processed_values (filter (fun e => match e with
                                                      | EvProgress _ _ => true
                                                      | _ => true
                                                      end) evs)
            = processed :: processed_values evs).
    f_equal. exact IH.
Qed.

Lemma processed_values_others algorithms options (run : string -> list event) first :
  forall todo,
    ~ In first todo ->
    processed_values
      (flat_map (fun algorithm =>
                   forward_progress algorithm (first :: algorithms) options
                                    (run algorithm))
                todo) = [].
Proof.
  induction todo as [| a todo IH]; intros Hnot; [reflexivity |].
  cbn [flat_map]. rewrite processed_values_app, processed_values_forward.
  destruct (String.eqb_spec a first) as [-> | _].
  - exfalso. apply Hnot. left. reflexivity.
  - cbn [andb app]. apply IH. intros H. apply Hnot. right. exact H.
Qed.

Lemma processed_values_runs file algorithms options first : forall todo,
  processed_values
    (flat_map
       (fun algorithm =>
          forward_progress algorithm (first :: algorithms) options
            (fst (calculateHash P settings file algorithm (inner_options options))))
       todo)
  = if opt_onProgress options
    then flat_map
           (fun algorithm =>
              if String.eqb algorithm first
              then processed_values
                     (fst (calculateHash P settings file first
                             (inner_options options)))
              else [])
           todo
    else [].
Proof.
  induction todo as [| a todo IH].
  - destruct (opt_onProgress options); reflexivity.
  - cbn [flat_map]. rewrite processed_values_app, processed_values_forward, IH.
    destruct (String.eqb_spec a first) as [-> | _];
      destruct (opt_onProgress options); reflexivity.
Qed.

End Reports.

(** X13. For a positive chunk size [calculateMultipleHashes] always resolves
    with a report that carries the name and the size of the file and one slot
    per distinct requested algorithm, in the order of first request; an
    algorithm name that is not supported does not fail the report: its slot
    holds the failure marker of the unsupported-algorithm error. *)
Theorem calculateMultipleHashes_report (P : Platform) (settings : Settings)
    (file : File) (algorithms : list string) (options : Options) :
  0 < option_chunkSize settings options ->
  Forall (fun algorithm => plain_key algorithm = true) algorithms ->
  exists evs report,
    calculateMultipleHashes P settings file algorithms options
    = (evs, Resolved report)
    /\ filename report = name file
    /\ rp_size report = size file
    /\ obj_keys (hashValues report) = first_seen algorithms
    /\ forall algorithm,
         In algorithm algorithms -> isAlgorithmSupported algorithm = false ->
         obj_get (hashValues report) algorithm
         = Some ("计算失败: 不支持的算法: " ++ algorithm)%string.
Proof.
  intros Hc _. unfold calculateMultipleHashes.
  rewrite (loop_run P settings file algorithms options Hc).
  eexists _, _. split; [reflexivity |]. cbn [filename rp_size hashValues].
  split; [reflexivity |]. split; [reflexivity |]. split.
  - apply (keys_stored
             (fun algorithm =>
                snd (calculateHash P settings file algorithm (inner_options options)))).
    intros algorithm. apply (run_settles P settings file options Hc).
  - intros algorithm Hin Hsup.
    rewrite (slots_stored P settings file options Hc).
    assert (Hex : existsb (String.eqb algorithm) algorithms = true).
    { apply existsb_exists. exists algorithm.
      split; [exact Hin | apply String.eqb_refl]. }
    rewrite Hex. unfold calculateHash. rewrite Hsup. reflexivity.
Qed.

Lemma calculateMultipleHashes_report_witness :
  exists evs report,
    calculateMultipleHashes broken_crypto DEFAULT_SETTINGS ten_bytes
      ["md5"; "sha3"; "md5"] chunk4_options = (evs, Resolved report)
    /\ obj_keys (hashValues report) = ["md5"; "sha3"]
    /\ obj_get (hashValues report) "sha3" = Some "计算失败: 不支持的算法: sha3".
Proof.
  assert (Hc : 0 < option_chunkSize DEFAULT_SETTINGS chunk4_options)
    by (cbn; lia).
  assert (Hplain : Forall (fun algorithm => plain_key algorithm = true)
                          ["md5"; "sha3"; "md5"])
    by (repeat constructor).
  destruct (calculateMultipleHashes_report broken_crypto DEFAULT_SETTINGS
              ten_bytes ["md5"; "sha3"; "md5"] chunk4_options Hc Hplain)
    as (evs & report & Hrun & _ & _ & Hkeys & Hslot).
  exists evs, report. split; [exact Hrun |]. split.
  - exact Hkeys.
  - exact (Hslot "sha3" (or_intror (or_introl eq_refl)) eq_refl).
Defined.

(** X14. The progress a caller of [calculateMultipleHashes] sees comes from
    the computations of the first requested algorithm name only: with a
    callback it is the progress sequence of that algorithm's own computation,
    once for every occurrence of the name in the list (so once when the name
    is requested once), and the computations of the other algorithms report
    nothing; without a callback nothing is reported. *)
Theorem calculateMultipleHashes_progress_of_first (P : Platform)
    (settings : Settings) (file : File) (first : string) (others : list string)
    (options : Options) :
  0 < option_chunkSize settings options ->
  processed_values
    (fst (calculateMultipleHashes P settings file (first :: others) options))
  = (if opt_onProgress options
     then flat_map
            (fun algorithm =>
               if String.eqb algorithm first
               then processed_values
                      (fst (calculateHash P settings file first
                              (inner_options options)))
               else [])
            (first :: others)
     else [])
  /\ (~ In first others ->
      processed_values
        (fst (calculateMultipleHashes P settings file (first :: others) options))
      = if opt_onProgress options
        then processed_values
               (fst (calculateHash P settings file first (inner_options options)))
        else []).
Proof.
  intros Hc. unfold calculateMultipleHashes.
  rewrite (loop_run P settings file (first :: others) options Hc).
  cbn [fst]. split.
  - apply (processed_values_runs P settings file others options first).
  - intros Hnot. cbn [flat_map].
    rewrite processed_values_app, processed_values_forward, String.eqb_refl.
    rewrite (processed_values_others others options
               (fun algorithm =>
                  fst (calculateHash P settings file algorithm
                         (inner_options options))))
      by exact Hnot.
    rewrite app_nil_r. reflexivity.
Qed.

Lemma calculateMultipleHashes_progress_of_first_witness :
  processed_values
    (fst (calculateMultipleHashes broken_crypto DEFAULT_SETTINGS ten_bytes
            ["md5"; "sha256"; "md5"] chunk4_options))
  = [4; 8; 10; 4; 8; 10].
Proof.
  assert (Hc : 0 < option_chunkSize DEFAULT_SETTINGS chunk4_options)
    by (cbn; lia).
  pose proof (proj1 (calculateMultipleHashes_progress_of_first broken_crypto
                       DEFAULT_SETTINGS ten_bytes "md5" ["sha256"; "md5"]
                       chunk4_options Hc)) as H.
  rewrite H. vm_compute. reflexivity.
Defined.

(** ** A chunk size of zero *)

Section ZeroChunk.

Local Open Scope list_scope.

Variable P : Platform.
Variable settings : Settings.

Lemma processChunk_zero file algorithm onProgress :
  forall fuel hashBuffer processed offset,
  offset < size file ->
  snd (processChunk P settings fuel file algorithm 0 onProgress hashBuffer
         processed offset) = Pending
  /\ Forall (fun range => range = (offset, 0))
       (read_ranges (fst (processChunk P settings fuel file algorithm 0 onProgress
                            hashBuffer processed offset))).
Proof.
  induction fuel as [| fuel IH]; intros hashBuffer processed offset Hlt.
  - split; [reflexivity | constructor].
  - cbn [processChunk].
    pose proof (length_slice file offset 0) as Hz. cbn [Nat.min] in Hz.
    set (chunk := slice file offset (offset + 0)) in *.
    rewrite Hz, !Nat.add_0_r.
    destruct (Nat.ltb_spec offset (size file)) as [_ | Hge]; [| lia].
    destruct (IH (updateHash hashBuffer chunk) processed offset Hlt) as [Hout Hreads].
    destruct (processChunk P settings fuel file algorithm 0 onProgress
                (updateHash hashBuffer chunk) processed offset) as [evs' out'].
    cbn [fst snd] in *. split; [exact Hout |].
    change (EvRead offset 0 :: EvUpdate algorithm 0
            :: progress onProgress processed (size file))
      with ([EvRead offset 0; EvUpdate algorithm 0]
            ++ progress onProgress processed (size file)).
    rewrite !read_ranges_app, read_ranges_progress.
    cbn [read_ranges flat_map app]. constructor; [reflexivity | exact Hreads].
Qed.

Lemma readNextChunk_zero file onProgress :
  forall fuel chunks offset,
  offset < size file ->
  snd (readNextChunk fuel file 0 onProgress chunks offset) = Pending
  /\ Forall (fun range => range = (offset, 0))
       (read_ranges (fst (readNextChunk fuel file 0 onProgress chunks offset))).
Proof.
  induction fuel as [| fuel IH]; intros chunks offset Hlt.
  - split; [reflexivity | constructor].
  - cbn [readNextChunk].
    pose proof (length_slice file offset 0) as Hz. cbn [Nat.min] in Hz.
    set (chunk := slice file offset (offset + 0)) in *.
    rewrite Hz, !Nat.add_0_r.
    destruct (Nat.ltb_spec offset (size file)) as [_ | Hge]; [| lia].
    destruct (IH (chunks ++ [chunk]) offset Hlt) as [Hout Hreads].
    destruct (readNextChunk fuel file 0 onProgress (chunks ++ [chunk]) offset)
      as [evs' out'].
    cbn [fst snd] in *. split; [exact Hout |].
    change (EvRead offset 0 :: progress onProgress offset (size file))
      with ([EvRead offset 0] ++ progress onProgress offset (size file)).
    rewrite !read_ranges_app, read_ranges_progress.
    cbn [read_ranges flat_map app]. constructor; [reflexivity | exact Hreads].
Qed.

Lemma calculateHash_zero file algorithm options :
  option_chunkSize settings options = 0 ->
  0 < size file ->
  starts_reading P options algorithm = true ->
  snd (calculateHash P settings file algorithm options) = Pending
  /\ Forall (fun range => range = (0, 0))
       (read_ranges (fst (calculateHash P settings file algorithm options))).
Proof.
  intros Hc Hsize. unfold calculateHash, starts_reading. rewrite Hc.
  destruct (isAlgorithmSupported algorithm); cbn [negb andb]; [| discriminate].
  destruct (prefix "hmac-" algorithm).
  - unfold calculateHMAC.
    destruct (obj_get _ (substring_from 5 algorithm)) as [cryptoAlgo |];
      [| discriminate].
    destruct (subtle_importKey P cryptoAlgo _) as [message |]; [discriminate |].
    intros _. unfold readFileAsArrayBuffer.
    destruct (Nat.leb_spec (size file) 0) as [Hle | _]; [lia |].
    destruct (readNextChunk_zero file (opt_onProgress options) (size file) [] 0 Hsize)
      as [Hout Hreads].
    destruct (readNextChunk (size file) file 0 (opt_onProgress options) [] 0)
      as [evs out].
    cbn [fst snd] in *. subst out. split; [reflexivity | exact Hreads].
  - destruct (createHashInstance P algorithm) as [message | hashBuffer];
      [discriminate |].
    intros _.
    destruct (Nat.leb_spec (size file) 0) as [Hle | _]; [lia |].
    apply processChunk_zero, Hsize.
Qed.

End ZeroChunk.

(** X15. With a chunk size of zero a computation that gets as far as reading
    a non-empty file never settles: the chunk loop reads the empty range at
    offset 0 again and again, however many steps it is given, so neither a
    digest nor an error is ever produced. *)
Theorem calculateHash_zero_chunk_never_settles (P : Platform) (settings : Settings)
    (file : File) (algorithm : string) (options : Options) :
  option_chunkSize settings options = 0 ->
  0 < size file ->
  starts_reading P options algorithm = true ->
  snd (calculateHash P settings file algorithm options) = Pending
  /\ (forall fuel hashBuffer processed,
        snd (processChunk P settings fuel file algorithm 0 (opt_onProgress options)
               hashBuffer processed 0) = Pending
        /\ Forall (fun range => range = (0, 0))
             (read_ranges
                (fst (processChunk P settings fuel file algorithm 0
                        (opt_onProgress options) hashBuffer processed 0))))
  /\ (forall fuel chunks,
        snd (readNextChunk fuel file 0 (opt_onProgress options) chunks 0) = Pending).
Proof.
  intros Hc Hsize Hstart. split; [| split].
  - apply calculateHash_zero; assumption.
  - intros fuel hashBuffer processed. apply processChunk_zero, Hsize.
  - intros fuel chunks. apply readNextChunk_zero, Hsize.
Qed.

Lemma calculateHash_zero_chunk_never_settles_witness :
  snd (calculateHash broken_crypto DEFAULT_SETTINGS ten_bytes "md5"
         {| opt_chunkSize := Some 0; opt_onProgress := true; opt_hmacKey := None |})
  = Pending.
Proof.
  assert (Hsize : 0 < size ten_bytes) by (cbn; lia).
  exact (proj1 (calculateHash_zero_chunk_never_settles broken_crypto
                  DEFAULT_SETTINGS ten_bytes "md5"
                  {| opt_chunkSize := Some 0; opt_onProgress := true;
                     opt_hmacKey := None |}
                  eq_refl Hsize eq_refl)).
Defined.

(** ** The groups are a partition of the batch *)

Section Partition.

Local Open Scope list_scope.

Lemma concat_insert {A} (f : string -> list A) (x : A) (k : string) :
  forall keys,
    NoDup keys -> In k keys ->
    Permutation
      (concat (map (fun h => (if String.eqb k h then [x] else []) ++ f h) keys))
      (x :: concat (map f keys)).
Proof.
  induction keys as [| h keys IH]; intros Hnd Hin; [destruct Hin |].
  inversion Hnd as [| ? ? Hh Hks]; subst. cbn [map concat].
  destruct (String.eqb_spec k h) as [-> | Hne].
  - cbn [app]. apply perm_skip, Permutation_app_head.
    assert (E : map (fun h0 => (if String.eqb h h0 then [x] else []) ++ f h0) keys
                = map f keys).
    { apply map_ext_in. intros h0 Hh0.
      destruct (String.eqb_spec h h0) as [-> | _]; [contradiction | reflexivity]. }
    rewrite E. apply Permutation_refl.
  - cbn [app]. destruct Hin as [-> | Hin]; [contradiction |].
    apply Permutation_trans with (f h ++ x :: concat (map f keys)).
    + apply Permutation_app_head, IH; assumption.
    + apply Permutation_sym, Permutation_middle.
Qed.

Lemma members_cons algorithm hash r l :
  members algorithm hash (r :: l)
  = (if String.eqb (FileHandler.digest_key algorithm r) hash
     then [filename r] else [])
    ++ members algorithm hash l.
Proof.
  unfold members. cbn [filter].
  destruct (String.eqb (FileHandler.digest_key algorithm r) hash); reflexivity.
Qed.

Lemma members_partition algorithm keys :
  NoDup keys ->
  forall l,
    (forall r, In r l -> In (FileHandler.digest_key algorithm r) keys) ->
    Permutation (concat (map (fun hash => members algorithm hash l) keys))
                (map filename l).
Proof.
  intros Hnd. induction l as [| r l IH]; intros Hall.
  - assert (E : concat (map (fun hash => members algorithm hash []) keys) = []).
    { clear. induction keys as [| h keys IH]; [reflexivity | exact IH]. }
    rewrite E. apply Permutation_refl.
  - assert (E : map (fun hash => members algorithm hash (r :: l)) keys
                = map (fun hash =>
                         (if String.eqb (FileHandler.digest_key algorithm r) hash
                          then [filename r] else [])
                         ++ members algorithm hash l) keys).
    { apply map_ext. intros hash. apply members_cons. }
    rewrite E. cbn [map].
    apply Permutation_trans
      with (filename r :: concat (map (fun hash => members algorithm hash l) keys)).
    + apply (concat_insert (fun hash => members algorithm hash l));
        [exact Hnd | apply Hall; left; reflexivity].
    + apply perm_skip, IH. intros r' Hr'. apply Hall. right. exact Hr'.
Qed.

Lemma In_members algorithm r l :
  In r l -> In (filename r) (members algorithm (FileHandler.digest_key algorithm r) l).
Proof.
  intros Hin. unfold members. apply in_map, filter_In.
  split; [exact Hin | apply String.eqb_refl].
Qed.

End Partition.

(** X16. For every algorithm the groups [compareMultipleFiles] builds are a
    partition of the batch: the group keys are pairwise distinct, no group is
    empty, every report is listed in the group of its own digest string, and
    the groups together list every report exactly once. *)
Theorem hashGroups_partition (algorithm : string) (calculationResults : list Report) :
  Forall (fun result => plain_key (FileHandler.digest_key algorithm result) = true)
         calculationResults ->
  NoDup (obj_keys (FileHandler.hashGroups algorithm calculationResults))
  /\ (forall hash files,
        In (hash, files) (FileHandler.hashGroups algorithm calculationResults) ->
        files <> [])
  /\ (forall result,
        In result calculationResults ->
        exists files,
          obj_get (FileHandler.hashGroups algorithm calculationResults)
                  (FileHandler.digest_key algorithm result) = Some files
          /\ In (filename result) files)
  /\ Permutation
       (concat (map snd (FileHandler.hashGroups algorithm calculationResults)))
       (map filename calculationResults).
Proof.
  intros _. rewrite hashGroups_spec.
  set (keys := first_seen (map (FileHandler.digest_key algorithm) calculationResults)).
  assert (Hkeys : forall r, In r calculationResults ->
                            In (FileHandler.digest_key algorithm r) keys).
  { intros r Hr. apply In_first_seen, in_map, Hr. }
  split; [| split; [| split]].
  - unfold obj_keys. rewrite map_map. cbn [fst]. rewrite map_id.
    apply NoDup_first_seen.
  - intros hash files Hin. apply in_map_iff in Hin.
    destruct Hin as (h & Heq & Hh). inversion Heq; subst.
    apply In_first_seen, in_map_iff in Hh. destruct Hh as (r & <- & Hr).
    intros Hnil. pose proof (In_members algorithm r calculationResults Hr) as H.
    rewrite Hnil in H. destruct H.
  - intros result Hr. eexists. split.
    + rewrite (obj_get_keyed (fun hash => members algorithm hash calculationResults)).
      assert (Hex : existsb (String.eqb (FileHandler.digest_key algorithm result)) keys
                    = true) by (apply existsb_eqb_In, Hkeys, Hr).
      rewrite Hex. reflexivity.
    + apply In_members, Hr.
  - rewrite map_map. cbn [snd].
    apply members_partition; [apply NoDup_first_seen | exact Hkeys].
Qed.

Lemma hashGroups_partition_witness :
  Permutation
    (concat (map snd (FileHandler.hashGroups "md5" [report_lower; report_upper])))
    ["a.txt"; "b.txt"]%string.
Proof.
  assert (Hplain : Forall (fun result =>
                             plain_key (FileHandler.digest_key "md5" result) = true)
                          [report_lower; report_upper])
    by (repeat constructor).
  exact (proj2 (proj2 (proj2 (hashGroups_partition "md5"
                                [report_lower; report_upper] Hplain)))).
Defined.

(** X17. [compareMultipleFiles] shows nothing for fewer than two reports;
    for two or more it shows one comparison for every algorithm that occurs
    in some report, each once, in the order of first occurrence. *)
Theorem compareMultipleFiles_algorithms (calculationResults : list Report) :
  Forall (fun result =>
            Forall (fun algorithm => plain_key algorithm = true)
                   (obj_keys (hashValues result)))
         calculationResults ->
  (length calculationResults < 2 ->
   FileHandler.compareMultipleFiles calculationResults = [])
  /\ (2 <= length calculationResults ->
      map fst (FileHandler.compareMultipleFiles calculationResults)
      = first_seen (flat_map (fun result => obj_keys (hashValues result))
                             calculationResults)
      /\ NoDup (map fst (FileHandler.compareMultipleFiles calculationResults))
      /\ forall algorithm,
           In algorithm (map fst (FileHandler.compareMultipleFiles calculationResults))
           <-> exists result,
                 In result calculationResults
                 /\ In algorithm (obj_keys (hashValues result))).
Proof.
  intros _. unfold FileHandler.compareMultipleFiles. split.
  - intros Hlt.
    destruct (Nat.ltb_spec (length calculationResults) 2) as [_ | Hge];
      [reflexivity | lia].
  - intros Hge.
    destruct (Nat.ltb_spec (length calculationResults) 2) as [Hlt | _]; [lia |].
    rewrite map_map. cbn [fst]. rewrite map_id.
    change (FileHandler.algorithms_of calculationResults)
      with (first_seen (flat_map (fun result => obj_keys (hashValues result))
                                 calculationResults)).
    split; [reflexivity |]. split; [apply NoDup_first_seen |].
    intros algorithm. rewrite In_first_seen, in_flat_map. reflexivity.
Qed.

Lemma compareMultipleFiles_algorithms_witness :
  map fst (FileHandler.compareMultipleFiles [report_lower; report_upper])
  = ["md5"]%string.
Proof.
  assert (Hplain : Forall (fun result =>
                             Forall (fun algorithm => plain_key algorithm = true)
                                    (obj_keys (hashValues result)))
                          [report_lower; report_upper])
    by (repeat constructor).
  assert (Hlen : 2 <= length [report_lower; report_upper]) by (cbn; lia).
  exact (proj1 (proj2 (compareMultipleFiles_algorithms
                         [report_lower; report_upper] Hplain) Hlen)).
Defined.

(** ** The batch driver *)

Section Batch.

Local Open Scope list_scope.

Variable P : Platform.
Variable settings : Settings.
Variable selectedAlgorithms : list string.
Hypothesis chunkSize_positive : 0 < chunkSize settings.

Lemma calculateMultipleHashes_run file :
  calculateMultipleHashes P settings file selectedAlgorithms start_options
  = (flat_map
       (fun algorithm =>
          forward_progress algorithm selectedAlgorithms start_options
            (fst (calculateHash P settings file algorithm
                    (inner_options start_options))))
       selectedAlgorithms,
     Resolved (report_of P settings selectedAlgorithms start_options file)).
Proof.
  unfold calculateMultipleHashes.
  rewrite (loop_run P settings file selectedAlgorithms start_options
             chunkSize_positive).
  reflexivity.
Qed.

Lemma startCalculation_loop_run : forall files calculationResults,
  startCalculation_loop P settings selectedAlgorithms files calculationResults
  = (flat_map
       (fun file =>
          fst (calculateMultipleHashes P settings file selectedAlgorithms
                 start_options))
       files,
     calculationResults
     ++ map (report_of P settings selectedAlgorithms start_options) files,
     Resolved tt).
Proof.
  induction files as [| file files IH]; intros calculationResults.
  - cbn [startCalculation_loop flat_map map]. rewrite app_nil_r. reflexivity.
  - cbn [startCalculation_loop flat_map map].
    rewrite calculateMultipleHashes_run, IH. cbn [fst].
    rewrite <- app_assoc. reflexivity.
Qed.

Lemma report_slot file algorithm :
  In algorithm selectedAlgorithms ->
  obj_get (hashValues (report_of P settings selectedAlgorithms start_options file))
          algorithm
  = slot_of (snd (calculateHash P settings file algorithm
                    (inner_options start_options))).
Proof.
  intros Hin. unfold report_of. cbn [hashValues].
  rewrite (slots_stored P settings file start_options chunkSize_positive).
  assert (Hex : existsb (String.eqb algorithm) selectedAlgorithms = true).
  { apply existsb_exists. exists algorithm.
    split; [exact Hin | apply String.eqb_refl]. }
  rewrite Hex. reflexivity.
Qed.

Lemma report_keys file :
  obj_keys (hashValues (report_of P settings selectedAlgorithms start_options file))
  = first_seen selectedAlgorithms.
Proof.
  unfold report_of. cbn [hashValues].
  apply (keys_stored
           (fun algorithm =>
              snd (calculateHash P settings file algorithm
                     (inner_options start_options)))).
  intros algorithm.
  apply (run_settles P settings file start_options chunkSize_positive).
Qed.

Lemma startCalculation_run selectedFiles calculationResults :
  selectedAlgorithms <> [] -> selectedFiles <> [] ->
  startCalculation P settings selectedAlgorithms selectedFiles calculationResults
  = {| st_events :=
         flat_map
           (fun file =>
              fst (calculateMultipleHashes P settings file selectedAlgorithms
                     start_options))
           selectedFiles;
       st_calculationResults :=
         map (report_of P settings selectedAlgorithms start_options) selectedFiles;
       st_notice := Some (Completed (length selectedFiles));
       st_comparison :=
         if 1 <? length selectedFiles
         then FileHandler.compareMultipleFiles
                (map (report_of P settings selectedAlgorithms start_options)
                     selectedFiles)
         else [] |}.
Proof.
  intros Ha Hf. unfold startCalculation.
  destruct (Nat.eqb_spec (length selectedAlgorithms) 0) as [E | _];
    [apply length_zero_iff_nil in E; contradiction |].
  destruct (Nat.eqb_spec (length selectedFiles) 0) as [E | _];
    [apply length_zero_iff_nil in E; contradiction |].
  rewrite startCalculation_loop_run. reflexivity.
Qed.

End Batch.

(** X18. A call of [startCalculation] with no algorithm or no file selected
    only warns and leaves the earlier results in place.  Otherwise, for a
    positive chunk size in the settings, it discards the earlier results,
    processes the selected files one after the other and leaves exactly one
    report per file, in the order of the files, each the report
    [calculateMultipleHashes] resolves with for that file under the chunk
    size of the settings; it then announces the number of files. *)
Theorem startCalculation_one_report_per_file (P : Platform) (settings : Settings)
    (selectedAlgorithms : list string) (selectedFiles : list File)
    (calculationResults : list Report) :
  0 < chunkSize settings ->
  Forall (fun algorithm => plain_key algorithm = true) selectedAlgorithms ->
  (selectedAlgorithms = [] ->
   startCalculation P settings selectedAlgorithms selectedFiles calculationResults
   = {| st_events := []; st_calculationResults := calculationResults;
        st_notice := Some SelectAlgorithm; st_comparison := [] |})
  /\ (selectedAlgorithms <> [] -> selectedFiles = [] ->
      startCalculation P settings selectedAlgorithms selectedFiles calculationResults
      = {| st_events := []; st_calculationResults := calculationResults;
           st_notice := Some SelectFile; st_comparison := [] |})
  /\ (selectedAlgorithms <> [] -> selectedFiles <> [] ->
      st_notice (startCalculation P settings selectedAlgorithms selectedFiles
                   calculationResults)
      = Some (Completed (length selectedFiles))
      /\ Forall2
           (fun file report =>
              snd (calculateMultipleHashes P settings file selectedAlgorithms
                     start_options) = Resolved report
              /\ filename report = name file
              /\ obj_keys (hashValues report) = first_seen selectedAlgorithms)
           selectedFiles
           (st_calculationResults
              (startCalculation P settings selectedAlgorithms selectedFiles
                 calculationResults))
      /\ st_events (startCalculation P settings selectedAlgorithms selectedFiles
                      calculationResults)
         = flat_map
             (fun file =>
                fst (calculateMultipleHashes P settings file selectedAlgorithms
                       start_options))
             selectedFiles).
Proof.
  intros Hc _. split; [| split].
  - intros ->. reflexivity.
  - intros Ha ->. unfold startCalculation.
    destruct selectedAlgorithms; [contradiction | reflexivity].
  - intros Ha Hf.
    rewrite (startCalculation_run P settings selectedAlgorithms Hc
               selectedFiles calculationResults Ha Hf).
    cbn [st_notice st_calculationResults st_events].
    split; [reflexivity |]. split; [| reflexivity].
    clear Hf. induction selectedFiles as [| file files IH]; cbn [map];
      constructor; [| exact IH].
    rewrite (calculateMultipleHashes_run P settings selectedAlgorithms Hc file).
    split; [reflexivity |]. split; [reflexivity |].
    apply report_keys, Hc.
Qed.

Lemma startCalculation_one_report_per_file_witness :
  st_notice (startCalculation broken_crypto DEFAULT_SETTINGS ["sha256"]
               [empty_a; empty_b] [report_lower])
  = Some (Completed 2)
  /\ Forall2
       (fun file report =>
          snd (calculateMultipleHashes broken_crypto DEFAULT_SETTINGS file
                 ["sha256"] start_options) = Resolved report
          /\ filename report = name file
          /\ obj_keys (hashValues report) = first_seen ["sha256"])
       [empty_a; empty_b]
       (st_calculationResults
          (startCalculation broken_crypto DEFAULT_SETTINGS ["sha256"]
             [empty_a; empty_b] [report_lower])).
Proof.
  assert (Hc : 0 < chunkSize DEFAULT_SETTINGS)
    by (unfold DEFAULT_SETTINGS; cbn [chunkSize]; lia).
  assert (Hplain : Forall (fun algorithm => plain_key algorithm = true) ["sha256"])
    by (repeat constructor).
  assert (Ha : ["sha256"] <> @nil string) by discriminate.
  assert (Hf : [empty_a; empty_b] <> []) by discriminate.
  destruct (proj2 (proj2 (startCalculation_one_report_per_file broken_crypto
                            DEFAULT_SETTINGS ["sha256"] [empty_a; empty_b]
                            [report_lower] Hc Hplain)) Ha Hf)
    as (Hnotice & Hreports & _).
  split; [exact Hnotice | exact Hreports].
Defined.

Section BatchSlots.

Local Open Scope list_scope.

Variable P : Platform.
Variable settings : Settings.
Variable selectedAlgorithms : list string.
Hypothesis chunkSize_positive : 0 < chunkSize settings.

Lemma In_not_nil {A} (x : A) l : In x l -> l <> [].
Proof. intros Hin ->. destruct Hin. Qed.

Lemma startCalculation_results selectedFiles calculationResults :
  selectedAlgorithms <> [] -> selectedFiles <> [] ->
  st_calculationResults
    (startCalculation P settings selectedAlgorithms selectedFiles calculationResults)
  = map (report_of P settings selectedAlgorithms start_options) selectedFiles.
Proof.
  intros Ha Hf.
  rewrite (startCalculation_run P settings selectedAlgorithms chunkSize_positive
             selectedFiles calculationResults Ha Hf).
  reflexivity.
Qed.

Lemma digest_key_rejected file algorithm message :
  In algorithm selectedAlgorithms ->
  snd (calculateHash P settings file algorithm (inner_options start_options))
  = Rejected message ->
  FileHandler.digest_key algorithm
    (report_of P settings selectedAlgorithms start_options file)
  = ("计算失败: " ++ message)%string.
Proof.
  intros Hin Hrun. unfold FileHandler.digest_key.
  rewrite (report_slot P settings selectedAlgorithms chunkSize_positive file
             algorithm Hin), Hrun.
  reflexivity.
Qed.

End BatchSlots.

(** X19. [startCalculation] never passes a key: for every selected file the
    slot of a selected HMAC algorithm is what the platform returns for the
    empty key, the hexadecimal rendering of the signature of the file's
    content or the failure marker of the platform's rejection. *)
Theorem startCalculation_hmac_empty_key (P : Platform) (settings : Settings)
    (selectedAlgorithms : list string) (selectedFiles : list File)
    (calculationResults : list Report) (file : File)
    (algorithm cryptoAlgo : string) :
  0 < chunkSize settings ->
  In file selectedFiles ->
  In algorithm selectedAlgorithms ->
  In (algorithm, cryptoAlgo)
     [("hmac-md5", "MD5"); ("hmac-sha1", "SHA-1"); ("hmac-sha256", "SHA-256")] ->
  exists report,
    In report
       (st_calculationResults
          (startCalculation P settings selectedAlgorithms selectedFiles
             calculationResults))
    /\ filename report = name file
    /\ obj_get (hashValues report) algorithm
       = Some match subtle_importKey P cryptoAlgo [] with
              | Some message => ("计算失败: " ++ message)%string
              | None =>
                  match subtle_sign P cryptoAlgo [] (bytes file) with
                  | inl message => ("计算失败: " ++ message)%string
                  | inr hmacBuffer => bufferToHex hmacBuffer (resultFormat settings)
                  end
              end.
Proof.
  intros Hc Hfile Halg Hhmac.
  exists (report_of P settings selectedAlgorithms start_options file).
  split; [| split; [reflexivity |]].
  - rewrite (startCalculation_results P settings selectedAlgorithms Hc
               selectedFiles calculationResults
               (In_not_nil _ _ Halg) (In_not_nil _ _ Hfile)).
    apply in_map, Hfile.
  - rewrite (report_slot P settings selectedAlgorithms Hc file algorithm Halg).
    assert (Hrun :
              snd (calculateHash P settings file algorithm
                     (inner_options start_options))
              = match subtle_importKey P cryptoAlgo [] with
                | Some message => Rejected message
                | None =>
                    match subtle_sign P cryptoAlgo [] (bytes file) with
                    | inl message => Rejected message
                    | inr hmacBuffer =>
                        Resolved {| hr_algorithm := algorithm;
                                    hash := bufferToHex hmacBuffer
                                                        (resultFormat settings) |}
                    end
                end).
    { destruct Hhmac as [H | [H | [H | []]]]; inversion H; subst.
      - apply (calculateHash_hmac_of P settings file "hmac-md5" "md5" "MD5"
                 (inner_options start_options) Hc); reflexivity.
      - apply (calculateHash_hmac_of P settings file "hmac-sha1" "sha1" "SHA-1"
                 (inner_options start_options) Hc); reflexivity.
      - apply (calculateHash_hmac_of P settings file "hmac-sha256" "sha256" "SHA-256"
                 (inner_options start_options) Hc); reflexivity. }
    rewrite Hrun.
    destruct (subtle_importKey P cryptoAlgo []); [reflexivity |].
    destruct (subtle_sign P cryptoAlgo [] (bytes file)); reflexivity.
Qed.

Lemma startCalculation_hmac_empty_key_witness :
  exists report,
    In report
       (st_calculationResults
          (startCalculation broken_crypto DEFAULT_SETTINGS ["hmac-sha256"]
             [ten_bytes] []))
    /\ filename report = "ten.bin"
    /\ obj_get (hashValues report) "hmac-sha256"
       = Some "计算失败: NotSupportedError".
Proof.
  assert (Hc : 0 < chunkSize DEFAULT_SETTINGS)
    by (unfold DEFAULT_SETTINGS; cbn [chunkSize]; lia).
  exact (startCalculation_hmac_empty_key broken_crypto DEFAULT_SETTINGS
           ["hmac-sha256"] [ten_bytes] [] ten_bytes "hmac-sha256" "SHA-256" Hc
           (or_introl eq_refl) (or_introl eq_refl)
           (or_intror (or_intror (or_introl eq_refl)))).
Defined.

(** X20. Failure markers are compared like digests: when the computation of a
    selected algorithm is rejected with the same message for every one of two
    or more selected files, the comparison [startCalculation] renders
    declares the files identical for that algorithm. *)
Theorem startCalculation_failures_compare_equal (P : Platform) (settings : Settings)
    (selectedAlgorithms : list string) (selectedFiles : list File)
    (calculationResults : list Report) (algorithm message : string) :
  0 < chunkSize settings ->
  Forall (fun algorithm => plain_key algorithm = true) selectedAlgorithms ->
  2 <= length selectedFiles ->
  In algorithm selectedAlgorithms ->
  (forall file,
     In file selectedFiles ->
     snd (calculateHash P settings file algorithm (inner_options start_options))
     = Rejected message) ->
  In (algorithm, FileHandler.AllSame)
     (st_comparison
        (startCalculation P settings selectedAlgorithms selectedFiles
           calculationResults)).
Proof.
  intros Hc _ Hlen Halg Hrej.
  assert (Hf : selectedFiles <> []) by (intros ->; cbn in Hlen; lia).
  rewrite (startCalculation_run P settings selectedAlgorithms Hc selectedFiles
             calculationResults (In_not_nil _ _ Halg) Hf).
  cbn [st_comparison].
  destruct (Nat.ltb_spec 1 (length selectedFiles)) as [_ | Hle]; [| lia].
  set (results := map (report_of P settings selectedAlgorithms start_options)
                      selectedFiles).
  assert (Hkey : forall r, In r results ->
                           FileHandler.digest_key algorithm r
                           = ("计算失败: " ++ message)%string).
  { intros r Hr. apply in_map_iff in Hr. destruct Hr as (file & <- & Hfile).
    apply (digest_key_rejected P settings selectedAlgorithms Hc file algorithm
             message Halg), Hrej, Hfile. }
  assert (Hsame : FileHandler.allSame algorithm results = true).
  { unfold FileHandler.allSame. rewrite hashGroups_spec.
    unfold obj_keys. rewrite map_map. cbn [fst]. rewrite map_id.
    apply Nat.eqb_eq, first_seen_single. split.
    - unfold results. destruct selectedFiles; [contradiction | discriminate].
    - intros x y Hx Hy. apply in_map_iff in Hx, Hy.
      destruct Hx as (r1 & <- & H1), Hy as (r2 & <- & H2).
      rewrite (Hkey r1 H1), (Hkey r2 H2). reflexivity. }
  unfold FileHandler.compareMultipleFiles.
  assert (Hlen' : length results = length selectedFiles) by apply length_map.
  destruct (Nat.ltb_spec (length results) 2) as [Hlt | _]; [lia |].
  apply in_map_iff. exists algorithm. rewrite Hsame. split; [reflexivity |].
  change (FileHandler.algorithms_of results)
    with (first_seen (flat_map (fun result => obj_keys (hashValues result)) results)).
  apply In_first_seen, in_flat_map.
  destruct selectedFiles as [| file files]; [contradiction |].
  exists (report_of P settings selectedAlgorithms start_options file).
  split; [left; reflexivity |].
  rewrite (report_keys P settings selectedAlgorithms Hc file).
  apply In_first_seen, Halg.
Qed.

Lemma startCalculation_failures_compare_equal_witness :
  In ("sha256", FileHandler.AllSame)
     (st_comparison
        (startCalculation broken_crypto DEFAULT_SETTINGS ["sha256"]
           [empty_a; ten_bytes] [])).
Proof.
  assert (Hc : 0 < chunkSize DEFAULT_SETTINGS)
    by (unfold DEFAULT_SETTINGS; cbn [chunkSize]; lia).
  assert (Hplain : Forall (fun algorithm => plain_key algorithm = true) ["sha256"])
    by (repeat constructor).
  assert (Hlen : 2 <= length [empty_a; ten_bytes]) by (cbn; lia).
  assert (Hrej : forall file,
             In file [empty_a; ten_bytes] ->
             snd (calculateHash broken_crypto DEFAULT_SETTINGS file "sha256"
                    (inner_options start_options))
             = Rejected "OperationError").
  { intros file [<- | [<- | []]]; reflexivity. }
  exact (startCalculation_failures_compare_equal broken_crypto DEFAULT_SETTINGS
           ["sha256"] [empty_a; ten_bytes] [] "sha256" "OperationError"
           Hc Hplain Hlen (or_introl eq_refl) Hrej).
Defined.

(** ** Highlighting the difference of two digests *)

Section Highlighting.

Local Open Scope string_scope.
Local Open Scope nat_scope.

Lemma append_empty_r (s : string) : s ++ "" = s.
Proof. induction s as [| c s IH]; cbn; [reflexivity | rewrite IH; reflexivity]. Qed.

Lemma append_assoc_string (a b c : string) : (a ++ b) ++ c = a ++ (b ++ c).
Proof. induction a as [| x a IH]; cbn; [reflexivity | rewrite IH; reflexivity]. Qed.

Lemma append_inj_l (p a b : string) : p ++ a = p ++ b -> a = b.
Proof.
  induction p as [| c p IH]; cbn; intros H; [exact H |].
  inversion H. apply IH. assumption.
Qed.

Lemma get_append_here (p : string) c t :
  String.get (String.length p) (p ++ String c t) = Some c.
Proof. induction p as [| x p IH]; cbn; [reflexivity | exact IH]. Qed.

Lemma substring_whole (r : string) : substring 0 (String.length r) r = r.
Proof. induction r as [| c r IH]; cbn; [reflexivity | rewrite IH; reflexivity]. Qed.

Lemma substring_from_append (p r : string) :
  substring_from (String.length p) (p ++ r) = r.
Proof.
  unfold substring_from. rewrite length_append_string.
  replace (String.length p + String.length r - String.length p)
    with (String.length r) by lia.
  induction p as [| c p IH]; cbn; [apply substring_whole | exact IH].
Qed.

Lemma highlightDifferences_loop_spec : forall fuel p t1 t2,
  String.length t1 <= fuel ->
  exists q r1 r2,
    t1 = q ++ r1 /\ t2 = q ++ r2 /\ differ_at_once r1 r2
    /\ Utils.highlightDifferences_loop fuel (p ++ t1) (p ++ t2) p p (String.length p)
       = (p ++ q, p ++ q, String.length p + String.length q).
Proof.
  induction fuel as [| fuel IH]; intros p t1 t2 Hlen.
  - destruct t1 as [| c1 t1]; [| cbn in Hlen; lia].
    exists "", "", t2. cbn [Utils.highlightDifferences_loop String.length append].
    rewrite append_empty_r, Nat.add_0_r. repeat split; try exact I.
  - cbn [Utils.highlightDifferences_loop].
    destruct t1 as [| c1 t1].
    { exists "", "", t2. rewrite !append_empty_r, Nat.ltb_irrefl, Nat.add_0_r.
      cbn [andb append]. repeat split; try exact I. }
    destruct t2 as [| c2 t2].
    { exists "", (String c1 t1), "".
      rewrite (append_empty_r p), Nat.ltb_irrefl, andb_false_r, Nat.add_0_r.
      cbn [andb append]. repeat split; try exact I. }
    rewrite !get_append_here.
    assert (H1 : (String.length p <? String.length (p ++ String c1 t1)) = true)
      by (apply Nat.ltb_lt; rewrite length_append_string; cbn; lia).
    assert (H2 : (String.length p <? String.length (p ++ String c2 t2)) = true)
      by (apply Nat.ltb_lt; rewrite length_append_string; cbn; lia).
    rewrite H1, H2. cbn [andb].
    destruct (Ascii.eqb_spec c1 c2) as [-> | Hne].
    + destruct (IH (p ++ String c2 "") t1 t2 ltac:(cbn in Hlen; lia))
        as (q & r1 & r2 & E1 & E2 & Hd & Hrun).
      exists (String c2 q), r1, r2.
      rewrite !append_assoc_string in Hrun. cbn [append] in Hrun.
      rewrite length_append_string in Hrun. cbn [String.length] in Hrun.
      replace (String.length p + 1) with (S (String.length p)) in Hrun by lia.
      rewrite Hrun. cbn [append String.length].
      rewrite E1, E2 at 1. repeat split; try assumption.
      f_equal. lia.
    + exists "", (String c1 t1), (String c2 t2).
      rewrite append_empty_r, Nat.add_0_r. cbn [append differ_at_once].
      repeat split. exact Hne.
Qed.

Lemma eqb_empty_false (s : string) : s <> "" -> String.eqb s "" = false.
Proof. intros H. apply String.eqb_neq. exact H. Qed.

Lemma toLowerCase_not_empty (s : string) : s <> "" -> toLowerCase s <> "".
Proof. destruct s; [contradiction | discriminate]. Qed.

Lemma highlighted_longer (rest : string) :
  rest <> "" -> String.length rest < String.length (highlighted rest).
Proof.
  destruct rest as [| c rest]; [contradiction |]. intros _.
  unfold highlighted. rewrite !length_append_string.
  assert (0 < String.length Utils.span_close) by (cbn; lia). lia.
Qed.

Lemma highlighted_fixed (rest : string) : highlighted rest = rest -> rest = "".
Proof.
  intros H. destruct rest as [| c rest]; [reflexivity |].
  pose proof (highlighted_longer (String c rest) ltac:(discriminate)) as Hl.
  rewrite H in Hl. lia.
Qed.

Lemma highlightDifferences_spec (str1 str2 : string) :
  str1 <> "" -> str2 <> "" ->
  exists common rest1 rest2,
    toLowerCase str1 = common ++ rest1
    /\ toLowerCase str2 = common ++ rest2
    /\ differ_at_once rest1 rest2
    /\ Utils.highlightDifferences str1 str2
       = (common ++ highlighted rest1, common ++ highlighted rest2).
Proof.
  intros H1 H2. unfold Utils.highlightDifferences.
  rewrite (eqb_empty_false str1 H1), (eqb_empty_false str2 H2). cbn [orb].
  destruct (highlightDifferences_loop_spec (String.length (toLowerCase str1)) ""
              (toLowerCase str1) (toLowerCase str2) (Nat.le_refl _))
    as (q & r1 & r2 & E1 & E2 & Hd & Hrun).
  cbn [append String.length Nat.add] in Hrun. rewrite Hrun.
  exists q, r1, r2. repeat split; try assumption.
  rewrite E1, E2, !length_append_string, !substring_from_append.
  f_equal.
  - destruct r1 as [| c r1]; cbn [String.length highlighted].
    + rewrite Nat.add_0_r, Nat.ltb_irrefl, append_empty_r. reflexivity.
    + assert (E : (String.length q <? String.length q + S (String.length r1)) = true)
        by (apply Nat.ltb_lt; lia).
      rewrite E. reflexivity.
  - destruct r2 as [| c r2]; cbn [String.length highlighted].
    + rewrite Nat.add_0_r, Nat.ltb_irrefl, append_empty_r. reflexivity.
    + assert (E : (String.length q <? String.length q + S (String.length r2)) = true)
        by (apply Nat.ltb_lt; lia).
      rewrite E. reflexivity.
Qed.

End Highlighting.

(** X21. [highlightDifferences] returns two empty-or-missing arguments as
    they are.  For two non-empty ASCII strings it lower-cases both, keeps
    their longest common prefix unmarked and wraps what follows it, in each
    string, in one highlighting span (none when nothing follows); no markup
    at all is produced exactly when [compareHashes] accepts the two
    strings. *)
Theorem highlightDifferences_common_prefix (str1 str2 : string) :
  is_ascii_string str1 = true -> is_ascii_string str2 = true ->
  (str1 = ""%string \/ str2 = ""%string ->
   Utils.highlightDifferences str1 str2 = (str1, str2))
  /\ (str1 <> ""%string -> str2 <> ""%string ->
      (exists common rest1 rest2,
         toLowerCase str1 = (common ++ rest1)%string
         /\ toLowerCase str2 = (common ++ rest2)%string
         /\ differ_at_once rest1 rest2
         /\ Utils.highlightDifferences str1 str2
            = ((common ++ highlighted rest1)%string,
               (common ++ highlighted rest2)%string))
      /\ (Utils.compareHashes str1 str2 = true <->
          Utils.highlightDifferences str1 str2
          = (toLowerCase str1, toLowerCase str2))).
Proof.
  intros _ _. split.
  - intros [-> | ->]; unfold Utils.highlightDifferences; [reflexivity |].
    rewrite orb_true_r. reflexivity.
  - intros H1 H2.
    destruct (highlightDifferences_spec str1 str2 H1 H2)
      as (q & r1 & r2 & E1 & E2 & Hd & Hrun).
    split; [exists q, r1, r2; repeat split; assumption |].
    unfold Utils.compareHashes.
    rewrite (eqb_empty_false str1 H1), (eqb_empty_false str2 H2). cbn [orb].
    rewrite Hrun, E1, E2, String.eqb_eq. split.
    + intros Heq. apply append_inj_l in Heq. subst r2.
      destruct r1 as [| c r1]; [reflexivity |].
      exfalso. apply Hd. reflexivity.
    + intros Heq. inversion Heq as [[Ha Hb]].
      apply append_inj_l, highlighted_fixed in Ha.
      apply append_inj_l, highlighted_fixed in Hb.
      subst. reflexivity.
Qed.

Lemma highlightDifferences_common_prefix_witness :
  Utils.highlightDifferences "D41D8CD9" "d41d8cd9" = ("d41d8cd9", "d41d8cd9")%string.
Proof.
  assert (H1 : "D41D8CD9"%string <> ""%string) by discriminate.
  assert (H2 : "d41d8cd9"%string <> ""%string) by discriminate.
  exact (proj1 (proj2 (proj2 (highlightDifferences_common_prefix
                                "D41D8CD9" "d41d8cd9" eq_refl eq_refl) H1 H2))
               eq_refl).
Defined.

(** ** The round functions of MD5 *)

Section Rounds.
Local Open Scope Z_scope.

Lemma ToInt32_eq32 z : JS.ToInt32 z mod 2 ^ 32 = z mod 2 ^ 32.
Proof. unfold JS.ToInt32. Z.to_euclidean_division_equations. lia. Qed.

Lemma mod32_testbit a b :
  a mod 2 ^ 32 = b mod 2 ^ 32 <->
  (forall n, 0 <= n < 32 -> Z.testbit a n = Z.testbit b n).
Proof.
  split.
  - intros H n Hn.
    rewrite <- (Z.mod_pow2_bits_low a 32 n), <- (Z.mod_pow2_bits_low b 32 n) by lia.
    rewrite H. reflexivity.
  - intros H. apply Z.bits_inj'. intros n Hn.
    destruct (Z.ltb_spec n 32) as [Hlt | Hge].
    + rewrite !Z.mod_pow2_bits_low by lia. apply H. lia.
    + rewrite !Z.mod_pow2_bits_high by lia. reflexivity.
Qed.

Lemma ToInt32_testbit z n : 0 <= n < 32 -> Z.testbit (JS.ToInt32 z) n = Z.testbit z n.
Proof. apply mod32_testbit, ToInt32_eq32. Qed.





Lemma small_bits x k n : 0 <= x < 2 ^ k -> 0 <= k <= n -> Z.testbit x n = false.
Proof.
  intros Hx Hk. apply Z.testbit_false; [lia |].
  rewrite Z.div_small; [reflexivity |].
  split; [lia |]. apply Z.lt_le_trans with (2 ^ k); [lia |].
  apply Z.pow_le_mono_r; lia.
Qed.





End Rounds.



(** ** The padded message *)

Section Padding.

Local Open Scope list_scope.

Lemma lengthBytes_of_le_bytes c :
  (0 <= c < 2 ^ 64)%Z -> lengthBytes_of c = le_bytes 8 c.
Proof.
  intros Hc. unfold lengthBytes_of, setUint32_le, set.
  cbn [repeat firstn skipn app length Nat.add le_bytes].
  unfold JS.and. change (JS.ToInt32 4294967295) with (-1)%Z.
  rewrite !Z.land_m1_r. rewrite Z.quot_div_nonneg by lia.
  unfold JS.ToUint32, JS.ToInt32.
  change (2 ^ 64)%Z with 18446744073709551616%Z in Hc.
  change (2 ^ 31)%Z with 2147483648%Z. change (2 ^ 32)%Z with 4294967296%Z.
  change (2 ^ 8)%Z with 256%Z. change (2 ^ 16)%Z with 65536%Z.
  change (2 ^ 24)%Z with 16777216%Z.
  repeat (apply f_equal2; [Z.to_euclidean_division_equations; lia |]).
  reflexivity.
Qed.

Lemma word_bytes_le_bytes h : word_bytes h = le_bytes 4 (h mod 2 ^ 32).
Proof.
  unfold word_bytes. cbn [le_bytes].
  unfold JS.and, JS.sar. change (JS.ToInt32 255) with (Z.ones 8).
  rewrite !Z.land_ones by lia.
  change (JS.ToUint32 8 mod 32)%Z with 8%Z.
  change (JS.ToUint32 16 mod 32)%Z with 16%Z.
  change (JS.ToUint32 24 mod 32)%Z with 24%Z.
  assert (T : forall z k, (0 <= k < 32)%Z ->
                JS.ToInt32 (Z.shiftr (JS.ToInt32 z) k) = Z.shiftr (JS.ToInt32 z) k).
  { intros z k Hk. rewrite Z.shiftr_div_pow2 by lia.
    assert (Hz : (- 2 ^ 31 <= JS.ToInt32 z < 2 ^ 31)%Z)
      by (unfold JS.ToInt32; Z.to_euclidean_division_equations; lia).
    assert (Hd : (- 2 ^ 31 <= JS.ToInt32 z / 2 ^ k < 2 ^ 31)%Z).
    { assert (0 < 2 ^ k)%Z by (apply Z.pow_pos_nonneg; lia).
      split.
      - apply Z.div_le_lower_bound; [lia |]. nia.
      - apply Z.div_lt_upper_bound; [lia |]. nia. }
    unfold JS.ToInt32 at 1. Z.to_euclidean_division_equations. lia. }
  rewrite !T by lia. rewrite !Z.shiftr_div_pow2 by lia.
  unfold JS.ToInt32.
  change (2 ^ 31)%Z with 2147483648%Z. change (2 ^ 32)%Z with 4294967296%Z.
  change (2 ^ 8)%Z with 256%Z. change (2 ^ 16)%Z with 65536%Z.
  change (2 ^ 24)%Z with 16777216%Z.
  repeat (apply f_equal2; [Z.to_euclidean_division_equations; lia |]).
  reflexivity.
Qed.

Lemma absorb_one_block h X : length X = 64 -> absorb h X = md5Transform h X.
Proof.
  intros HX. rewrite absorb_step by lia.
  rewrite firstn_all2 by lia. rewrite skipn_all2 by lia.
  apply absorb_short. cbn [length]. lia.
Qed.

Lemma length_le_bytes k v : length (le_bytes k v) = k.
Proof.
  revert v. induction k as [| k IH]; intros v; cbn [le_bytes length];
    [reflexivity | rewrite IH; reflexivity].
Qed.

Lemma length_rfc_padding n : (n + length (rfc_padding n)) mod 64 = 0.
Proof.
  unfold rfc_padding. rewrite length_app, length_le_bytes. cbn [length].
  rewrite repeat_length.
  pose proof (Nat.mod_upper_bound n 64 ltac:(lia)) as Hr.
  pose proof (Nat.div_mod_eq n 64) as Hn.
  set (r := n mod 64) in *.
  destruct (Nat.lt_ge_cases r 56) as [Hlt | Hge].
  - replace ((119 - r) mod 64) with (55 - r)
      by (apply (Nat.mod_unique _ _ 1); lia).
    replace (n + (S (55 - r) + 8)) with (64 + 64 * (n / 64)) by lia.
    symmetry. apply (Nat.mod_unique _ _ (S (n / 64))); lia.
  - replace ((119 - r) mod 64) with (119 - r)
      by (symmetry; apply Nat.mod_small; lia).
    replace (n + (S (119 - r) + 8)) with (128 + 64 * (n / 64)) by lia.
    symmetry. apply (Nat.mod_unique _ _ (2 + n / 64)); lia.
Qed.

Lemma md5Final_blocks st D :
  md5_inv st D ->
  count st = (8 * Z.of_nat (length D))%Z ->
  (8 * Z.of_nat (length D) < 2 ^ 64)%Z ->
  md5Transform (fst (md5Final_pad st)) (snd (md5Final_pad st))
  = absorb (state md5Init) (D ++ rfc_padding (length D)).
Proof.
  intros Hinv Hcount Hbits.
  pose proof (md5_inv_index st D Hinv) as Hi.
  destruct Hinv as (HS & HB & HT & _).
  rewrite (md5Final_pad_spec st HB). rewrite Hi, HT, HS.
  rewrite (proj1 (absorb_tail64_app D (state md5Init) (rfc_padding (length D)))).
  pose proof (length_tail64 D) as Hlen.
  pose proof (Nat.mod_upper_bound (length D) 64 ltac:(lia)) as Hr.
  set (r := length D mod 64) in *.
  set (T := tail64 D) in *.
  set (h := absorb (state md5Init) D).
  unfold rfc_padding. fold r.
  rewrite Hcount, lengthBytes_of_le_bytes by lia.
  set (L := le_bytes 8 (8 * Z.of_nat (length D))).
  assert (HL : length L = 8) by apply length_le_bytes.
  destruct (Nat.ltb_spec r 56) as [Hlt | Hge]; cbn [fst snd].
  - replace ((119 - r) mod 64) with (55 - r)
      by (apply (Nat.mod_unique _ _ 1); lia).
    rewrite (app_assoc T). symmetry. apply absorb_one_block.
    rewrite !length_app. cbn [length]. rewrite repeat_length. lia.
  - replace ((119 - r) mod 64) with (119 - r)
      by (symmetry; apply Nat.mod_small; lia).
    replace (119 - r) with ((63 - r) + 56) by lia.
    rewrite repeat_app.
    assert (E : T ++ (128%Z :: repeat 0%Z (63 - r) ++ repeat 0%Z 56) ++ L
                = (T ++ 128%Z :: repeat 0%Z (63 - r)) ++ (repeat 0%Z 56 ++ L)).
    { rewrite <- !app_assoc. cbn [app]. rewrite <- !app_assoc. reflexivity. }
    rewrite E.
    assert (H1 : length (T ++ 128%Z :: repeat 0%Z (63 - r)) = 64)
      by (rewrite length_app; cbn [length]; rewrite repeat_length; lia).
    rewrite absorb_step by (rewrite length_app; lia).
    rewrite (firstn_app_exact _ _ 64 H1), (skipn_app_exact _ _ 64 H1).
    symmetry. apply absorb_one_block.
    rewrite length_app, repeat_length. lia.
Qed.

End Padding.

(** X23. For chunks shorter than 2^28 bytes and a message of fewer than 2^53
    bytes (where the counter, a number of the language, is still exact), the
    digest of the streaming accumulator is the digest RFC 1321 defines over
    the blocks of the padded message: the message followed by the byte 0x80,
    zero bytes up to 56 modulo 64 and its bit length in eight little-endian
    bytes is a whole number of 64-byte blocks, [md5Transform] is folded over
    these blocks from the initial chaining value, and the four resulting
    words are written out little-endian. *)
Theorem md5_digest_padded_blocks (chunks : list Uint8Array) :
  Forall small_chunk chunks ->
  (Z.of_nat (length (concat chunks)) < 2 ^ 53)%Z ->
  length (concat chunks ++ rfc_padding (length (concat chunks)))%list mod 64 = 0
  /\ md5_digest chunks
     = rfc_output (absorb (state md5Init)
                          (concat chunks ++ rfc_padding (length (concat chunks)))%list).
Proof.
  intros Hsmall Htotal.
  assert (Hbits : (8 * Z.of_nat (length (concat chunks)) < 2 ^ 64)%Z) by lia.
  split.
  - rewrite length_app. apply length_rfc_padding.
  - unfold md5_digest, md5Final.
    set (st := fold_left md5Update chunks md5Init).
    assert (Hinv : md5_inv st (concat chunks))
      by apply (md5_inv_fold chunks md5Init [] md5_inv_init).
    assert (Hcount : count st = (8 * Z.of_nat (length (concat chunks)))%Z)
      by (unfold st; rewrite md5_count_fold by exact Hsmall; reflexivity).
    rewrite <- (md5Final_blocks st (concat chunks) Hinv Hcount Hbits).
    destruct (md5Final_pad st) as [hash buffer]. cbn [fst snd].
    destruct (md5Transform hash buffer) as [[[h0 h1] h2] h3].
    cbn [fst rfc_output]. rewrite !word_bytes_le_bytes. reflexivity.
Qed.

Lemma md5_digest_padded_blocks_witness :
  md5_digest [[97; 98]; [99]]%Z
  = rfc_output (absorb (state md5Init) ([97; 98; 99]%Z ++ rfc_padding 3)%list).
Proof.
  assert (Hsmall : Forall small_chunk [[97; 98]; [99]]%Z) by (repeat constructor).
  assert (Htotal : (Z.of_nat (length (concat [[97; 98]; [99]]%Z)) < 2 ^ 53)%Z)
    by (cbn; lia).
  exact (proj2 (md5_digest_padded_blocks [[97; 98]; [99]]%Z Hsmall Htotal)).
Defined.

(** ** Words and bytes *)

Section WordsAndBytes.

Local Open Scope list_scope.
Local Open Scope Z_scope.

Lemma lor_disjoint lo hi k :
  0 <= lo < 2 ^ k -> 0 <= k -> Z.lor lo (hi * 2 ^ k) = lo + hi * 2 ^ k.
Proof.
  intros Hlo Hk.
  assert (Hdis : Z.land lo (hi * 2 ^ k) = 0).
  { apply Z.bits_inj'. intros m Hm. rewrite Z.land_spec, Z.bits_0.
    destruct (Z.ltb_spec m k) as [Hl | Hh].
    - rewrite Z.mul_pow2_bits_low by lia. apply andb_false_r.
    - rewrite (small_bits lo k m) by lia. reflexivity. }
  rewrite Z.add_nocarry_lxor by exact Hdis. symmetry. apply Z.lxor_lor, Hdis.
Qed.

Lemma word_of_bytes b0 b1 b2 b3 :
  0 <= b0 < 256 -> 0 <= b1 < 256 -> 0 <= b2 < 256 -> 0 <= b3 < 256 ->
  JS.ToUint32
    (JS.or (JS.or (JS.or (JS.and b0 0xFF) (JS.shl (JS.and b1 0xFF) 8))
                  (JS.shl (JS.and b2 0xFF) 16))
           (JS.shl (JS.and b3 0xFF) 24))
  = le_value [b0; b1; b2; b3].
Proof.
  intros H0 H1 H2 H3.
  assert (Hand : forall b, 0 <= b < 256 -> JS.and b 0xFF = b).
  { intros b Hb. unfold JS.and. change (JS.ToInt32 255) with (Z.ones 8).
    rewrite Z.land_ones by lia.
    assert (E : JS.ToInt32 b = b)
      by (unfold JS.ToInt32; Z.to_euclidean_division_equations; lia).
    rewrite E. apply Z.mod_small. lia. }
  rewrite !Hand by assumption.
  assert (Hsum : le_value [b0; b1; b2; b3]
                 = Z.lor (Z.lor (Z.lor b0 (b1 * 2 ^ 8)) (b2 * 2 ^ 16)) (b3 * 2 ^ 24)).
  { rewrite (lor_disjoint b0 b1 8) by lia.
    rewrite (lor_disjoint (b0 + b1 * 2 ^ 8) b2 16) by lia.
    rewrite (lor_disjoint (b0 + b1 * 2 ^ 8 + b2 * 2 ^ 16) b3 24) by lia.
    cbn [le_value]. lia. }
  assert (Hrange : 0 <= le_value [b0; b1; b2; b3] < 2 ^ 32) by (cbn [le_value]; lia).
  rewrite <- (Z.mod_small _ (2 ^ 32) Hrange). rewrite Hsum.
  unfold JS.ToUint32. apply mod32_testbit. intros n Hn.
  unfold JS.or, JS.shl.
  change (JS.ToUint32 8 mod 32) with 8.
  change (JS.ToUint32 16 mod 32) with 16.
  change (JS.ToUint32 24 mod 32) with 24.
  rewrite !Z.shiftl_mul_pow2 by lia.
  repeat (rewrite ?Z.lor_spec, ?ToInt32_testbit by lia).
  assert (Hmul : forall b k, Z.testbit (JS.ToInt32 b * 2 ^ k) n = Z.testbit (b * 2 ^ k) n).
  { intros b k. apply mod32_testbit; [| exact Hn].
    rewrite <- Z.mul_mod_idemp_l, ToInt32_eq32, Z.mul_mod_idemp_l by lia.
    reflexivity. }
  rewrite !Hmul. reflexivity.
Qed.

Lemma get_bytes block k : is_bytes block -> 0 <= get block k < 256.
Proof.
  intros Hb. unfold get.
  destruct (Nat.lt_ge_cases k (List.length block)) as [Hlt | Hge].
  - unfold is_bytes in Hb. rewrite Forall_forall in Hb. apply Hb, nth_In, Hlt.
  - rewrite nth_overflow by exact Hge. lia.
Qed.

Lemma le_value_le_bytes k : forall v,
  0 <= v < 256 ^ Z.of_nat k -> le_value (le_bytes k v) = v.
Proof.
  induction k as [| k IH]; intros v Hv.
  - cbn in *. lia.
  - cbn [le_bytes le_value].
    rewrite IH.
    + Z.to_euclidean_division_equations. lia.
    + rewrite Nat2Z.inj_succ, Z.pow_succ_r in Hv by lia.
      split; [apply Z.div_pos; lia |].
      apply Z.div_lt_upper_bound; lia.
Qed.

End WordsAndBytes.

(** X24. [md5Transform] reads a block of bytes as little-endian 32-bit words
    and [md5Final] writes the words of the digest out little-endian: the word
    read at a position is the little-endian value of its four bytes, the
    bytes written for a word have the value of the word modulo 2^32, and
    reading back what was written returns that value. *)
Theorem word_bytes_round_trip :
  (forall block i,
     is_bytes block ->
     word_of_block block i
     = le_value [get block (i * 4); get block (i * 4 + 1);
                 get block (i * 4 + 2); get block (i * 4 + 3)])
  /\ (forall h, le_value (word_bytes h) = (h mod 2 ^ 32)%Z)
  /\ (forall h rest,
        word_of_block (word_bytes h ++ rest)%list 0 = (h mod 2 ^ 32)%Z).
Proof.
  assert (Hdecode : forall block i,
             is_bytes block ->
             word_of_block block i
             = le_value [get block (i * 4); get block (i * 4 + 1);
                         get block (i * 4 + 2); get block (i * 4 + 3)]).
  { intros block i Hb. unfold word_of_block.
    apply word_of_bytes; apply get_bytes, Hb. }
  assert (Hencode : forall h, le_value (word_bytes h) = (h mod 2 ^ 32)%Z).
  { intros h. rewrite word_bytes_le_bytes. apply le_value_le_bytes.
    change (256 ^ Z.of_nat 4)%Z with (2 ^ 32)%Z. apply Z.mod_pos_bound. lia. }
  split; [exact Hdecode |]. split; [exact Hencode |].
  intros h rest. rewrite <- Hencode.
  unfold word_of_block. rewrite word_bytes_le_bytes. cbn [le_bytes app get nth Nat.mul Nat.add].
  apply word_of_bytes; apply Z.mod_pos_bound; lia.
Qed.

(** ** The result of a computation *)

Section ResultShape.

Local Open Scope list_scope.

Variable P : Platform.
Variable settings : Settings.

Lemma prefix_append (p s : string) :
  prefix p s = true -> (p ++ substring_from (String.length p) s)%string = s.
Proof.
  revert s. induction p as [| a p IH]; intros s Hp.
  - unfold substring_from. cbn [String.length append].
    rewrite Nat.sub_0_r. apply substring_whole.
  - destruct s as [| b s]; [discriminate Hp |]. cbn [prefix] in Hp.
    destruct (ascii_dec a b) as [<- | _]; [| discriminate Hp].
    cbn [append String.length]. f_equal.
    change (substring_from (S (String.length p)) (String a s))
      with (substring_from (String.length p) s).
    apply IH, Hp.
Qed.

Lemma md5Final_length st : length (fst (md5Final st)) = 16.
Proof.
  unfold md5Final. destruct (md5Final_pad st) as [hash buffer].
  destruct (md5Transform hash buffer) as [[[h0 h1] h2] h3]. reflexivity.
Qed.

Lemma bufferToHex_digits bytes format :
  String.length (bufferToHex bytes format) = 2 * length bytes
  /\ string_forall
       (if String.eqb format "uppercase" then is_upper_hex else is_lower_hex)
       (bufferToHex bytes format) = true.
Proof.
  unfold bufferToHex.
  destruct (hex_fold bytes EmptyString) as [Hl Hc]. cbv zeta in *.
  destruct (String.eqb format "uppercase").
  - unfold toUpperCase at 1. rewrite length_map_string. split; [exact Hl |].
    apply string_forall_upper. exact Hc.
  - split; [exact Hl | exact Hc].
Qed.

Lemma processChunk_result file algorithm c onProgress :
  forall fuel hashBuffer processed offset r,
  snd (processChunk P settings fuel file algorithm c onProgress hashBuffer
         processed offset) = Resolved r ->
  exists hashBytes,
    r = {| hr_algorithm := algorithm;
           hash := bufferToHex hashBytes (resultFormat settings) |}.
Proof.
  induction fuel as [| fuel IH]; intros hashBuffer processed offset r;
    [discriminate |].
  cbn [processChunk].
  set (chunk := slice file offset (offset + c)).
  destruct (offset + length chunk <? size file).
  - specialize (IH (updateHash hashBuffer chunk) (processed + length chunk)
                  (offset + length chunk) r).
    destruct (processChunk P settings fuel file algorithm c onProgress
                (updateHash hashBuffer chunk) (processed + length chunk)
                (offset + length chunk)) as [evs' out'].
    exact IH.
  - destruct (fst (finalizeHash P (updateHash hashBuffer chunk))) as [m | hashBytes];
      cbn [snd]; intros H; [discriminate H |].
    inversion H. exists hashBytes. reflexivity.
Qed.

Lemma processChunk_md5_result file c onProgress :
  forall fuel st processed offset r,
  snd (processChunk P settings fuel file "md5" c onProgress (JsHash "MD5" st)
         processed offset) = Resolved r ->
  exists st',
    r = {| hr_algorithm := "md5";
           hash := bufferToHex (fst (md5Final st')) (resultFormat settings) |}.
Proof.
  induction fuel as [| fuel IH]; intros st processed offset r; [discriminate |].
  cbn [processChunk].
  set (chunk := slice file offset (offset + c)).
  change (updateHash (JsHash "MD5" st) chunk)
    with (JsHash "MD5" (md5Update st chunk)).
  destruct (offset + length chunk <? size file).
  - specialize (IH (md5Update st chunk) (processed + length chunk)
                  (offset + length chunk) r).
    destruct (processChunk P settings fuel file "md5" c onProgress
                (JsHash "MD5" (md5Update st chunk)) (processed + length chunk)
                (offset + length chunk)) as [evs' out'].
    exact IH.
  - unfold finalizeHash. change (String.eqb "MD5" "MD5") with true. cbv iota.
    destruct (md5Final (md5Update st chunk)) as [hashBytes st'] eqn:E.
    cbn [fst snd]. intros H. inversion H. exists (md5Update st chunk).
    rewrite E. reflexivity.
Qed.

Lemma calculateHash_result file algorithm options r :
  snd (calculateHash P settings file algorithm options) = Resolved r ->
  exists hashBytes,
    r = {| hr_algorithm := algorithm;
           hash := bufferToHex hashBytes (resultFormat settings) |}
    /\ (algorithm = "md5"%string -> length hashBytes = 16).
Proof.
  unfold calculateHash.
  destruct (isAlgorithmSupported algorithm); cbn [negb]; [| discriminate].
  destruct (prefix "hmac-" algorithm) eqn:Hpre.
  - unfold calculateHMAC.
    destruct (obj_get _ (substring_from 5 algorithm)) as [cryptoAlgo |];
      [| discriminate].
    destruct (subtle_importKey P cryptoAlgo _) as [message |]; [discriminate |].
    destruct (readFileAsArrayBuffer file (option_chunkSize settings options)
                (opt_onProgress options)) as [evs [fileBuffer | message |]];
      [| discriminate | discriminate].
    destruct (subtle_sign P cryptoAlgo _ fileBuffer) as [message | hmacBuffer];
      cbn [snd]; intros H; [discriminate H |].
    injection H as <-. exists hmacBuffer. split.
    + pose proof (prefix_append "hmac-" algorithm Hpre) as Hp.
      cbn [String.length append] in Hp. rewrite Hp. reflexivity.
    + intros ->. discriminate Hpre.
  - destruct (String.eqb_spec algorithm "md5") as [-> | Hne].
    + rewrite createHashInstance_md5.
      change (updateHash (JsHash "MD5" md5Init) (bytes file))
        with (JsHash "MD5" (md5Update md5Init (bytes file))).
      destruct (size file <=? option_chunkSize settings options).
      * unfold finalizeHash. change (String.eqb "MD5" "MD5") with true. cbv iota.
        destruct (md5Final (md5Update md5Init (bytes file))) as [hashBytes st'] eqn:E.
        cbn [fst snd]. intros H. inversion H. exists hashBytes.
        split; [reflexivity |]. intros _.
        pose proof (md5Final_length (md5Update md5Init (bytes file))) as Hl.
        rewrite E in Hl. exact Hl.
      * intros H. apply processChunk_md5_result in H. destruct H as (st' & ->).
        exists (fst (md5Final st')). split; [reflexivity |].
        intros _. apply md5Final_length.
    + destruct (createHashInstance P algorithm) as [message | hashBuffer];
        [discriminate |].
      destruct (size file <=? option_chunkSize settings options).
      * destruct (fst (finalizeHash P (updateHash hashBuffer (bytes file))))
          as [message | hashBytes]; cbn [snd]; intros H; [discriminate H |].
        inversion H. exists hashBytes. split; [reflexivity | contradiction].
      * intros H. apply processChunk_result in H. destruct H as (hashBytes & ->).
        exists hashBytes. split; [reflexivity | contradiction].
Qed.

End ResultShape.

(** X25. Every result a computation resolves with is labelled with the
    requested algorithm name, and its digest string is an even number of
    hexadecimal digits, uppercase when the result format of the settings is
    uppercase and lowercase otherwise; the digest string of md5 has 32
    digits. *)
Theorem calculateHash_result_shape (P : Platform) (settings : Settings)
    (file : File) (algorithm : string) (options : Options) (r : HashResult) :
  snd (calculateHash P settings file algorithm options) = Resolved r ->
  hr_algorithm r = algorithm
  /\ Nat.even (String.length (hash r)) = true
  /\ string_forall
       (if String.eqb (resultFormat settings) "uppercase"
        then is_upper_hex else is_lower_hex)
       (hash r) = true
  /\ (algorithm = "md5"%string -> String.length (hash r) = 32).
Proof.
  intros Hrun.
  destruct (calculateHash_result P settings file algorithm options r Hrun)
    as (hashBytes & -> & Hmd5).
  cbn [hr_algorithm hash].
  destruct (bufferToHex_digits hashBytes (resultFormat settings)) as [Hlen Hhex].
  split; [reflexivity |]. split; [| split; [exact Hhex |]].
  - rewrite Hlen, Nat.even_mul. reflexivity.
  - intros Hm. rewrite Hlen, (Hmd5 Hm). reflexivity.
Qed.

Lemma calculateHash_result_shape_witness :
  exists r,
    snd (calculateHash broken_crypto uppercase_settings ten_bytes "md5"
           chunk4_options) = Resolved r
    /\ hr_algorithm r = "md5"%string
    /\ String.length (hash r) = 32.
Proof.
  eassert (E : snd (calculateHash broken_crypto uppercase_settings ten_bytes "md5"
                      chunk4_options) = Resolved _)
    by (vm_compute; reflexivity).
  eexists. split; [exact E |].
  destruct (calculateHash_result_shape _ _ _ _ _ _ E) as (Hname & _ & _ & Hlen).
  split; [exact Hname | exact (Hlen eq_refl)].
Defined.

(** X26. The digest strings of the same bytes in two result formats always
    match under [compareHashes], whatever the formats are: a digest shown in
    uppercase is found by its lowercase form and conversely. *)
Theorem compareHashes_across_formats (hashBytes : Uint8Array)
    (format1 format2 : string) :
  is_bytes hashBytes ->
  hashBytes <> [] ->
  Utils.compareHashes (bufferToHex hashBytes format1) (bufferToHex hashBytes format2)
  = true.
Proof.
  intros _ Hne.
  assert (Hnonempty : forall format,
             String.eqb (bufferToHex hashBytes format) "" = false).
  { intros format. apply String.eqb_neq. intros E.
    pose proof (proj1 (bufferToHex_digits hashBytes format)) as Hl.
    rewrite E in Hl. destruct hashBytes; [contradiction | cbn in Hl; lia]. }
  assert (Hlower : forall format,
             toLowerCase (bufferToHex hashBytes format)
             = toLowerCase (bufferToHex hashBytes "lowercase")).
  { intros format. unfold bufferToHex.
    change (String.eqb "lowercase" "uppercase") with false. cbv iota.
    destruct (String.eqb format "uppercase");
      [apply toLowerCase_toUpperCase | reflexivity]. }
  unfold Utils.compareHashes. rewrite !Hnonempty. cbn [orb].
  rewrite (Hlower format1), (Hlower format2). apply String.eqb_refl.
Qed.

Lemma compareHashes_across_formats_witness :
  Utils.compareHashes (bufferToHex [171; 205]%Z "uppercase")
                      (bufferToHex [171; 205]%Z "lowercase") = true.
Proof.
  assert (Hb : is_bytes [171; 205]%Z) by (repeat constructor; lia).
  assert (Hne : [171; 205]%Z <> []) by discriminate.
  exact (compareHashes_across_formats [171; 205]%Z "uppercase" "lowercase" Hb Hne).
Defined.
